(** * lmgec-lite: language-model driven grammatical error correction

    A shallow embedding of [lmgec.py].  Python lists are modelled by
    [list], insertion-ordered dictionaries by association lists, sets by
    duplicate-free lists (list order stands for iteration order),
    [float("-inf")] by [None], and exceptions by an error monad.  The
    language model, the tagger and the spellchecker are external services
    and appear as fields of the resource record.

    The program is embedded twice.  The first embedding computes with exact
    rationals and reads text as ASCII (characters are 8-bit codes, codes
    above 127 are uncased and not whitespace); it carries the properties
    that depend neither on rounding nor on the character database.  The
    second takes the product and quotient of floats and the methods of
    [str] that go by the Unicode character database from a record of the
    interpreter's operations, and carries the properties that do depend on
    them; they hold for every such record. *)

From Stdlib Require Import List String Ascii Bool Arith ZArith QArith Lia Lqa.
Import ListNotations.
Open Scope string_scope.
Open Scope list_scope.
Open Scope nat_scope.

(** ** Exceptions *)

Inductive exn : Set := IndexError | ZeroDivisionError.

Inductive result (A : Type) : Type :=
| Ok (a : A)
| Raise (e : exn).
Arguments Ok {A} a.
Arguments Raise {A} e.

Definition bind {A B : Type} (c : result A) (k : A -> result B) : result B :=
  match c with
  | Ok a => k a
  | Raise e => Raise e
  end.

Notation "x <- c ;; k" := (bind c (fun x => k))
  (at level 61, c at next level, right associativity).
Notation "' p <- c ;; k" := (bind c (fun x => let 'p := x in k))
  (at level 61, p pattern, c at next level, right associativity).

(** ** Python built-ins used by the program *)

Module Py.

(** *** Characters *)

Definition code (c : ascii) : nat := nat_of_ascii c.

Definition is_lower_char (c : ascii) : bool :=
  (97 <=? code c) && (code c <=? 122).

Definition is_upper_char (c : ascii) : bool :=
  (65 <=? code c) && (code c <=? 90).

Definition is_alpha_char (c : ascii) : bool :=
  is_lower_char c || is_upper_char c.

(** [str.isspace] on one character: TAB, LF, VT, FF, CR, FS, GS, RS, US and
    the space. *)
Definition is_space (c : ascii) : bool :=
  ((9 <=? code c) && (code c <=? 13)) || ((28 <=? code c) && (code c <=? 32)).

Definition upper_char (c : ascii) : ascii :=
  if is_lower_char c then ascii_of_nat (code c - 32) else c.

Definition lower_char (c : ascii) : ascii :=
  if is_upper_char c then ascii_of_nat (code c + 32) else c.

(** *** Strings *)

Fixpoint smap (f : ascii -> ascii) (s : string) : string :=
  match s with
  | EmptyString => EmptyString
  | String c s' => String (f c) (smap f s')
  end.

Fixpoint sforall (p : ascii -> bool) (s : string) : bool :=
  match s with
  | EmptyString => true
  | String c s' => p c && sforall p s'
  end.

Fixpoint sexists (p : ascii -> bool) (s : string) : bool :=
  match s with
  | EmptyString => false
  | String c s' => p c || sexists p s'
  end.

Fixpoint sfilter (p : ascii -> bool) (s : string) : string :=
  match s with
  | EmptyString => EmptyString
  | String c s' => if p c then String c (sfilter p s') else sfilter p s'
  end.

(** [s.upper()] and [s.lower()] *)
Definition upper (s : string) : string := smap upper_char s.
Definition lower (s : string) : string := smap lower_char s.

(** [s.isupper()]: at least one cased character and no lowercase one. *)
Definition isupper (s : string) : bool :=
  sexists is_upper_char s && negb (sexists is_lower_char s).

(** [s.isalpha()]: non-empty and alphabetic throughout. *)
Definition isalpha (s : string) : bool :=
  match s with
  | EmptyString => false
  | _ => sforall is_alpha_char s
  end.

(** Truth value of a string and of a list. *)
Definition truthy (s : string) : bool :=
  match s with
  | EmptyString => false
  | _ => true
  end.

Definition nonempty {A : Type} (l : list A) : bool :=
  match l with
  | [] => false
  | _ => true
  end.

(** [s.lstrip()], [s.rstrip()], [s.strip()] *)
Fixpoint lstrip (s : string) : string :=
  match s with
  | EmptyString => EmptyString
  | String c s' => if is_space c then lstrip s' else s
  end.

Fixpoint rstrip (s : string) : string :=
  match s with
  | EmptyString => EmptyString
  | String c s' =>
      match rstrip s' with
      | EmptyString => if is_space c then EmptyString else String c EmptyString
      | r => String c r
      end
  end.

Definition strip (s : string) : string := rstrip (lstrip s).

(** [s.split()]: maximal runs of non-whitespace characters. *)
Definition flush (cur : string) : list string :=
  match cur with
  | EmptyString => []
  | _ => [cur]
  end.

Fixpoint split_ws (cur : string) (s : string) : list string :=
  match s with
  | EmptyString => flush cur
  | String c s' =>
      if is_space c then flush cur ++ split_ws EmptyString s'
      else split_ws (cur ++ String c EmptyString) s'
  end.

Definition split (s : string) : list string := split_ws EmptyString s.

(** [s.split(sep)] for a non-empty separator: [skip] counts the characters
    of a separator just matched that are still to be passed over. *)
Fixpoint split_by (sep : string) (skip : nat) (cur : string) (s : string)
  : list string :=
  match s with
  | EmptyString => [cur]
  | String c s' =>
      match skip with
      | S k => split_by sep k cur s'
      | O =>
          if prefix sep s
          then cur :: split_by sep (String.length sep - 1) EmptyString s'
          else split_by sep 0 (cur ++ String c EmptyString) s'
      end
  end.

Definition split_sep (sep : string) (s : string) : list string :=
  split_by sep 0 EmptyString s.

(** [sep.join(l)] *)
Fixpoint join (sep : string) (l : list string) : string :=
  match l with
  | [] => EmptyString
  | [x] => x
  | x :: rest => x ++ sep ++ join sep rest
  end.

(** *** Lists *)

(** Resolution of a list index: negative indices count from the end. *)
Definition index (n : nat) (idx : Z) : result nat :=
  if ((0 <=? idx) && (idx <? Z.of_nat n))%Z then Ok (Z.to_nat idx)
  else if ((idx <? 0) && (- Z.of_nat n <=? idx))%Z
       then Ok (Z.to_nat (Z.of_nat n + idx))
       else Raise IndexError.

Fixpoint set_nth {A : Type} (l : list A) (p : nat) (v : A) : list A :=
  match l, p with
  | [], _ => []
  | _ :: t, O => v :: t
  | h :: t, S p' => h :: set_nth t p' v
  end.

(** [l[idx]] *)
Definition getitem {A : Type} (l : list A) (idx : Z) : result A :=
  p <- index (List.length l) idx ;;
  match nth_error l p with
  | Some a => Ok a
  | None => Raise IndexError
  end.

(** [l[idx] = v] on a copy of [l] *)
Definition setitem {A : Type} (l : list A) (idx : Z) (v : A) : result (list A) :=
  p <- index (List.length l) idx ;;
  Ok (set_nth l p v).

(** [x / n] with a float [x] and an integer length [n] *)
Definition div (x : Q) (n : nat) : result Q :=
  match n with
  | O => Raise ZeroDivisionError
  | _ => Ok (x / inject_Z (Z.of_nat n))%Q
  end.

(** [a > b] on floats *)
Definition gt (a b : Q) : bool := negb (Qle_bool a b).

(** [a > b] where [b] may be [float("-inf")] *)
Definition gt_inf (a : Q) (b : option Q) : bool :=
  match b with
  | None => true
  | Some b' => gt a b'
  end.

(** *** Dictionaries: insertion-ordered, assignment to an existing key keeps
    the key and its position and replaces the value. *)

Section Dict.
Context {K V : Type} (eqb : K -> K -> bool).

Fixpoint dict_set (k : K) (v : V) (d : list (K * V)) : list (K * V) :=
  match d with
  | [] => [(k, v)]
  | (k', v') :: d' =>
      if eqb k' k then (k', v) :: d' else (k', v') :: dict_set k v d'
  end.

Fixpoint dict_get (k : K) (d : list (K * V)) : option V :=
  match d with
  | [] => None
  | (k', v') :: d' => if eqb k' k then Some v' else dict_get k d'
  end.

(** [d.update(d2)] *)
Definition dict_update (d d2 : list (K * V)) : list (K * V) :=
  fold_left (fun acc kv => dict_set (fst kv) (snd kv) acc) d2 d.

End Dict.

(** [set(l)]: the distinct elements of [l]. *)
Definition set (l : list string) : list string := nodup string_dec l.

(** [x in s] for a set or a list of strings *)
Definition contains (x : string) (s : list string) : bool :=
  existsb (String.eqb x) s.

End Py.

(** ** Data model *)

(** A token of the analysed sentence: [tok.text], [tok.i], [tok.lemma_]. *)
Record Token : Type := {
  text : string;
  i : nat;
  lemma_ : string
}.

(** An edit identifier [(tok_id, cand, weight)]; [edit[-1]] is the weight. *)
Definition edit : Type := (Z * string) * Q.

Definition edit_tok_id (e : edit) : Z := fst (fst e).
Definition edit_cand (e : edit) : string := snd (fst e).
Definition edit_weight (e : edit) : Q := snd e.

(** Equality of edit identifiers as dictionary keys. *)
Definition edit_eqb (a b : edit) : bool :=
  (edit_tok_id a =? edit_tok_id b)%Z
  && String.eqb (edit_cand a) (edit_cand b)
  && Qeq_bool (edit_weight a) (edit_weight b).

(** The candidate dictionary: edit identifier to candidate sentence. *)
Definition cand_dict_t : Type := list (edit * list string).

(** The inflection dictionary: lemma to set of word forms. *)
Definition form_dict_t : Type := list (string * list string).

(** Command line arguments read by the correction code. *)
Record Args : Type := {
  threshold : Q
}.

(** [res_dict].  The first five fields are the external services:
    [lm_score t] is [lm.score(t, bos=True, eos=True)]; [doc_text] and
    [doc_lemma] give the text of the spaCy document built from a token list
    and the lemma the tagger assigns to its token at a position; [gb_spell]
    and [gb_suggest] are Hunspell's [spell] and [suggest]. *)
Record Resources : Type := {
  lm_score : string -> Q;
  doc_text : list string -> string;
  doc_lemma : list string -> nat -> string;
  gb_spell : string -> bool;
  gb_suggest : string -> list string;
  gb_infl : form_dict_t;
  det : list string;
  prep : list string
}.

(** ** generateCands *)

Definition generateCands_step (tok_id : Z) (sent : list string) (weight : Q)
  (edit_dict : cand_dict_t) (cand : string) : result cand_dict_t :=
  (* Copy the input sentence and change the target token *)
  new_sent <- Py.setitem sent tok_id cand ;;
  (* Remove empty strings from the list (for deletions) *)
  let new_sent := filter Py.truthy new_sent in
  let edit_id : edit := ((tok_id, cand), weight) in
  (* Save non-empty sentences *)
  if Py.nonempty new_sent
  then Ok (Py.dict_set edit_eqb edit_id new_sent edit_dict)
  else Ok edit_dict.

Fixpoint generateCands_loop (tok_id : Z) (cands : list string)
  (sent : list string) (weight : Q) (edit_dict : cand_dict_t)
  : result cand_dict_t :=
  match cands with
  | [] => Ok edit_dict
  | cand :: rest =>
      edit_dict' <- generateCands_step tok_id sent weight edit_dict cand ;;
      generateCands_loop tok_id rest sent weight edit_dict'
  end.

Definition generateCands (tok_id : Z) (cands : list string)
  (sent : list string) (weight : Q) : result cand_dict_t :=
  generateCands_loop tok_id cands sent weight [].

(** ** processWithSpacy *)

Fixpoint tokens_from (sent : list string) (pos : nat) (rest : list string)
  (lemma : list string -> nat -> string) : list Token :=
  match rest with
  | [] => []
  | w :: rest' =>
      {| text := w; i := pos; lemma_ := lemma sent pos |}
        :: tokens_from sent (S pos) rest' lemma
  end.

(** One token per element of the list; the tagger fills in the lemmas. *)
Definition processWithSpacy (sent : list string) (res : Resources)
  : list Token :=
  tokens_from sent 0 sent (doc_lemma res).

(** ** processSent *)

(** [cand_dict.update(generateCands(tok_id, cands, sent, weight))] *)
Definition add_cands (tok_id : Z) (cands : list string) (sent : list string)
  (weight : Q) (cand_dict : cand_dict_t) : result cand_dict_t :=
  d <- generateCands tok_id cands sent weight ;;
  Ok (Py.dict_update edit_eqb cand_dict d).

(** The four candidate sources applied to one token. *)
Definition collect_token (sent : list string) (res : Resources) (args : Args)
  (cand_dict : cand_dict_t) (tok : Token) : result cand_dict_t :=
  let tok_i := Z.of_nat (i tok) in
  (* SPELLCHECKING *)
  cand_dict <-
    (if Py.isalpha (text tok) && negb (gb_spell res (text tok))
     then
       let cands := gb_suggest res (text tok) in
       if Py.nonempty cands
       then add_cands tok_i cands sent (threshold args) cand_dict
       else Ok cand_dict
     else Ok cand_dict) ;;
  (* MORPHOLOGY *)
  cand_dict <-
    (match Py.dict_get String.eqb (lemma_ tok) (gb_infl res) with
     | Some cands => add_cands tok_i cands sent (threshold args) cand_dict
     | None => Ok cand_dict
     end) ;;
  (* DETERMINERS *)
  cand_dict <-
    (if Py.contains (text tok) (det res)
     then add_cands tok_i (det res) sent (threshold args) cand_dict
     else Ok cand_dict) ;;
  (* PREPOSITIONS *)
  if Py.contains (text tok) (prep res)
  then add_cands tok_i (prep res) sent (threshold args) cand_dict
  else Ok cand_dict.

Fixpoint collect (sent : list string) (res : Resources) (args : Args)
  (toks : list Token) (cand_dict : cand_dict_t) : result cand_dict_t :=
  match toks with
  | [] => Ok cand_dict
  | tok :: rest =>
      cand_dict' <- collect_token sent res args cand_dict tok ;;
      collect sent res args rest cand_dict'
  end.

(** The dictionary of candidate sentences of one sweep. *)
Definition candidates (sent : list string) (res : Resources) (args : Args)
  : result cand_dict_t :=
  collect sent res args (processWithSpacy sent res) [].

(** Average token probability of a sentence given as text and length. *)
Definition avg_prob (res : Resources) (txt : string) (n : nat) : result Q :=
  Py.div (lm_score res txt) n.

(** The state of the selection loop: [best_prob] ([None] is minus infinity)
    and [best_sent]. *)
Definition best_t : Type := option Q * list string.

Definition select_step (res : Resources) (orig_prob : Q) (best : best_t)
  (item : edit * list string) : result best_t :=
  let '(best_prob, best_sent) := best in
  let '(edit, cand_sent) := item in
  (* Score the candidate sentence *)
  cand_prob <- avg_prob res (Py.join " " cand_sent) (List.length cand_sent) ;;
  (* Compare cand_prob against weighted orig_prob and best_prob *)
  if Py.gt cand_prob (edit_weight edit * orig_prob)%Q
     && Py.gt_inf cand_prob best_prob
  then Ok (Some cand_prob, cand_sent)
  else Ok best.

Fixpoint select (res : Resources) (orig_prob : Q)
  (items : cand_dict_t) (best : best_t) : result best_t :=
  match items with
  | [] => Ok best
  | item :: rest =>
      best' <- select_step res orig_prob best item ;;
      select res orig_prob rest best'
  end.

Definition processSent (sent : list string) (res : Resources) (args : Args)
  : result (list string * bool) :=
  (* Process sent with spacy *)
  let proc_sent := processWithSpacy sent res in
  (* Calculate avg token prob of the sent so far. *)
  orig_prob <- avg_prob res (doc_text res sent) (List.length proc_sent) ;;
  (* Store all the candidate corrected sentences here *)
  cand_dict <- collect sent res args proc_sent [] ;;
  (* Keep track of the best sent if any *)
  '(best_prob, best_sent) <- select res orig_prob cand_dict (None, []) ;;
  (* Return the best sentence and whether to search for more errors *)
  if Py.nonempty best_sent then Ok (best_sent, true) else Ok (sent, false).

(** ** loadWordFormDict *)

(** The line feed character and the one-character string ["\n"]. *)
Definition LF : ascii := ascii_of_nat 10.
Definition nl : string := String LF EmptyString.

(** Membership in the character class of [[012~<,_!\?\.\|]+]. *)
Definition markup_char (c : ascii) : bool :=
  Py.sexists (Ascii.eqb c) "012~<,_!?.|".

(** [re.sub("[012~<,_!\?\.\|]+", "", forms)] *)
Definition sub_markup (forms : string) : string :=
  Py.sfilter (fun c => negb (markup_char c)) forms.

(** Whether a closing brace follows before the end of the line, so that
    [\{.*?\}] matches at an opening brace just read. *)
Fixpoint closes (s : string) : bool :=
  match s with
  | EmptyString => false
  | String c s' =>
      if Ascii.eqb c "}" then true
      else if Ascii.eqb c LF then false
      else closes s'
  end.

(** [re.sub("\{.*?\}", "", forms)]: [inside] holds while a match is being
    passed over, up to the first closing brace. *)
Fixpoint sub_braces_from (inside : bool) (s : string) : string :=
  match s with
  | EmptyString => EmptyString
  | String c s' =>
      if inside
      then (if Ascii.eqb c "}" then sub_braces_from false s'
            else sub_braces_from true s')
      else if Ascii.eqb c "{" && closes s'
           then sub_braces_from true s'
           else String c (sub_braces_from false s')
  end.

Definition sub_braces (forms : string) : string := sub_braces_from false forms.

(** The lemma and the word forms of one line of the database. *)
Definition parse_entry (entry : string) : result (string * list string) :=
  let entry := Py.split_sep ": " entry in
  e0 <- Py.getitem entry 0 ;;
  let key := Py.split e0 in
  forms <- Py.getitem entry 1 ;;
  (* The word lemma *)
  word <- Py.getitem key 0 ;;
  (* Ignore some of the extra markup in the forms *)
  let forms := sub_markup forms in
  let forms := Py.split (sub_braces forms) in
  Ok (word, forms).

Definition loadWordFormDict_step (form_dict : form_dict_t) (entry : string)
  : result form_dict_t :=
  '(word, forms) <- parse_entry entry ;;
  (* Save the lemma and unique forms in the form dict *)
  Ok (Py.dict_set String.eqb word (Py.set (word :: forms)) form_dict).

Fixpoint loadWordFormDict_loop (entries : list string) (form_dict : form_dict_t)
  : result form_dict_t :=
  match entries with
  | [] => Ok form_dict
  | entry :: rest =>
      form_dict' <- loadWordFormDict_step form_dict entry ;;
      loadWordFormDict_loop rest form_dict'
  end.

(** The lines of the database, [content] being what [open(path).read()]
    returns. *)
Definition entries_of (content : string) : list string :=
  Py.split_sep nl (Py.strip content).

Definition loadWordFormDict (content : string) : result form_dict_t :=
  loadWordFormDict_loop (entries_of content) [].

(** ** loadResources *)

(** The external services are handed in; [infl] is the content of the
    inflection database file. *)
Definition loadResources (lm : string -> Q)
  (nlp_text : list string -> string) (nlp_lemma : list string -> nat -> string)
  (spell : string -> bool) (suggest : string -> list string) (infl : string)
  : result Resources :=
  gb_infl <- loadWordFormDict infl ;;
  Ok {| lm_score := lm;
        doc_text := nlp_text;
        doc_lemma := nlp_lemma;
        gb_spell := spell;
        gb_suggest := suggest;
        gb_infl := gb_infl;
        det := [""; "the"; "a"; "an"];
        prep := [""; "about"; "at"; "by"; "for"; "from"; "in"; "of"; "on";
                 "to"; "with"] |}.

(** ** main *)

(** The loop [while has_errors: sent, has_errors = processSent(...)].  It has
    no bound in the program; [fuel] bounds the number of sweeps and [None]
    means that the loop was still running when the fuel ran out. *)
Fixpoint correct (fuel : nat) (sent : list string) (res : Resources)
  (args : Args) : option (result (list string)) :=
  match fuel with
  | O => None
  | S fuel' =>
      match processSent sent res args with
      | Raise e => Some (Raise e)
      | Ok (sent', true) => correct fuel' sent' res args
      | Ok (sent', false) => Some (Ok sent')
      end
  end.

(** [sent[0].upper()+sent[1:]] *)
Definition capitalize_first (sent : string) : result string :=
  match sent with
  | EmptyString => Raise IndexError
  | String c rest => Ok (Py.upper (String c EmptyString) ++ rest)%string
  end.

(** The tokens of an input line and whether the line was all upper case. *)
Definition tokenize (sent : string) : list string * bool :=
  let upper := Py.isupper sent in
  let sent := if upper then Py.lower sent else sent in
  (Py.split (Py.strip sent), upper).

(** Join the tokens back together, upper case the first character and
    restore an all upper case line. *)
Definition detokenize (sent : list string) (upper : bool) : result string :=
  let sent := Py.join " " sent in
  sent <- capitalize_first sent ;;
  let sent := if upper then Py.upper sent else sent in
  Ok (sent ++ nl)%string.

(** The body of the loop over the input lines: the string written to the
    output file for one line. *)
Definition main_line (fuel : nat) (res : Resources) (args : Args)
  (sent : string) : option (result string) :=
  let '(sent, upper) := tokenize sent in
  if negb (Py.nonempty sent) then Some (Ok nl)
  else
    match correct fuel sent res args with
    | None => None
    | Some (Raise e) => Some (Raise e)
    | Some (Ok sent) => Some (detokenize sent upper)
    end.

(** [sents] are the lines read from the input file, [out] the strings
    written to the output file so far, in order. *)
Fixpoint main_loop (fuel : nat) (res : Resources) (args : Args)
  (sents : list string) (out : list string) : option (result (list string)) :=
  match sents with
  | [] => Some (Ok out)
  | sent :: rest =>
      match main_line fuel res args sent with
      | None => None
      | Some (Raise e) => Some (Raise e)
      | Some (Ok line) => main_loop fuel res args rest (out ++ [line])
      end
  end.

Definition main (fuel : nat) (res : Resources) (args : Args)
  (sents : list string) : option (result (list string)) :=
  main_loop fuel res args sents [].

(** ** The acceptance rule, stated on its own *)

(** [cand_prob]: the language-model score of a hypothesis over its length. *)
Definition hyp_score (res : Resources) (cand_sent : list string) : Q :=
  (lm_score res (Py.join " " cand_sent)
   / inject_Z (Z.of_nat (List.length cand_sent)))%Q.

(** [orig_prob]: the language-model score of the sentence over its length. *)
Definition baseline (res : Resources) (sent : list string) : Q :=
  (lm_score res (doc_text res sent)
   / inject_Z (Z.of_nat (List.length sent)))%Q.

(** The test [cand_prob > weight*orig_prob] for a hypothesis and a weight. *)
Definition passes (res : Resources) (sent : list string) (weight : Q)
  (cand_sent : list string) : bool :=
  Py.gt (hyp_score res cand_sent) (weight * baseline res sent)%Q.

(** An item of the candidate dictionary is eligible when it passes the test
    with the weight of its edit identifier. *)
Definition eligible (res : Resources) (sent : list string)
  (item : edit * list string) : bool :=
  passes res sent (edit_weight (fst item)) (snd item).

(** The item at position [n] of [d] is eligible, no eligible item of [d]
    scores higher and no eligible item before it scores as high. *)
Definition first_best (res : Resources) (sent : list string)
  (d : cand_dict_t) (n : nat) (item : edit * list string) : Prop :=
  nth_error d n = Some item
  /\ eligible res sent item = true
  /\ forall m item', nth_error d m = Some item' ->
       eligible res sent item' = true ->
       (hyp_score res (snd item') <= hyp_score res (snd item))%Q
       /\ (m < n -> (hyp_score res (snd item') < hyp_score res (snd item))%Q).

(** What the selection loop has established after the items [pre]: either nothing was
    eligible so far, or the state holds the first best item of [pre]. *)
Definition sel_inv (res : Resources) (sent : list string)
  (pre : cand_dict_t) (best : best_t) : Prop :=
  (fst best = None /\ snd best = []
   /\ forall item, In item pre -> eligible res sent item = false)
  \/ (exists n e,
        fst best = Some (hyp_score res (snd best))
        /\ first_best res sent pre n (e, snd best)).

(** The hypothesis sentences of a sweep, in iteration order. *)
Definition hypotheses (sent : list string) (res : Resources) (args : Args)
  : list (list string) :=
  match candidates sent res args with
  | Ok d => map snd d
  | Raise _ => []
  end.

(** The eligible hypothesis sentences of a sweep, in iteration order. *)
Definition eligible_hypotheses (sent : list string) (res : Resources)
  (args : Args) : list (list string) :=
  match candidates sent res args with
  | Ok d => map snd (filter (eligible res sent) d)
  | Raise _ => []
  end.

(** The sentence with the token at position [p] replaced by [cand], or
    removed when [cand] is the empty string. *)
Definition edited (sent : list string) (p : nat) (cand : string)
  : list string :=
  firstn p sent ++ Py.flush cand ++ skipn (S p) sent.

(** A hypothesis is a non-empty list of non-empty tokens. *)
Definition sound_hyp (item : edit * list string) : Prop :=
  snd item <> [] /\ Forall (fun t => t <> "") (snd item).

(** A line of the inflection database has the separator [": "] somewhere. *)
Definition has_separator (entry : string) : Prop :=
  exists l r, entry = (l ++ ": " ++ r)%string.

(** ** A small instance of the resources *)

Module Demo.

(** A language model that prefers two sentences and otherwise charges eight
    per token. *)
Definition lm (t : string) : Q :=
  if String.eqb t "an apple" then (-10 # 1)%Q
  else if String.eqb t "she bought an apple" then (-20 # 1)%Q
  else (inject_Z (-8 * Z.of_nat (List.length (Py.split t))))%Q.

Definition res : Resources :=
  {| lm_score := lm;
     doc_text := Py.join " ";
     doc_lemma := fun sent pos => nth pos sent "";
     gb_spell := fun _ => true;
     gb_suggest := fun _ => [];
     gb_infl := [("apple", ["apple"; "apples"])];
     det := [""; "the"; "a"; "an"];
     prep := [""; "about"; "at"; "by"; "for"; "from"; "in"; "of"; "on";
              "to"; "with"] |}.

(** The same services with a scorer on a positive scale. *)
Definition lm_pos (t : string) : Q :=
  if String.eqb t "an apple" then (10 # 1)%Q
  else (inject_Z (8 * Z.of_nat (List.length (Py.split t))))%Q.

Definition res_pos : Resources :=
  {| lm_score := lm_pos;
     doc_text := doc_text res;
     doc_lemma := doc_lemma res;
     gb_spell := gb_spell res;
     gb_suggest := gb_suggest res;
     gb_infl := gb_infl res;
     det := det res;
     prep := prep res |}.

Definition args (th : Q) : Args := {| threshold := th |}.

(** An inflection database of three lines, and one with a line that has no
    separator. *)
Definition infl : string :=
  ("run V: ran running | runs" ++ nl ++ "apple N: apples" ++ nl
   ++ "be V: was, were been {being} is")%string.

Definition infl_bad : string :=
  ("run V: ran running | runs" ++ nl ++ "apple" ++ nl
   ++ "be V: was, were been {being} is")%string.

End Demo.

(** ** Notions used to describe a sweep *)

(** The sentence that [generateCands] builds for one candidate,
    [list(filter(None, new_sent))]; the empty list stands for an index out
    of range. *)
Definition hyp_of (sent : list string) (tok_id : Z) (cand : string)
  : list string :=
  match Py.setitem sent tok_id cand with
  | Ok new_sent => filter Py.truthy new_sent
  | Raise _ => []
  end.

(** The candidates that the four sources of [processSent] propose for a
    token, in the order in which the program consults them. *)
Definition proposed (res : Resources) (tok : Token) : list string :=
  (if Py.isalpha (text tok) && negb (gb_spell res (text tok))
   then gb_suggest res (text tok) else [])
  ++ (match Py.dict_get String.eqb (lemma_ tok) (gb_infl res) with
      | Some cands => cands
      | None => []
      end)
  ++ (if Py.contains (text tok) (det res) then det res else [])
  ++ (if Py.contains (text tok) (prep res) then prep res else []).

(** The dictionary holds the sentence [h] under the edit of the token
    [tok_id] by [cand]. *)
Definition has_edit (d : cand_dict_t) (tok_id : Z) (cand : string)
  (h : list string) : Prop :=
  exists e, In (e, h) d /\ edit_tok_id e = tok_id /\ edit_cand e = cand.

(** An index that a list of length [n] accepts. *)
Definition in_range (n : nat) (idx : Z) : Prop :=
  (- Z.of_nat n <= idx < Z.of_nat n)%Z.

(** An item of the candidate dictionary stems from a token: its edit names
    the position of the token, a candidate proposed for it and the weight of
    the run, and its sentence is the one built for that candidate. *)
Definition from_token (sent : list string) (res : Resources) (args : Args)
  (tok : Token) (item : edit * list string) : Prop :=
  edit_tok_id (fst item) = Z.of_nat (i tok)
  /\ In (edit_cand (fst item)) (proposed res tok)
  /\ (edit_weight (fst item) == threshold args)%Q
  /\ snd item = hyp_of sent (Z.of_nat (i tok)) (edit_cand (fst item)).

(** The sentence of an item is the one its edit identifier determines. *)
Definition consistent (sent : list string) (item : edit * list string)
  : Prop :=
  snd item = hyp_of sent (edit_tok_id (fst item)) (edit_cand (fst item)).

(** An item of the candidate dictionary stems from one of the tokens
    [toks]. *)
Definition stems (sent : list string) (res : Resources) (args : Args)
  (toks : list Token) (item : edit * list string) : Prop :=
  exists tok, In tok toks /\ from_token sent res args tok item.

(** A string holds a bracketed annotation: an opening brace with a closing
    brace somewhere after it. *)
Definition brace_pair (r : string) : Prop :=
  exists a b c, r = (a ++ "{" ++ b ++ "}" ++ c)%string.

(** No opening brace of the string is followed by a closing brace. *)
Fixpoint pair_free (r : string) : bool :=
  match r with
  | EmptyString => true
  | String c r' =>
      (if Ascii.eqb c "{"
       then negb (Py.sexists (fun x => Ascii.eqb x "}") r')
       else true)
      && pair_free r'
  end.

(** No key of the dictionary equals, as a key, one that comes after it. *)
Fixpoint keys_distinct {K V : Type} (eqb : K -> K -> bool)
  (d : list (K * V)) : Prop :=
  match d with
  | [] => True
  | (k, _) :: d' =>
      Forall (fun kv => eqb k (fst kv) = false) d' /\ keys_distinct eqb d'
  end.

(** * The program over the interpreter's floats and strings

    The definitions above compute with exact rationals and treat characters
    as ASCII.  What Python itself computes depends on the interpreter: a
    product or quotient of floats is rounded, and [isupper], [isalpha],
    [lower], [upper], [strip] and [split] go by the Unicode character
    database.  The definitions of this part take these operations from a
    record: a float is the rational it denotes (scores and threshold are
    finite, so comparisons are exact), a string stands for its UTF-8
    encoding, on which equality, concatenation and the search for ASCII
    separators are those of the text.  The definitions above are the
    instance [ideal], which agrees with the interpreter on ASCII text and
    wherever products and quotients need no rounding. *)

Record Interp : Type := {
  (** [x * y] and [x / n] on floats, [n] a positive length *)
  fl_mul : Q -> Q -> Q;
  fl_div : Q -> nat -> Q;
  (** [s.isalpha()], [s.isupper()], [s.islower()] *)
  str_isalpha : string -> bool;
  str_isupper : string -> bool;
  str_islower : string -> bool;
  (** [s.lower()], [s.upper()] *)
  str_lower : string -> string;
  str_upper : string -> string;
  (** [s.strip()], [s.split()] *)
  str_strip : string -> string;
  str_split : string -> list string;
  (** [c.isspace()] for a character [c] *)
  chr_isspace : string -> bool
}.

(** Exact arithmetic and ASCII text. *)
Definition ideal : Interp :=
  {| fl_mul := Qmult;
     fl_div := fun x n => (x / inject_Z (Z.of_nat n))%Q;
     str_isalpha := Py.isalpha;
     str_isupper := Py.isupper;
     str_islower := fun s =>
       Py.sexists Py.is_lower_char s && negb (Py.sexists Py.is_upper_char s);
     str_lower := Py.lower;
     str_upper := Py.upper;
     str_strip := Py.strip;
     str_split := Py.split;
     chr_isspace := fun c =>
       match c with
       | String a EmptyString => Py.is_space a
       | _ => false
       end |}.

(** ** Characters of a UTF-8 string *)

Module Utf8.

(** The number of bytes of the character that the byte [c] begins. *)
Definition width (c : ascii) : nat :=
  if Py.code c <? 192 then 1
  else if Py.code c <? 224 then 2
  else if Py.code c <? 240 then 3
  else 4.



(** The characters of [s] in order; [skip] counts the bytes still to come
    of the character [cur] being read. *)
Fixpoint chars_from (skip : nat) (cur : string) (s : string) : list string :=
  match s with
  | EmptyString => Py.flush cur
  | String c s' =>
      match skip with
      | S k => chars_from k (cur ++ String c EmptyString) s'
      | O => Py.flush cur ++ chars_from (width c - 1) (String c EmptyString) s'
      end
  end.

Definition chars (s : string) : list string := chars_from 0 EmptyString s.




End Utf8.

(** A blank line: every character of [s] is whitespace. *)
Definition str_blank (py : Interp) (s : string) : bool :=
  forallb (chr_isspace py) (Utf8.chars s).

(** ** The program *)

Definition div_in (py : Interp) (x : Q) (n : nat) : result Q :=
  match n with
  | O => Raise ZeroDivisionError
  | _ => Ok (fl_div py x n)
  end.

Definition collect_token_in (py : Interp) (sent : list string)
  (res : Resources) (args : Args) (cand_dict : cand_dict_t) (tok : Token)
  : result cand_dict_t :=
  let tok_i := Z.of_nat (i tok) in
  (* SPELLCHECKING *)
  cand_dict <-
    (if str_isalpha py (text tok) && negb (gb_spell res (text tok))
     then
       let cands := gb_suggest res (text tok) in
       if Py.nonempty cands
       then add_cands tok_i cands sent (threshold args) cand_dict
       else Ok cand_dict
     else Ok cand_dict) ;;
  (* MORPHOLOGY *)
  cand_dict <-
    (match Py.dict_get String.eqb (lemma_ tok) (gb_infl res) with
     | Some cands => add_cands tok_i cands sent (threshold args) cand_dict
     | None => Ok cand_dict
     end) ;;
  (* DETERMINERS *)
  cand_dict <-
    (if Py.contains (text tok) (det res)
     then add_cands tok_i (det res) sent (threshold args) cand_dict
     else Ok cand_dict) ;;
  (* PREPOSITIONS *)
  if Py.contains (text tok) (prep res)
  then add_cands tok_i (prep res) sent (threshold args) cand_dict
  else Ok cand_dict.

Fixpoint collect_in (py : Interp) (sent : list string) (res : Resources)
  (args : Args) (toks : list Token) (cand_dict : cand_dict_t)
  : result cand_dict_t :=
  match toks with
  | [] => Ok cand_dict
  | tok :: rest =>
      cand_dict' <- collect_token_in py sent res args cand_dict tok ;;
      collect_in py sent res args rest cand_dict'
  end.

Definition candidates_in (py : Interp) (sent : list string)
  (res : Resources) (args : Args) : result cand_dict_t :=
  collect_in py sent res args (processWithSpacy sent res) [].

Definition avg_prob_in (py : Interp) (res : Resources) (txt : string)
  (n : nat) : result Q :=
  div_in py (lm_score res txt) n.

Definition select_step_in (py : Interp) (res : Resources) (orig_prob : Q)
  (best : best_t) (item : edit * list string) : result best_t :=
  let '(best_prob, best_sent) := best in
  let '(edit, cand_sent) := item in
  (* Score the candidate sentence *)
  cand_prob <-
    avg_prob_in py res (Py.join " " cand_sent) (List.length cand_sent) ;;
  (* Compare cand_prob against weighted orig_prob and best_prob *)
  if Py.gt cand_prob (fl_mul py (edit_weight edit) orig_prob)
     && Py.gt_inf cand_prob best_prob
  then Ok (Some cand_prob, cand_sent)
  else Ok best.

Fixpoint select_in (py : Interp) (res : Resources) (orig_prob : Q)
  (items : cand_dict_t) (best : best_t) : result best_t :=
  match items with
  | [] => Ok best
  | item :: rest =>
      best' <- select_step_in py res orig_prob best item ;;
      select_in py res orig_prob rest best'
  end.

Definition processSent_in (py : Interp) (sent : list string)
  (res : Resources) (args : Args) : result (list string * bool) :=
  (* Process sent with spacy *)
  let proc_sent := processWithSpacy sent res in
  (* Calculate avg token prob of the sent so far. *)
  orig_prob <-
    avg_prob_in py res (doc_text res sent) (List.length proc_sent) ;;
  (* Store all the candidate corrected sentences here *)
  cand_dict <- collect_in py sent res args proc_sent [] ;;
  (* Keep track of the best sent if any *)
  '(best_prob, best_sent) <-
    select_in py res orig_prob cand_dict (None, []) ;;
  (* Return the best sentence and whether to search for more errors *)
  if Py.nonempty best_sent then Ok (best_sent, true) else Ok (sent, false).

Fixpoint correct_in (py : Interp) (fuel : nat) (sent : list string)
  (res : Resources) (args : Args) : option (result (list string)) :=
  match fuel with
  | O => None
  | S fuel' =>
      match processSent_in py sent res args with
      | Raise e => Some (Raise e)
      | Ok (sent', true) => correct_in py fuel' sent' res args
      | Ok (sent', false) => Some (Ok sent')
      end
  end.







(** ** The acceptance rule on the interpreter's floats *)

(** [cand_prob] and [orig_prob] as the program computes them. *)
Definition cand_prob (py : Interp) (res : Resources)
  (cand_sent : list string) : Q :=
  fl_div py (lm_score res (Py.join " " cand_sent)) (List.length cand_sent).

Definition orig_prob (py : Interp) (res : Resources) (sent : list string)
  : Q :=
  fl_div py (lm_score res (doc_text res sent)) (List.length sent).

(** The test [cand_prob > edit[-1]*orig_prob] of an item. *)
Definition eligible_in (py : Interp) (res : Resources) (sent : list string)
  (item : edit * list string) : bool :=
  Py.gt (cand_prob py res (snd item))
        (fl_mul py (edit_weight (fst item)) (orig_prob py res sent)).

(** The item at position [n] of [d] is eligible, no eligible item of [d]
    scores higher and no eligible item before it scores as high. *)
Definition first_best_in (py : Interp) (res : Resources)
  (sent : list string) (d : cand_dict_t) (n : nat)
  (item : edit * list string) : Prop :=
  nth_error d n = Some item
  /\ eligible_in py res sent item = true
  /\ forall m item', nth_error d m = Some item' ->
       eligible_in py res sent item' = true ->
       (cand_prob py res (snd item') <= cand_prob py res (snd item))%Q
       /\ (m < n ->
           (cand_prob py res (snd item') < cand_prob py res (snd item))%Q).

Definition sel_inv_in (py : Interp) (res : Resources) (sent : list string)
  (pre : cand_dict_t) (best : best_t) : Prop :=
  (fst best = None /\ snd best = []
   /\ forall item, In item pre -> eligible_in py res sent item = false)
  \/ (exists n e,
        fst best = Some (cand_prob py res (snd best))
        /\ first_best_in py res sent pre n (e, snd best)).

(** The candidates that the four sources propose for a token. *)
Definition proposed_in (py : Interp) (res : Resources) (tok : Token)
  : list string :=
  (if str_isalpha py (text tok) && negb (gb_spell res (text tok))
   then gb_suggest res (text tok) else [])
  ++ (match Py.dict_get String.eqb (lemma_ tok) (gb_infl res) with
      | Some cands => cands
      | None => []
      end)
  ++ (if Py.contains (text tok) (det res) then det res else [])
  ++ (if Py.contains (text tok) (prep res) then prep res else []).

Definition from_token_in (py : Interp) (sent : list string)
  (res : Resources) (args : Args) (tok : Token)
  (item : edit * list string) : Prop :=
  edit_tok_id (fst item) = Z.of_nat (i tok)
  /\ In (edit_cand (fst item)) (proposed_in py res tok)
  /\ (edit_weight (fst item) == threshold args)%Q
  /\ snd item = hyp_of sent (Z.of_nat (i tok)) (edit_cand (fst item)).

Definition stems_in (py : Interp) (sent : list string) (res : Resources)
  (args : Args) (toks : list Token) (item : edit * list string) : Prop :=
  exists tok, In tok toks /\ from_token_in py sent res args tok item.

(** ** What the theorems ask of the interpreter's strings *)

(** [split] returns no empty string. *)
Definition tokens_nonempty (py : Interp) : Prop :=
  forall s, Forall (fun t => t <> "") (str_split py s).

(** A string has no token exactly when it is blank; a blank string is not
    upper case; the lower case of an upper case string is not blank. *)
Definition blank_laws (py : Interp) : Prop :=
  (forall s, str_split py (str_strip py s) = [] <-> str_blank py s = true)
  /\ (forall s, str_blank py s = true -> str_isupper py s = false)
  /\ (forall s, str_isupper py s = true ->
                str_blank py (str_lower py s) = false).

(** ** The inflection database *)

(** The lemma and the word forms of one line of the database.  The
    separator, the markup characters, the braces and the line feed are
    ASCII, so that looking for them in the UTF-8 encoding finds what
    Python finds in the text. *)
Definition parse_entry_in (py : Interp) (entry : string)
  : result (string * list string) :=
  let entry := Py.split_sep ": " entry in
  e0 <- Py.getitem entry 0 ;;
  let key := str_split py e0 in
  forms <- Py.getitem entry 1 ;;
  (* The word lemma *)
  word <- Py.getitem key 0 ;;
  (* Ignore some of the extra markup in the forms *)
  let forms := sub_markup forms in
  let forms := str_split py (sub_braces forms) in
  Ok (word, forms).

Definition loadWordFormDict_step_in (py : Interp) (form_dict : form_dict_t)
  (entry : string) : result form_dict_t :=
  '(word, forms) <- parse_entry_in py entry ;;
  (* Save the lemma and unique forms in the form dict *)
  Ok (Py.dict_set String.eqb word (Py.set (word :: forms)) form_dict).

Fixpoint loadWordFormDict_loop_in (py : Interp) (entries : list string)
  (form_dict : form_dict_t) : result form_dict_t :=
  match entries with
  | [] => Ok form_dict
  | entry :: rest =>
      form_dict' <- loadWordFormDict_step_in py form_dict entry ;;
      loadWordFormDict_loop_in py rest form_dict'
  end.

Definition entries_of_in (py : Interp) (content : string) : list string :=
  Py.split_sep nl (str_strip py content).

Definition loadWordFormDict_in (py : Interp) (content : string)
  : result form_dict_t :=
  loadWordFormDict_loop_in py (entries_of_in py content) [].

(** ** The lines of the inflection database, described on their own *)

(** [txt] is the text of [s] up to its first separator, or all of [s] when
    it has none. *)
Definition first_field (s txt : string) : Prop :=
  (~ has_separator s /\ txt = s)
  \/ (exists more, s = (txt ++ ": " ++ more)%string /\ ~ has_separator txt).

(** [entry] is a line [lemma tag: form1 form2 ...]: [w] is the first word
    before the first separator, and [forms] are the words of the text after
    it, up to a further separator, once the markup characters and then the
    bracketed annotations are taken out. *)
Definition line_of (py : Interp) (entry w : string) (forms : list string)
  : Prop :=
  exists key rest txt ws,
    entry = (key ++ ": " ++ rest)%string
    /\ ~ has_separator key
    /\ str_split py key = w :: ws
    /\ first_field rest txt
    /\ forms = str_split py (sub_braces (sub_markup txt)).

(** A line with the separator and a word before the first one. *)
Definition well_formed_in (py : Interp) (entry : string) : Prop :=
  exists w forms, line_of py entry w forms.

(** [entry] is the last of the lines [entries] whose lemma is [w]. *)
Definition last_line_of (py : Interp) (entries : list string)
  (entry w : string) (forms : list string) : Prop :=
  exists before after,
    entries = before ++ entry :: after
    /\ line_of py entry w forms
    /\ forall entry' forms', In entry' after -> ~ line_of py entry' w forms'.

(** ** An interpreter for Latin-1 text

    The methods of [str] as CPython has them on text whose characters lie
    below U+0100, after the Unicode character database: the letters of
    Latin-1 with their case, the feminine and masculine ordinal indicators
    and the micro sign being lowercase letters, and NEL and the no-break
    space being whitespace.  Characters from U+0100 on are left alone and
    taken for symbols.  Arithmetic is exact. *)

Module Latin1.

(** The code point of a character below U+0100, from its UTF-8 bytes. *)
Definition point (c : string) : option nat :=
  match c with
  | String a EmptyString =>
      if Py.code a <? 128 then Some (Py.code a) else None
  | String a (String b EmptyString) =>
      if (128 <=? Py.code b) && (Py.code b <? 192)
      then if Py.code a =? 194 then Some (Py.code b)
           else if Py.code a =? 195 then Some (Py.code b + 64)
           else None
      else None
  | _ => None
  end.

(** The UTF-8 bytes of a code point below U+0800. *)
Definition encode (n : nat) : string :=
  if n <? 128 then String (ascii_of_nat n) EmptyString
  else String (ascii_of_nat (192 + n / 64))
         (String (ascii_of_nat (128 + n mod 64)) EmptyString).

Definition within (lo hi n : nat) : bool := (lo <=? n) && (n <=? hi).

(** [White_Space]: TAB to CR, FS to US, the space, NEL, NBSP. *)
Definition is_space_pt (n : nat) : bool :=
  within 9 13 n || within 28 32 n || (n =? 133) || (n =? 160).

(** [Lowercase]: a-z, U+00AA, U+00B5, U+00BA, U+00DF-U+00F6,
    U+00F8-U+00FF. *)
Definition is_lower_pt (n : nat) : bool :=
  within 97 122 n || (n =? 170) || (n =? 181) || (n =? 186)
  || within 223 246 n || within 248 255 n.

(** [Uppercase]: A-Z, U+00C0-U+00D6, U+00D8-U+00DE. *)
Definition is_upper_pt (n : nat) : bool :=
  within 65 90 n || within 192 214 n || within 216 222 n.

(** The upper case of a character: U+00DF gives [SS], U+00FF gives U+0178,
    U+00B5 gives U+039C, the ordinal indicators have none. *)
Definition upper_pt (n : nat) : string :=
  if within 97 122 n || within 224 246 n || within 248 254 n
  then encode (n - 32)
  else if n =? 223 then "SS"
  else if n =? 255 then encode 376
  else if n =? 181 then encode 924
  else encode n.

Definition lower_pt (n : nat) : string :=
  if is_upper_pt n then encode (n + 32) else encode n.

Definition is_space (c : string) : bool :=
  match point c with Some n => is_space_pt n | None => false end.

Definition is_lower (c : string) : bool :=
  match point c with Some n => is_lower_pt n | None => false end.

Definition is_upper (c : string) : bool :=
  match point c with Some n => is_upper_pt n | None => false end.

Definition upper_char (c : string) : string :=
  match point c with Some n => upper_pt n | None => c end.

Definition lower_char (c : string) : string :=
  match point c with Some n => lower_pt n | None => c end.

Definition upper (s : string) : string :=
  String.concat "" (map upper_char (Utf8.chars s)).

Definition lower (s : string) : string :=
  String.concat "" (map lower_char (Utf8.chars s)).

(** All cased characters are upper case and there is one at least. *)
Definition isupper (s : string) : bool :=
  existsb is_upper (Utf8.chars s) && negb (existsb is_lower (Utf8.chars s)).


Definition isalpha (s : string) : bool :=
  Py.nonempty (Utf8.chars s)
  && forallb (fun c => is_lower c || is_upper c) (Utf8.chars s).

Fixpoint lstrip (l : list string) : list string :=
  match l with
  | [] => []
  | c :: l' => if is_space c then lstrip l' else l
  end.

Definition strip_chars (l : list string) : list string :=
  rev (lstrip (rev (lstrip l))).

Definition strip (s : string) : string :=
  String.concat "" (strip_chars (Utf8.chars s)).

Fixpoint split_chars (cur : string) (l : list string) : list string :=
  match l with
  | [] => Py.flush cur
  | c :: l' =>
      if is_space c then Py.flush cur ++ split_chars EmptyString l'
      else split_chars (cur ++ c) l'
  end.

Definition split (s : string) : list string :=
  split_chars EmptyString (Utf8.chars s).


End Latin1.

(** * Properties *)

(** ** The error monad *)

Lemma bind_Ok {A B : Type} (c : result A) (k : A -> result B) (b : B) :
  bind c k = Ok b -> exists a, c = Ok a /\ k a = Ok b.
Proof.
  destruct c as [a|e]; simpl; intros H.
  - exists a. split; [reflexivity | exact H].
  - discriminate H.
Qed.

Ltac bind_inv H :=
  let a := fresh "a" in
  let Ha := fresh "Ha" in
  apply bind_Ok in H; destruct H as [a [Ha H]].

(** ** Dictionaries *)

Section DictFacts.
Context {K V : Type} (eqb : K -> K -> bool).

Lemma dict_set_Forall (P : K * V -> Prop) k v d :
  Forall P d ->
  P (k, v) ->
  (forall k', eqb k' k = true -> P (k', v)) ->
  Forall P (Py.dict_set eqb k v d).
Proof.
  intros Hd Hk Hrep.
  induction Hd as [|[k' v'] d' Hx Hd' IH]; simpl.
  - constructor; [exact Hk | constructor].
  - destruct (eqb k' k) eqn:E.
    + constructor; [apply Hrep; exact E | exact Hd'].
    + constructor; [exact Hx | exact IH].
Qed.

Lemma dict_update_Forall (P : K * V -> Prop) d d2 :
  Forall P d ->
  Forall P d2 ->
  (forall k k' v, P (k, v) -> eqb k' k = true -> P (k', v)) ->
  Forall P (Py.dict_update eqb d d2).
Proof.
  unfold Py.dict_update.
  intros Hd Hd2 Hrep. revert d Hd.
  induction Hd2 as [|[k v] d2' Hx Hd2' IH]; intros d Hd; simpl.
  - exact Hd.
  - apply IH. apply dict_set_Forall; auto.
    intros k' E. exact (Hrep k k' v Hx E).
Qed.

End DictFacts.

Lemma edit_eqb_refl (e : edit) : edit_eqb e e = true.
Proof.
  unfold edit_eqb.
  rewrite Z.eqb_refl, String.eqb_refl, Qeq_bool_refl. reflexivity.
Qed.

Lemma edit_eqb_fields (a b : edit) :
  edit_eqb a b = true ->
  edit_tok_id a = edit_tok_id b /\ edit_cand a = edit_cand b
  /\ (edit_weight a == edit_weight b)%Q.
Proof.
  unfold edit_eqb. intros H.
  apply andb_prop in H. destruct H as [H Hw].
  apply andb_prop in H. destruct H as [Ht Hc].
  split; [apply Z.eqb_eq; exact Ht|].
  split; [apply String.eqb_eq; exact Hc|].
  apply Qeq_bool_iff. exact Hw.
Qed.

(** ** Lists *)

Lemma truthy_iff (s : string) : Py.truthy s = true <-> s <> "".
Proof.
  destruct s; simpl; split; intros H; congruence.
Qed.

Lemma nonempty_iff {A : Type} (l : list A) : Py.nonempty l = true <-> l <> [].
Proof.
  destruct l; simpl; split; intros H; congruence.
Qed.

Lemma index_bound (n : nat) (idx : Z) (p : nat) :
  Py.index n idx = Ok p -> p < n.
Proof.
  unfold Py.index.
  destruct ((0 <=? idx) && (idx <? Z.of_nat n))%Z eqn:E1.
  - intros H. inversion H; subst. apply andb_prop in E1. lia.
  - destruct ((idx <? 0) && (- Z.of_nat n <=? idx))%Z eqn:E2.
    + intros H. inversion H; subst. apply andb_prop in E2. lia.
    + discriminate.
Qed.

Lemma index_nonneg (n : nat) (idx : Z) (p : nat) :
  Py.index n idx = Ok p -> (0 <= idx)%Z -> p = Z.to_nat idx.
Proof.
  unfold Py.index.
  destruct ((0 <=? idx) && (idx <? Z.of_nat n))%Z eqn:E1.
  - intros H _. inversion H; reflexivity.
  - destruct ((idx <? 0) && (- Z.of_nat n <=? idx))%Z eqn:E2.
    + intros _ Hpos. apply andb_prop in E2. lia.
    + discriminate.
Qed.

Lemma index_of_nat (n p : nat) :
  p < n -> Py.index n (Z.of_nat p) = Ok p.
Proof.
  intros H. unfold Py.index.
  replace ((0 <=? Z.of_nat p) && (Z.of_nat p <? Z.of_nat n))%Z with true.
  - rewrite Nat2Z.id. reflexivity.
  - symmetry. apply andb_true_intro. split; lia.
Qed.

Lemma set_nth_split {A : Type} (l : list A) (p : nat) (v : A) :
  p < List.length l ->
  Py.set_nth l p v = firstn p l ++ v :: skipn (S p) l.
Proof.
  revert p. induction l as [|h t IH]; intros p Hp; simpl in Hp.
  - lia.
  - destruct p as [|p']; simpl.
    + reflexivity.
    + f_equal. apply IH. lia.
Qed.

Lemma filter_id {A : Type} (f : A -> bool) (l : list A) :
  Forall (fun x => f x = true) l -> filter f l = l.
Proof.
  induction 1 as [|x l Hx Hl IH]; simpl.
  - reflexivity.
  - rewrite Hx, IH. reflexivity.
Qed.

Lemma Forall_firstn {A : Type} (P : A -> Prop) (n : nat) (l : list A) :
  Forall P l -> Forall P (firstn n l).
Proof.
  intros H. revert n.
  induction H as [|x l Hx Hl IH]; intros [|n]; simpl; constructor; auto.
Qed.

Lemma Forall_skipn {A : Type} (P : A -> Prop) (n : nat) (l : list A) :
  Forall P l -> Forall P (skipn n l).
Proof.
  intros H. revert n.
  induction H as [|x l Hx Hl IH]; intros [|n]; simpl; auto.
Qed.

Lemma filter_truthy_flush (cand : string) :
  filter Py.truthy [cand] = Py.flush cand.
Proof.
  destruct cand; reflexivity.
Qed.

(** What [generateCands] computes for one candidate: the edited sentence. *)
Lemma setitem_filter (sent : list string) (tok_id : Z) (cand : string)
  (new_sent : list string) :
  Forall (fun t => t <> "") sent ->
  Py.setitem sent tok_id cand = Ok new_sent ->
  exists p, Py.index (List.length sent) tok_id = Ok p
            /\ filter Py.truthy new_sent = edited sent p cand.
Proof.
  intros Hsent H. unfold Py.setitem in H. bind_inv H.
  inversion H; subst new_sent; clear H.
  exists a. split; [exact Ha|].
  rewrite set_nth_split by (eapply index_bound; exact Ha).
  assert (Ht : Forall (fun x => Py.truthy x = true) sent).
  { eapply Forall_impl; [|exact Hsent]. intros t. apply truthy_iff. }
  unfold edited.
  rewrite filter_app.
  change (cand :: skipn (S a) sent) with ([cand] ++ skipn (S a) sent).
  rewrite filter_app, filter_truthy_flush.
  rewrite (filter_id _ (firstn a sent)) by (apply Forall_firstn; exact Ht).
  rewrite (filter_id _ (skipn (S a) sent)) by (apply Forall_skipn; exact Ht).
  reflexivity.
Qed.

(** ** generateCands *)

(** A property of dictionary items that every recorded pair enjoys holds
    throughout the dictionary that the loop returns. *)
Lemma generateCands_loop_Forall (P : edit * list string -> Prop)
  (tok_id : Z) (sent : list string) (weight : Q) (cands : list string) :
  (forall cand new_sent k',
      In cand cands ->
      Py.setitem sent tok_id cand = Ok new_sent ->
      filter Py.truthy new_sent <> [] ->
      edit_eqb k' ((tok_id, cand), weight) = true ->
      P (k', filter Py.truthy new_sent)) ->
  forall d0 d,
    Forall P d0 ->
    generateCands_loop tok_id cands sent weight d0 = Ok d ->
    Forall P d.
Proof.
  induction cands as [|cand rest IH]; intros Hnew d0 d Hd0 H; simpl in H.
  - inversion H; subst. exact Hd0.
  - bind_inv H.
    apply (IH (fun c ns k' Hin => Hnew c ns k' (or_intror Hin)) a d); auto.
    unfold generateCands_step in Ha. bind_inv Ha.
    destruct (Py.nonempty (filter Py.truthy a0)) eqn:E;
      inversion Ha; subst; clear Ha; [|exact Hd0].
    apply nonempty_iff in E.
    apply dict_set_Forall; [exact Hd0 | |].
    + apply (Hnew cand a0); auto.
      * left; reflexivity.
      * apply edit_eqb_refl.
    + intros k' Hk. apply (Hnew cand a0); auto. left; reflexivity.
Qed.

Lemma generateCands_Forall (P : edit * list string -> Prop)
  (tok_id : Z) (sent : list string) (weight : Q) (cands : list string)
  (d : cand_dict_t) :
  (forall cand new_sent k',
      In cand cands ->
      Py.setitem sent tok_id cand = Ok new_sent ->
      filter Py.truthy new_sent <> [] ->
      edit_eqb k' ((tok_id, cand), weight) = true ->
      P (k', filter Py.truthy new_sent)) ->
  generateCands tok_id cands sent weight = Ok d ->
  Forall P d.
Proof.
  intros Hnew H.
  apply (generateCands_loop_Forall P tok_id sent weight cands Hnew [] d);
    [constructor | exact H].
Qed.

Lemma filter_truthy_tokens (l : list string) :
  Forall (fun t => t <> "") (filter Py.truthy l).
Proof.
  apply Forall_forall. intros t Ht.
  apply filter_In in Ht. apply truthy_iff. apply Ht.
Qed.

Lemma generateCands_sound (tok_id : Z) (cands sent : list string)
  (weight : Q) (d : cand_dict_t) :
  generateCands tok_id cands sent weight = Ok d -> Forall sound_hyp d.
Proof.
  apply generateCands_Forall.
  intros cand new_sent k' _ _ Hne _.
  split; simpl; [exact Hne | apply filter_truthy_tokens].
Qed.

(** An index within the sentence never makes [generateCands] raise. *)
Lemma generateCands_loop_total (tok_id : Z) (sent : list string) (weight : Q)
  (p : nat) (cands : list string) :
  Py.index (List.length sent) tok_id = Ok p ->
  forall d0, exists d, generateCands_loop tok_id cands sent weight d0 = Ok d.
Proof.
  intros Hp.
  induction cands as [|cand rest IH]; intros d0; simpl.
  - exists d0. reflexivity.
  - unfold generateCands_step, Py.setitem. rewrite Hp. simpl.
    destruct (Py.nonempty (filter Py.truthy (Py.set_nth sent p cand)));
      simpl; apply IH.
Qed.

Lemma generateCands_total (pos : nat) (sent cands : list string) (weight : Q) :
  pos < List.length sent ->
  exists d, generateCands (Z.of_nat pos) cands sent weight = Ok d.
Proof.
  intros H. unfold generateCands.
  apply (generateCands_loop_total _ _ _ pos). apply index_of_nat. exact H.
Qed.

(** ** The candidates of a sweep *)

Lemma add_cands_Forall (P : edit * list string -> Prop)
  (sent : list string) (tok_id : Z) (cands : list string) (weight : Q)
  (cand_dict d : cand_dict_t) :
  (forall k k' v, P (k, v) -> edit_eqb k' k = true -> P (k', v)) ->
  (forall d', generateCands tok_id cands sent weight = Ok d' -> Forall P d') ->
  Forall P cand_dict ->
  add_cands tok_id cands sent weight cand_dict = Ok d ->
  Forall P d.
Proof.
  intros Hkey Hgen Hcd H. unfold add_cands in H. bind_inv H.
  inversion H; subst.
  apply dict_update_Forall; auto.
Qed.

Lemma collect_token_Forall (P : edit * list string -> Prop)
  (sent : list string) (res : Resources) (args : Args) (tok : Token)
  (cand_dict d : cand_dict_t) :
  (forall k k' v, P (k, v) -> edit_eqb k' k = true -> P (k', v)) ->
  (forall tok_id cands d',
      generateCands tok_id cands sent (threshold args) = Ok d' ->
      Forall P d') ->
  Forall P cand_dict ->
  collect_token sent res args cand_dict tok = Ok d ->
  Forall P d.
Proof.
  intros Hkey Hgen Hcd H. unfold collect_token in H.
  bind_inv H. bind_inv H. bind_inv H.
  assert (H0 : Forall P a).
  { destruct (Py.isalpha (text tok) && negb (gb_spell res (text tok))).
    - destruct (Py.nonempty (gb_suggest res (text tok))).
      + eapply add_cands_Forall; eauto.
      + inversion Ha; subst; exact Hcd.
    - inversion Ha; subst; exact Hcd. }
  assert (H1 : Forall P a0).
  { destruct (Py.dict_get String.eqb (lemma_ tok) (gb_infl res)).
    - eapply add_cands_Forall; eauto.
    - inversion Ha0; subst; exact H0. }
  assert (H2 : Forall P a1).
  { destruct (Py.contains (text tok) (det res)).
    - eapply add_cands_Forall; eauto.
    - inversion Ha1; subst; exact H1. }
  destruct (Py.contains (text tok) (prep res)).
  - eapply add_cands_Forall; eauto.
  - inversion H; subst; exact H2.
Qed.

Lemma collect_Forall (P : edit * list string -> Prop)
  (sent : list string) (res : Resources) (args : Args) (toks : list Token) :
  (forall k k' v, P (k, v) -> edit_eqb k' k = true -> P (k', v)) ->
  (forall tok_id cands d',
      generateCands tok_id cands sent (threshold args) = Ok d' ->
      Forall P d') ->
  forall cand_dict d,
    Forall P cand_dict ->
    collect sent res args toks cand_dict = Ok d ->
    Forall P d.
Proof.
  intros Hkey Hgen.
  induction toks as [|tok rest IH]; intros cand_dict d Hcd H; simpl in H.
  - inversion H; subst. exact Hcd.
  - bind_inv H. apply (IH a d); [|exact H].
    eapply collect_token_Forall; eauto.
Qed.

Lemma candidates_sound (sent : list string) (res : Resources) (args : Args)
  (d : cand_dict_t) :
  candidates sent res args = Ok d -> Forall sound_hyp d.
Proof.
  unfold candidates. intros H.
  eapply collect_Forall; [| |constructor|exact H].
  - intros k k' v Hs _. exact Hs.
  - intros tok_id cands d'. apply generateCands_sound.
Qed.

Lemma tokens_from_bound (sent : list string)
  (lemma : list string -> nat -> string) (rest : list string) :
  forall pos,
    pos + List.length rest <= List.length sent ->
    Forall (fun tok => i tok < List.length sent)
           (tokens_from sent pos rest lemma).
Proof.
  induction rest as [|w rest IH]; intros pos H; simpl in *.
  - constructor.
  - constructor; [simpl; lia | apply IH; lia].
Qed.

Lemma tokens_from_length (sent : list string)
  (lemma : list string -> nat -> string) (rest : list string) (pos : nat) :
  List.length (tokens_from sent pos rest lemma) = List.length rest.
Proof.
  revert pos. induction rest as [|w rest IH]; intros pos; simpl.
  - reflexivity.
  - rewrite IH. reflexivity.
Qed.

Lemma processWithSpacy_length (sent : list string) (res : Resources) :
  List.length (processWithSpacy sent res) = List.length sent.
Proof.
  apply tokens_from_length.
Qed.

Lemma add_cands_total (sent : list string) (pos : nat) (cands : list string)
  (weight : Q) (cand_dict : cand_dict_t) :
  pos < List.length sent ->
  exists d, add_cands (Z.of_nat pos) cands sent weight cand_dict = Ok d.
Proof.
  intros H. unfold add_cands.
  destruct (generateCands_total pos sent cands weight H) as [d' Hd'].
  rewrite Hd'. simpl. eexists. reflexivity.
Qed.

Lemma collect_token_total (sent : list string) (res : Resources)
  (args : Args) (tok : Token) (cand_dict : cand_dict_t) :
  i tok < List.length sent ->
  exists d, collect_token sent res args cand_dict tok = Ok d.
Proof.
  intros H. unfold collect_token. cbv zeta.
  assert (Hadd : forall cands cd,
             exists d, add_cands (Z.of_nat (i tok)) cands sent
                         (threshold args) cd = Ok d).
  { intros cands cd. apply add_cands_total. exact H. }
  assert (H0 : exists a,
    (if Py.isalpha (text tok) && negb (gb_spell res (text tok))
     then
       if Py.nonempty (gb_suggest res (text tok))
       then add_cands (Z.of_nat (i tok)) (gb_suggest res (text tok)) sent
              (threshold args) cand_dict
       else Ok cand_dict
     else Ok cand_dict) = Ok a).
  { destruct (Py.isalpha (text tok) && negb (gb_spell res (text tok)));
      [|eexists; reflexivity].
    destruct (Py.nonempty (gb_suggest res (text tok)));
      [apply Hadd|eexists; reflexivity]. }
  destruct H0 as [a0 ->]. simpl.
  assert (H1 : exists a,
    (match Py.dict_get String.eqb (lemma_ tok) (gb_infl res) with
     | Some cands =>
         add_cands (Z.of_nat (i tok)) cands sent (threshold args) a0
     | None => Ok a0
     end) = Ok a).
  { destruct (Py.dict_get String.eqb (lemma_ tok) (gb_infl res));
      [apply Hadd|eexists; reflexivity]. }
  destruct H1 as [a1 ->]. simpl.
  assert (H2 : exists a,
    (if Py.contains (text tok) (det res)
     then add_cands (Z.of_nat (i tok)) (det res) sent (threshold args) a1
     else Ok a1) = Ok a).
  { destruct (Py.contains (text tok) (det res));
      [apply Hadd|eexists; reflexivity]. }
  destruct H2 as [a2 ->]. simpl.
  destruct (Py.contains (text tok) (prep res));
    [apply Hadd|eexists; reflexivity].
Qed.

Lemma collect_total (sent : list string) (res : Resources) (args : Args)
  (toks : list Token) :
  Forall (fun tok => i tok < List.length sent) toks ->
  forall cand_dict, exists d, collect sent res args toks cand_dict = Ok d.
Proof.
  induction 1 as [|tok rest Htok Hrest IH]; intros cand_dict; simpl.
  - exists cand_dict. reflexivity.
  - destruct (collect_token_total sent res args tok cand_dict Htok)
      as [d' ->].
    simpl. apply IH.
Qed.

(** Collecting the candidates of a sweep never raises. *)
Lemma candidates_total (sent : list string) (res : Resources) (args : Args) :
  exists d, candidates sent res args = Ok d.
Proof.
  unfold candidates, processWithSpacy.
  apply collect_total. apply tokens_from_bound. simpl. lia.
Qed.

(** ** The shape of an edited sentence *)

Section Edited.
Variables (sent : list string) (p : nat) (cand : string).
Hypothesis Hp : p < List.length sent.

Lemma edited_before (j : nat) :
  j < p -> nth_error (edited sent p cand) j = nth_error sent j.
Proof.
  intros Hj. unfold edited.
  rewrite nth_error_app1 by (rewrite length_firstn; lia).
  rewrite nth_error_firstn.
  destruct (Nat.ltb_spec j p); [reflexivity | lia].
Qed.

Lemma edited_subst_length :
  cand <> "" -> List.length (edited sent p cand) = List.length sent.
Proof.
  intros Hc. unfold edited. destruct cand as [|c s]; [congruence|].
  simpl Py.flush. rewrite !length_app, length_firstn, length_skipn.
  simpl. lia.
Qed.

Lemma edited_subst_at :
  cand <> "" -> nth_error (edited sent p cand) p = Some cand.
Proof.
  intros Hc. unfold edited. destruct cand as [|c s]; [congruence|].
  simpl Py.flush.
  rewrite nth_error_app2 by (rewrite length_firstn; lia).
  rewrite length_firstn.
  replace (p - Nat.min p (List.length sent)) with 0 by lia.
  reflexivity.
Qed.

Lemma edited_subst_after (j : nat) :
  cand <> "" -> p < j ->
  nth_error (edited sent p cand) j = nth_error sent j.
Proof.
  intros Hc Hj. unfold edited. destruct cand as [|c s]; [congruence|].
  simpl Py.flush.
  rewrite nth_error_app2 by (rewrite length_firstn; lia).
  rewrite length_firstn.
  replace (j - Nat.min p (List.length sent)) with (S (j - p - 1)) by lia.
  cbn [app nth_error]. rewrite nth_error_skipn. f_equal. lia.
Qed.

Lemma edited_delete_length :
  cand = "" -> List.length (edited sent p cand) = List.length sent - 1.
Proof.
  intros Hc. unfold edited. rewrite Hc. simpl Py.flush.
  rewrite !length_app, length_firstn, length_skipn. simpl. lia.
Qed.

Lemma edited_delete_after (j : nat) :
  cand = "" -> p <= j ->
  nth_error (edited sent p cand) j = nth_error sent (S j).
Proof.
  intros Hc Hj. unfold edited. rewrite Hc. simpl Py.flush.
  cbn [app].
  rewrite nth_error_app2 by (rewrite length_firstn; lia).
  rewrite length_firstn, nth_error_skipn. f_equal. lia.
Qed.

End Edited.

(** C4: [generateCands] never records an empty token list, so no hypothesis
    of any sweep is empty, and the deletion of the only token of a sentence
    yields no hypothesis at all. *)
Theorem generateCands_never_empty :
  (forall tok_id cands sent weight d e h,
      generateCands tok_id cands sent weight = Ok d ->
      In (e, h) d -> h <> [])
  /\ (forall sent res args d e h,
      candidates sent res args = Ok d ->
      In (e, h) d -> h <> [])
  /\ (forall tok_id t weight d,
      generateCands tok_id [""] [t] weight = Ok d -> d = []).
Proof.
  split; [|split].
  - intros tok_id cands sent weight d e h Hd Hin.
    apply generateCands_sound in Hd. rewrite Forall_forall in Hd.
    apply (Hd (e, h) Hin).
  - intros sent res args d e h Hd Hin.
    apply candidates_sound in Hd. rewrite Forall_forall in Hd.
    apply (Hd (e, h) Hin).
  - intros tok_id t weight d H.
    unfold generateCands in H. simpl in H.
    unfold generateCands_step, Py.setitem in H.
    destruct (Py.index (List.length [t]) tok_id) as [p|e] eqn:E;
      simpl in H; [|discriminate H].
    apply index_bound in E. simpl in E.
    destruct p as [|p']; [|lia].
    simpl in H. inversion H. reflexivity.
Qed.

Lemma generateCands_never_empty_witness :
  generateCands 0 [""; "the"] ["a"] (3 # 4)
  = Ok [(((0%Z, "the"), (3 # 4)%Q), ["the"])]
  /\ In (((0%Z, "the"), (3 # 4)%Q), ["the"])
        [(((0%Z, "the"), (3 # 4)%Q), ["the"])]
  /\ ["the"] <> ([] : list string).
Proof.
  split; [reflexivity|]. split; [left; reflexivity|].
  apply (proj1 generateCands_never_empty 0%Z [""; "the"] ["a"] (3 # 4)%Q
           [(((0%Z, "the"), (3 # 4)%Q), ["the"])]
           ((0%Z, "the"), (3 # 4)%Q) ["the"]).
  - reflexivity.
  - left; reflexivity.
Defined.

(** C10: on a sentence of non-empty tokens, every hypothesis that
    [generateCands] produces is the sentence edited at the position that
    [tok_id] denotes and nowhere else: the tokens before and after keep their
    order, a non-empty candidate takes the place of the token and keeps the
    length, and the empty candidate removes the token and shortens the
    sentence by one. *)
Theorem generateCands_edits_one_position
  (tok_id : Z) (cands sent : list string) (weight : Q) (d : cand_dict_t)
  (e : edit) (h : list string) :
  Forall (fun t => t <> "") sent ->
  generateCands tok_id cands sent weight = Ok d ->
  In (e, h) d ->
  exists p,
    Py.index (List.length sent) tok_id = Ok p
    /\ ((0 <= tok_id)%Z -> p = Z.to_nat tok_id)
    /\ p < List.length sent
    /\ edit_tok_id e = tok_id
    /\ In (edit_cand e) cands
    /\ h = edited sent p (edit_cand e)
    /\ (forall j, j < p -> nth_error h j = nth_error sent j)
    /\ (edit_cand e <> "" ->
        List.length h = List.length sent
        /\ nth_error h p = Some (edit_cand e)
        /\ forall j, p < j -> nth_error h j = nth_error sent j)
    /\ (edit_cand e = "" ->
        List.length h = List.length sent - 1
        /\ forall j, p <= j -> nth_error h j = nth_error sent (S j)).
Proof.
  intros Hsent Hd Hin.
  assert (Hall : Forall (fun item =>
            edit_tok_id (fst item) = tok_id
            /\ In (edit_cand (fst item)) cands
            /\ exists p, Py.index (List.length sent) tok_id = Ok p
                         /\ snd item = edited sent p (edit_cand (fst item))) d).
  { apply (generateCands_Forall _ tok_id sent weight cands d); [|exact Hd].
    intros cand new_sent k' Hc Hset _ Hk.
    apply edit_eqb_fields in Hk. destruct Hk as [Ht [Hcd _]]. simpl in *.
    unfold edit_tok_id, edit_cand in *. simpl in *.
    rewrite Ht, Hcd. split; [reflexivity|]. split; [exact Hc|].
    destruct (setitem_filter sent tok_id cand new_sent Hsent Hset)
      as [p [Hp Hf]].
    exists p. split; [exact Hp | exact Hf]. }
  rewrite Forall_forall in Hall.
  destruct (Hall (e, h) Hin) as [Ht [Hc [p [Hp Hh]]]]. simpl in *.
  assert (Hlt : p < List.length sent) by (eapply index_bound; exact Hp).
  exists p. split; [exact Hp|].
  split; [intros Hpos; eapply index_nonneg; eauto|].
  split; [exact Hlt|]. split; [exact Ht|]. split; [exact Hc|].
  split; [exact Hh|]. rewrite Hh.
  split; [intros j Hj; apply edited_before; assumption|].
  split.
  - intros Hne. split; [apply edited_subst_length; assumption|].
    split; [apply edited_subst_at; assumption|].
    intros j Hj. apply edited_subst_after; assumption.
  - intros He. split; [apply edited_delete_length; assumption|].
    intros j Hj. apply edited_delete_after; assumption.
Qed.

Lemma generateCands_edits_one_position_witness :
  Forall (fun t => t <> "") ["x"; "a"; "y"]
  /\ generateCands 1 [""; "the"] ["x"; "a"; "y"] (3 # 4)
     = Ok [(((1%Z, ""), (3 # 4)%Q), ["x"; "y"]);
           (((1%Z, "the"), (3 # 4)%Q), ["x"; "the"; "y"])]
  /\ exists p, Py.index 3 1 = Ok p
               /\ ["x"; "the"; "y"] = edited ["x"; "a"; "y"] p "the".
Proof.
  assert (Hs : Forall (fun t : string => t <> "") ["x"; "a"; "y"]).
  { repeat constructor; discriminate. }
  split; [exact Hs|]. split; [reflexivity|].
  destruct (generateCands_edits_one_position 1%Z [""; "the"] ["x"; "a"; "y"]
              (3 # 4)%Q
              [(((1%Z, ""), (3 # 4)%Q), ["x"; "y"]);
               (((1%Z, "the"), (3 # 4)%Q), ["x"; "the"; "y"])]
              ((1%Z, "the"), (3 # 4)%Q) ["x"; "the"; "y"]
              Hs eq_refl (or_intror (or_introl eq_refl)))
    as [p [Hp [_ [_ [_ [_ [Hh _]]]]]]].
  exists p. split; [exact Hp | exact Hh].
Defined.

(** ** The selection loop *)

Lemma gt_iff (a b : Q) : Py.gt a b = true <-> (b < a)%Q.
Proof.
  unfold Py.gt. rewrite negb_true_iff.
  split; intros H.
  - apply Qnot_le_lt. intros Hle. apply Qle_bool_iff in Hle. congruence.
  - destruct (Qle_bool a b) eqn:E; [|reflexivity].
    apply Qle_bool_iff in E. exfalso. apply (Qlt_not_le _ _ H). exact E.
Qed.

Lemma gt_false_iff (a b : Q) : Py.gt a b = false <-> (a <= b)%Q.
Proof.
  unfold Py.gt. rewrite negb_false_iff. apply Qle_bool_iff.
Qed.

Lemma eligible_iff (res : Resources) (sent : list string)
  (item : edit * list string) :
  eligible res sent item = true
  <-> (edit_weight (fst item) * baseline res sent < hyp_score res (snd item))%Q.
Proof.
  unfold eligible, passes. apply gt_iff.
Qed.

Lemma avg_prob_hyp (res : Resources) (h : list string) :
  h <> [] ->
  avg_prob res (Py.join " " h) (List.length h) = Ok (hyp_score res h).
Proof.
  intros Hh. destruct h as [|t h']; [congruence|]. reflexivity.
Qed.

Lemma avg_prob_baseline (res : Resources) (sent : list string) :
  sent <> [] ->
  avg_prob res (doc_text res sent) (List.length (processWithSpacy sent res))
  = Ok (baseline res sent).
Proof.
  intros Hs. rewrite processWithSpacy_length.
  destruct sent as [|t s']; [congruence|]. reflexivity.
Qed.

Lemma select_step_eq (res : Resources) (sent : list string) (best : best_t)
  (e : edit) (h : list string) :
  h <> [] ->
  select_step res (baseline res sent) best (e, h)
  = Ok (if eligible res sent (e, h) && Py.gt_inf (hyp_score res h) (fst best)
        then (Some (hyp_score res h), h)
        else best).
Proof.
  intros Hh. unfold select_step. destruct best as [bp bs].
  rewrite avg_prob_hyp by exact Hh. unfold eligible, passes. simpl.
  destruct (Py.gt (hyp_score res h) (edit_weight e * baseline res sent)
            && Py.gt_inf (hyp_score res h) bp); reflexivity.
Qed.

Section Selection.
Variables (res : Resources) (sent : list string).

Lemma sel_inv_step (pre : cand_dict_t) (best : best_t)
  (e : edit) (h : list string) :
  sel_inv res sent pre best ->
  sel_inv res sent (pre ++ [(e, h)])
    (if eligible res sent (e, h) && Py.gt_inf (hyp_score res h) (fst best)
     then (Some (hyp_score res h), h)
     else best).
Proof.
  intros [[Hbp [Hbs Hnone]] | [n [e0 [Hbp [Hnth [Hel Hmax]]]]]].
  - rewrite Hbp. simpl Py.gt_inf. rewrite andb_true_r.
    destruct (eligible res sent (e, h)) eqn:E.
    + right. exists (List.length pre), e. simpl.
      split; [reflexivity|]. split; [|split; [exact E|]].
      * rewrite nth_error_app2 by lia. rewrite Nat.sub_diag. reflexivity.
      * intros m item' Hm Hel'.
        destruct (Nat.lt_ge_cases m (List.length pre)) as [Hlt|Hge].
        -- rewrite nth_error_app1 in Hm by exact Hlt.
           apply nth_error_In in Hm. rewrite (Hnone _ Hm) in Hel'.
           discriminate.
        -- rewrite nth_error_app2 in Hm by exact Hge.
           destruct (m - List.length pre) as [|k] eqn:Ek.
           ++ simpl in Hm. inversion Hm; subst item'. simpl.
              split; [apply Qle_refl | intros; lia].
           ++ simpl in Hm. destruct k; discriminate.
    + left. split; [exact Hbp|]. split; [exact Hbs|].
      intros item Hin. apply in_app_or in Hin.
      destruct Hin as [Hin|[Hin|[]]]; [auto | subst; exact E].
  - rewrite Hbp. simpl Py.gt_inf.
    assert (Hn : n < List.length pre).
    { apply nth_error_Some. rewrite Hnth. discriminate. }
    destruct (eligible res sent (e, h) && Py.gt (hyp_score res h)
                (hyp_score res (snd best))) eqn:E.
    + apply andb_prop in E. destruct E as [E Hgt]. apply gt_iff in Hgt.
      right. exists (List.length pre), e. simpl.
      split; [reflexivity|]. split; [|split; [exact E|]].
      * rewrite nth_error_app2 by lia. rewrite Nat.sub_diag. reflexivity.
      * intros m item' Hm Hel'.
        destruct (Nat.lt_ge_cases m (List.length pre)) as [Hlt|Hge].
        -- rewrite nth_error_app1 in Hm by exact Hlt.
           destruct (Hmax m item' Hm Hel') as [Hle _]. simpl in Hle.
           split; [apply Qlt_le_weak|intros _];
             eapply Qle_lt_trans; eauto.
        -- rewrite nth_error_app2 in Hm by exact Hge.
           destruct (m - List.length pre) as [|k] eqn:Ek.
           ++ simpl in Hm. inversion Hm; subst item'. simpl.
              split; [apply Qle_refl | intros; lia].
           ++ simpl in Hm. destruct k; discriminate.
    + right. exists n, e0. split; [exact Hbp|].
      split; [|split; [exact Hel|]].
      * rewrite nth_error_app1 by exact Hn. exact Hnth.
      * intros m item' Hm Hel'.
        destruct (Nat.lt_ge_cases m (List.length pre)) as [Hlt|Hge].
        -- rewrite nth_error_app1 in Hm by exact Hlt.
           exact (Hmax m item' Hm Hel').
        -- rewrite nth_error_app2 in Hm by exact Hge.
           destruct (m - List.length pre) as [|k] eqn:Ek.
           ++ simpl in Hm. inversion Hm; subst item'. simpl.
              simpl in Hel'. rewrite Hel' in E. simpl in E.
              apply gt_false_iff in E.
              split; [exact E | intros; lia].
           ++ simpl in Hm. destruct k; discriminate.
Qed.

Lemma select_spec (items : cand_dict_t) :
  Forall sound_hyp items ->
  forall pre best,
    sel_inv res sent pre best ->
    exists best',
      select res (baseline res sent) items best = Ok best'
      /\ sel_inv res sent (pre ++ items) best'.
Proof.
  induction 1 as [|[e h] items [Hne _] Hitems IH]; intros pre best Hinv.
  - exists best. rewrite app_nil_r. split; [reflexivity | exact Hinv].
  - simpl in Hne. simpl select. rewrite select_step_eq by exact Hne.
    simpl bind.
    destruct (IH (pre ++ [(e, h)]) _ (sel_inv_step pre best e h Hinv))
      as [best' [Hsel Hinv']].
    exists best'. split; [exact Hsel|].
    rewrite <- app_assoc in Hinv'. exact Hinv'.
Qed.

End Selection.

(** ** One sweep *)

(** The outcome of a sweep on a non-empty sentence: the candidates are
    collected without error, and either none is eligible and the sentence
    comes back with [False], or the first best item comes back with [True]. *)
Lemma processSent_spec (sent : list string) (res : Resources) (args : Args) :
  sent <> [] ->
  exists d,
    candidates sent res args = Ok d
    /\ (((forall item, In item d -> eligible res sent item = false)
         /\ processSent sent res args = Ok (sent, false))
        \/ (exists n e h,
              first_best res sent d n (e, h)
              /\ h <> [] /\ Forall (fun t => t <> "") h
              /\ processSent sent res args = Ok (h, true))).
Proof.
  intros Hs.
  destruct (candidates_total sent res args) as [d Hd].
  exists d. split; [exact Hd|].
  pose proof (candidates_sound sent res args d Hd) as Hsound.
  assert (Hinit : sel_inv res sent [] (None, [])).
  { left. simpl. repeat split; auto. intros item []. }
  destruct (select_spec res sent d Hsound [] (None, []) Hinit)
    as [[bp bs] [Hsel Hinv]].
  simpl app in Hinv.
  unfold processSent. rewrite avg_prob_baseline by exact Hs. simpl bind.
  unfold candidates in Hd. rewrite Hd. simpl bind. rewrite Hsel. simpl bind.
  destruct Hinv as [[_ [Hbs Hnone]] | [n [e [_ Hfb]]]]; simpl in *.
  - left. subst bs. simpl. split; [exact Hnone | reflexivity].
  - right. exists n, e, bs.
    assert (Hin : In (e, bs) d).
    { destruct Hfb as [Hnth _]. eapply nth_error_In; exact Hnth. }
    rewrite Forall_forall in Hsound.
    destruct (Hsound _ Hin) as [Hne Htok]. simpl in Hne, Htok.
    split; [exact Hfb|]. split; [exact Hne|]. split; [exact Htok|].
    destruct bs; [congruence | reflexivity].
Qed.

(** ** The weight and the eligible set *)

Lemma passes_iff (res : Resources) (sent : list string) (w : Q)
  (h : list string) :
  passes res sent w h = true <-> (w * baseline res sent < hyp_score res h)%Q.
Proof.
  unfold passes. apply gt_iff.
Qed.

(** C1, as the program has it: a hypothesis eligible at the larger of two
    weights is eligible at the smaller one when the baseline is not
    negative; when the baseline is not positive, which is the case of
    log-probabilities, it is the other way round and raising the weight can
    only add eligible hypotheses. *)
Theorem passes_weight_monotone
  (res : Resources) (sent : list string) (w1 w2 : Q) (h : list string) :
  (w1 <= w2)%Q ->
  ((0 <= baseline res sent)%Q ->
   passes res sent w2 h = true -> passes res sent w1 h = true)
  /\ ((baseline res sent <= 0)%Q ->
      passes res sent w1 h = true -> passes res sent w2 h = true).
Proof.
  intros Hw. rewrite !passes_iff.
  set (b := baseline res sent). set (s := hyp_score res h).
  split; intros Hb H; nra.
Qed.

(** C1 fails as stated: on the sentence [a apple] the hypothesis [an apple]
    is eligible at weight 1 and not at weight 1/2. *)
Lemma raising_weight_grows_eligible_set :
  (1 # 2 <= 1)%Q
  /\ In ["an"; "apple"]
        (eligible_hypotheses ["a"; "apple"] Demo.res (Demo.args 1))
  /\ ~ In ["an"; "apple"]
         (eligible_hypotheses ["a"; "apple"] Demo.res (Demo.args (1 # 2)))
  /\ passes Demo.res ["a"; "apple"] 1 ["an"; "apple"] = true
  /\ passes Demo.res ["a"; "apple"] (1 # 2) ["an"; "apple"] = false.
Proof.
  split; [discriminate|].
  split; [vm_compute; auto|].
  split; [vm_compute; intros []|].
  split; reflexivity.
Qed.

Lemma passes_weight_monotone_witness :
  ((1 # 4 <= 1 # 2)%Q
   /\ (0 <= baseline Demo.res_pos ["a"; "apple"])%Q
   /\ passes Demo.res_pos ["a"; "apple"] (1 # 2) ["an"; "apple"] = true
   /\ passes Demo.res_pos ["a"; "apple"] (1 # 4) ["an"; "apple"] = true)
  /\ ((3 # 4 <= 1)%Q
      /\ (baseline Demo.res ["a"; "apple"] <= 0)%Q
      /\ passes Demo.res ["a"; "apple"] (3 # 4) ["an"; "apple"] = true
      /\ passes Demo.res ["a"; "apple"] 1 ["an"; "apple"] = true).
Proof.
  assert (H1 : (1 # 4 <= 1 # 2)%Q) by discriminate.
  assert (H2 : (0 <= baseline Demo.res_pos ["a"; "apple"])%Q)
    by (apply Qle_bool_iff; reflexivity).
  assert (H3 : (3 # 4 <= 1)%Q) by discriminate.
  assert (H4 : (baseline Demo.res ["a"; "apple"] <= 0)%Q)
    by (apply Qle_bool_iff; reflexivity).
  split.
  - split; [exact H1|]. split; [exact H2|]. split; [reflexivity|].
    apply (proj1 (passes_weight_monotone Demo.res_pos ["a"; "apple"]
                    (1 # 4) (1 # 2) ["an"; "apple"] H1) H2).
    reflexivity.
  - split; [exact H3|]. split; [exact H4|]. split; [reflexivity|].
    apply (proj2 (passes_weight_monotone Demo.res ["a"; "apple"]
                    (3 # 4) 1 ["an"; "apple"] H3) H4).
    reflexivity.
Defined.

(** ** Strings *)

Lemma lower_char_space (c : ascii) :
  Py.is_space (Py.lower_char c) = Py.is_space c.
Proof.
  destruct c as [[] [] [] [] [] [] [] []]; reflexivity.
Qed.

Lemma sexists_app (p : ascii -> bool) (a b : string) :
  Py.sexists p (a ++ b) = Py.sexists p a || Py.sexists p b.
Proof.
  induction a as [|c a IH]; simpl.
  - reflexivity.
  - rewrite IH. apply orb_assoc.
Qed.

Lemma sforall_app (p : ascii -> bool) (a b : string) :
  Py.sforall p (a ++ b) = Py.sforall p a && Py.sforall p b.
Proof.
  induction a as [|c a IH]; simpl.
  - reflexivity.
  - rewrite IH. apply andb_assoc.
Qed.

Lemma lower_spaces (s : string) :
  Py.sforall Py.is_space (Py.lower s) = Py.sforall Py.is_space s.
Proof.
  unfold Py.lower.
  induction s as [|c s IH]; cbn [Py.smap Py.sforall].
  - reflexivity.
  - rewrite lower_char_space, IH. reflexivity.
Qed.

Lemma lstrip_spaces (s : string) :
  Py.sforall Py.is_space (Py.lstrip s) = Py.sforall Py.is_space s.
Proof.
  induction s as [|c s IH]; simpl.
  - reflexivity.
  - destruct (Py.is_space c) eqn:E; simpl.
    + exact IH.
    + rewrite E. reflexivity.
Qed.

Lemma rstrip_spaces (s : string) :
  Py.sforall Py.is_space (Py.rstrip s) = Py.sforall Py.is_space s.
Proof.
  induction s as [|c s IH]; simpl.
  - reflexivity.
  - destruct (Py.rstrip s) as [|c' r] eqn:E.
    + simpl in IH. rewrite <- IH.
      destruct (Py.is_space c) eqn:Ec; simpl; [|rewrite Ec]; reflexivity.
    + rewrite <- IH. reflexivity.
Qed.

Lemma append_empty_r (s : string) : (s ++ "")%string = s.
Proof.
  induction s as [|c s IH]; simpl; [reflexivity | f_equal; exact IH].
Qed.

Lemma append_nonempty (a : string) (c : ascii) :
  (a ++ String c "")%string <> "".
Proof.
  destruct a; discriminate.
Qed.

Lemma flush_tokens (cur : string) : Forall (fun t => t <> "") (Py.flush cur).
Proof.
  destruct cur; simpl; constructor; [discriminate | constructor].
Qed.

(** The tokens that [split] returns are not empty. *)
Lemma split_ws_tokens (s : string) :
  forall cur, Forall (fun t => t <> "") (Py.split_ws cur s).
Proof.
  induction s as [|c s IH]; intros cur; simpl.
  - apply flush_tokens.
  - destruct (Py.is_space c).
    + apply Forall_app. split; [apply flush_tokens | apply IH].
    + apply IH.
Qed.

(** [split] returns no token exactly on a string of whitespace. *)
Lemma split_ws_nil (s : string) :
  forall cur,
    Py.split_ws cur s = [] <-> cur = "" /\ Py.sforall Py.is_space s = true.
Proof.
  induction s as [|c s IH]; intros cur; simpl.
  - destruct cur; simpl; split; intros H; auto; try discriminate.
    destruct H; discriminate.
  - destruct (Py.is_space c) eqn:E; simpl.
    + split.
      * intros H. apply app_eq_nil in H. destruct H as [Hf Hs].
        apply IH in Hs. destruct cur; [tauto | discriminate].
      * intros [-> Hs]. simpl. apply IH. tauto.
    + split.
      * intros H. apply IH in H. destruct H as [H _].
        exfalso. exact (append_nonempty _ _ H).
      * intros [_ H]. discriminate.
Qed.

Lemma tokenize_tokens (sent : string) :
  Forall (fun t => t <> "") (fst (tokenize sent)).
Proof.
  unfold tokenize. simpl. apply split_ws_tokens.
Qed.

Lemma join_nonempty (sep : string) (l : list string) :
  l <> [] -> Forall (fun t => t <> "") l -> Py.join sep l <> "".
Proof.
  intros Hl Ht. destruct l as [|x rest]; [congruence|].
  inversion Ht as [|? ? Hx _]; subst.
  destruct x as [|c x']; [congruence|].
  simpl. destruct rest; discriminate.
Qed.

(** ** The correction loop *)

(** A sweep on a non-empty sentence returns, and returns a non-empty
    sentence whose tokens are non-empty if those of the input are. *)
Lemma processSent_keeps (sent : list string) (res : Resources) (args : Args) :
  sent <> [] ->
  exists s b,
    processSent sent res args = Ok (s, b)
    /\ s <> []
    /\ (Forall (fun t => t <> "") sent -> Forall (fun t => t <> "") s).
Proof.
  intros Hs.
  destruct (processSent_spec sent res args Hs)
    as [d [_ [[_ Hp] | [n [e [h [_ [Hne [Htok Hp]]]]]]]]].
  - exists sent, false. auto.
  - exists h, true. auto.
Qed.

Lemma correct_spec (res : Resources) (args : Args) (fuel : nat) :
  forall sent,
    sent <> [] ->
    correct fuel sent res args = None
    \/ exists s,
         correct fuel sent res args = Some (Ok s)
         /\ s <> []
         /\ (Forall (fun t => t <> "") sent -> Forall (fun t => t <> "") s).
Proof.
  induction fuel as [|fuel IH]; intros sent Hs; simpl.
  - left. reflexivity.
  - destruct (processSent_keeps sent res args Hs) as [s [b [Hp [Hne Htok]]]].
    rewrite Hp. destruct b.
    + destruct (IH s Hne) as [Hnone | [s' [Hc [Hne' Htok']]]].
      * left. exact Hnone.
      * right. exists s'. split; [exact Hc|]. split; [exact Hne'|]. auto.
    + right. exists s. auto.
Qed.

(** C9: from a non-empty token list the correction loop never raises, each
    of its sweeps returns, and the sentence it produces is a non-empty token
    list; when the tokens are non-empty strings, as those of [split] are, the
    joined sentence is a non-empty string and taking its first character
    succeeds. *)
Theorem correct_nonempty
  (fuel : nat) (sent : list string) (res : Resources) (args : Args) :
  sent <> [] ->
  (exists r, processSent sent res args = Ok r)
  /\ (forall e, correct fuel sent res args <> Some (Raise e))
  /\ (forall s,
        correct fuel sent res args = Some (Ok s) ->
        s <> []
        /\ (Forall (fun t => t <> "") sent ->
            Py.join " " s <> ""
            /\ exists out, capitalize_first (Py.join " " s) = Ok out)).
Proof.
  intros Hs. split; [|split].
  - destruct (processSent_keeps sent res args Hs) as [s [b [Hp _]]].
    exists (s, b). exact Hp.
  - intros e He.
    destruct (correct_spec res args fuel sent Hs) as [H | [s [H _]]];
      rewrite H in He; discriminate.
  - intros s Hc.
    destruct (correct_spec res args fuel sent Hs)
      as [H | [s' [H [Hne Htok]]]]; rewrite H in Hc; [discriminate|].
    inversion Hc; subst s'. split; [exact Hne|].
    intros Hsent.
    pose proof (join_nonempty " " s Hne (Htok Hsent)) as Hj.
    split; [exact Hj|].
    destruct (Py.join " " s) as [|c rest]; [congruence|].
    simpl. eexists. reflexivity.
Qed.

Lemma correct_nonempty_witness :
  ["she"; "bought"; "a"; "apple"] <> []
  /\ correct 5 ["she"; "bought"; "a"; "apple"] Demo.res (Demo.args (3 # 4))
     = Some (Ok ["she"; "bought"; "an"; "apple"])
  /\ ["she"; "bought"; "an"; "apple"] <> ([] : list string).
Proof.
  assert (H : ["she"; "bought"; "a"; "apple"] <> ([] : list string))
    by discriminate.
  split; [exact H|].
  assert (Hc : correct 5 ["she"; "bought"; "a"; "apple"] Demo.res
                 (Demo.args (3 # 4))
               = Some (Ok ["she"; "bought"; "an"; "apple"]))
    by (vm_compute; reflexivity).
  split; [exact Hc|].
  exact (proj1 (proj2 (proj2 (correct_nonempty 5
                                 ["she"; "bought"; "a"; "apple"] Demo.res
                                 (Demo.args (3 # 4)) H)) _ Hc)).
Defined.

(** ** The orchestrator *)

Lemma detokenize_spec (s : list string) (upper : bool) :
  s <> [] ->
  Forall (fun t => t <> "") s ->
  exists c rest,
    Py.join " " s = String c rest
    /\ detokenize s upper
       = Ok ((if upper then Py.upper (String (Py.upper_char c) rest)
              else String (Py.upper_char c) rest) ++ nl)%string.
Proof.
  intros Hne Htok.
  pose proof (join_nonempty " " s Hne Htok) as Hj.
  unfold detokenize.
  destruct (Py.join " " s) as [|c rest]; [congruence|].
  exists c, rest. split; [reflexivity|].
  simpl. destruct upper; reflexivity.
Qed.

(** What [main] does with one line. *)
Lemma main_line_spec (fuel : nat) (res : Resources) (args : Args)
  (sent : string) :
  (fst (tokenize sent) = [] /\ main_line fuel res args sent = Some (Ok nl))
  \/ (fst (tokenize sent) <> []
      /\ ((correct fuel (fst (tokenize sent)) res args = None
           /\ main_line fuel res args sent = None)
          \/ exists s c rest,
               correct fuel (fst (tokenize sent)) res args = Some (Ok s)
               /\ Py.join " " s = String c rest
               /\ main_line fuel res args sent
                  = Some (Ok ((if snd (tokenize sent)
                               then Py.upper (String (Py.upper_char c) rest)
                               else String (Py.upper_char c) rest)
                              ++ nl)%string))).
Proof.
  unfold main_line.
  pose proof (tokenize_tokens sent) as Htok.
  destruct (tokenize sent) as [toks upper] eqn:E. simpl in *.
  destruct toks as [|t toks'] eqn:Et.
  - left. split; reflexivity.
  - right. split; [discriminate|]. rewrite <- Et in *.
    assert (Hne : toks <> []) by (rewrite Et; discriminate).
    replace (negb (Py.nonempty toks)) with false
      by (rewrite Et; reflexivity).
    destruct (correct_spec res args fuel toks Hne)
      as [Hc | [s [Hc [Hs Hst]]]]; rewrite Hc.
    + left. split; reflexivity.
    + right.
      destruct (detokenize_spec s upper Hs (Hst Htok)) as [c [rest [Hj Hd]]].
      exists s, c, rest. split; [reflexivity|]. split; [exact Hj|].
      rewrite Hd. reflexivity.
Qed.

Lemma main_line_no_raise (fuel : nat) (res : Resources) (args : Args)
  (sent : string) (e : exn) :
  main_line fuel res args sent <> Some (Raise e).
Proof.
  destruct (main_line_spec fuel res args sent)
    as [[_ H] | [_ [[_ H] | [s [c [rest [_ [_ H]]]]]]]];
    rewrite H; discriminate.
Qed.

Lemma main_loop_spec (fuel : nat) (res : Resources) (args : Args)
  (sents : list string) :
  forall out0,
    (main_loop fuel res args sents out0 = None
     /\ exists sent, In sent sents /\ main_line fuel res args sent = None)
    \/ exists lines,
         main_loop fuel res args sents out0 = Some (Ok (out0 ++ lines))
         /\ Forall2 (fun sent line =>
                       main_line fuel res args sent = Some (Ok line))
                    sents lines.
Proof.
  induction sents as [|sent rest IH]; intros out0; simpl.
  - right. exists []. rewrite app_nil_r. split; [reflexivity | constructor].
  - destruct (main_line fuel res args sent) as [[line|e]|] eqn:E.
    + destruct (IH (out0 ++ [line])) as [[Hn [s [Hin Hs]]] | [lines [Hm Hf]]].
      * left. split; [exact Hn|]. exists s. split; [right; exact Hin|exact Hs].
      * right. exists (line :: lines). rewrite <- app_assoc in Hm.
        split; [exact Hm|]. constructor; [exact E | exact Hf].
    + exfalso. exact (main_line_no_raise fuel res args sent e E).
    + left. split; [reflexivity|]. exists sent. split; [left; reflexivity|].
      exact E.
Qed.



(** ** Splitting a line at the separator *)

Lemma append_assoc (a b c : string) :
  ((a ++ b) ++ c)%string = (a ++ b ++ c)%string.
Proof.
  induction a as [|x a IH]; simpl; [reflexivity | f_equal; exact IH].
Qed.

Lemma prefix_sep (s : string) :
  prefix ": " s = true <-> exists r, s = (": " ++ r)%string.
Proof.
  split.
  - destruct s as [|a [|b r]]; cbn [prefix].
    + discriminate.
    + destruct (ascii_dec ":" a); discriminate.
    + destruct (ascii_dec ":" a) as [Ha|]; [|discriminate].
      destruct (ascii_dec " " b) as [Hb|]; [|discriminate].
      intros _. subst a b. exists r. reflexivity.
  - intros [r ->]. cbn [append prefix].
    destruct (ascii_dec ":" ":"); [|congruence].
    destruct (ascii_dec " " " "); [|congruence].
    destruct r; reflexivity.
Qed.

Lemma split_by_nonempty (sep : string) (s : string) :
  forall skip cur, Py.split_by sep skip cur s <> [].
Proof.
  induction s as [|c s IH]; intros skip cur; cbn [Py.split_by].
  - discriminate.
  - destruct skip; [|apply IH].
    destruct (prefix sep (String c s)); [discriminate | apply IH].
Qed.

Lemma has_separator_tail (c : ascii) (s : string) :
  has_separator (String c s) ->
  prefix ": " (String c s) = false ->
  has_separator s.
Proof.
  intros [l [r H]] Hp.
  destruct l as [|x l'].
  - exfalso. simpl in H.
    assert (Ht : prefix ": " (String c s) = true)
      by (apply prefix_sep; exists r; exact H).
    congruence.
  - simpl in H. inversion H; subst. exists l', r. reflexivity.
Qed.

Lemma has_separator_cons (c : ascii) (s : string) :
  has_separator s -> has_separator (String c s).
Proof.
  intros [l [r ->]]. exists (String c l), r. reflexivity.
Qed.

(** A line without the separator is returned whole. *)
Lemma split_by_no_separator (s : string) :
  forall cur,
    ~ has_separator s ->
    Py.split_by ": " 0 cur s = [(cur ++ s)%string].
Proof.
  induction s as [|c s IH]; intros cur Hno.
  - simpl. rewrite append_empty_r. reflexivity.
  - cbn [Py.split_by].
    destruct (prefix ": " (String c s)) eqn:E.
    + exfalso. apply Hno. apply prefix_sep in E. destruct E as [r ->].
      exists "", r. reflexivity.
    + rewrite IH.
      * rewrite append_assoc. reflexivity.
      * intros H. apply Hno. apply has_separator_cons. exact H.
Qed.

(** A line with the separator is split into two parts at least. *)
Lemma split_by_separator (s : string) :
  forall cur,
    has_separator s ->
    exists x y ys, Py.split_by ": " 0 cur s = x :: y :: ys.
Proof.
  induction s as [|c s IH]; intros cur Hsep.
  - destruct Hsep as [[|x l] [r H]]; discriminate.
  - cbn [Py.split_by].
    destruct (prefix ": " (String c s)) eqn:E.
    + destruct (Py.split_by ": " (String.length ": " - 1) "" s)
        as [|y ys] eqn:Es.
      * exfalso. exact (split_by_nonempty _ _ _ _ Es).
      * exists cur, y, ys. reflexivity.
    + apply IH. eapply has_separator_tail; eauto.
Qed.

(** The text before the first separator is the first part. *)
Lemma split_by_first (key rest : string) :
  forall cur,
    ~ has_separator key ->
    Py.split_by ": " 0 cur (key ++ ": " ++ rest)
    = (cur ++ key)%string :: Py.split_by ": " 0 "" rest.
Proof.
  induction key as [|c key IH]; intros cur Hno.
  - rewrite append_empty_r. cbn [append Py.split_by].
    replace (prefix ": " (String ":" (String " " rest))) with true
      by (symmetry; apply prefix_sep; exists rest; reflexivity).
    reflexivity.
  - change (String c key ++ ": " ++ rest)%string
      with (String c (key ++ ": " ++ rest)).
    cbn [Py.split_by].
    destruct (prefix ": " (String c (key ++ ": " ++ rest))) eqn:E.
    + exfalso. apply prefix_sep in E. destruct E as [r E].
      simpl in E. inversion E as [[Hc Hk]]. subst c.
      destruct key as [|c' key'].
      * simpl in Hk. discriminate Hk.
      * simpl in Hk. inversion Hk; subst c'.
        apply Hno. exists "", key'. reflexivity.
    + rewrite IH.
      * rewrite append_assoc. reflexivity.
      * intros H. apply Hno. apply has_separator_cons. exact H.
Qed.

Lemma getitem_0 {A : Type} (x : A) (l : list A) :
  Py.getitem (x :: l) 0 = Ok x.
Proof.
  reflexivity.
Qed.

Lemma getitem_1 {A : Type} (x y : A) (l : list A) :
  Py.getitem (x :: y :: l) 1 = Ok y.
Proof.
  unfold Py.getitem.
  change 1%Z with (Z.of_nat 1).
  rewrite (index_of_nat (List.length (x :: y :: l)) 1) by (simpl; lia).
  reflexivity.
Qed.

Lemma getitem_raises {A : Type} (l : list A) (idx : Z) (e : exn) :
  Py.getitem l idx = Raise e -> e = IndexError.
Proof.
  unfold Py.getitem, Py.index.
  destruct ((0 <=? idx) && (idx <? Z.of_nat (List.length l)))%Z; simpl.
  - destruct (nth_error l (Z.to_nat idx)); congruence.
  - destruct ((idx <? 0) && (- Z.of_nat (List.length l) <=? idx))%Z; simpl.
    + destruct (nth_error l (Z.to_nat (Z.of_nat (List.length l) + idx)));
        congruence.
    + congruence.
Qed.

(** ** Lines of the inflection database *)

Lemma loadWordFormDict_step_Ok (form_dict : form_dict_t) (entry : string)
  (w : string) (forms : list string) :
  parse_entry entry = Ok (w, forms) ->
  loadWordFormDict_step form_dict entry
  = Ok (Py.dict_set String.eqb w (Py.set (w :: forms)) form_dict).
Proof.
  intros H. unfold loadWordFormDict_step. rewrite H. reflexivity.
Qed.

(** Deciding the presence of the separator by running the split. *)
Lemma no_separator_by_split (entry : string) :
  Py.split_sep ": " entry = [entry] -> ~ has_separator entry.
Proof.
  intros Hs Hsep.
  destruct (split_by_separator entry "" Hsep) as [x [y [ys H]]].
  unfold Py.split_sep in Hs. rewrite Hs in H. discriminate.
Qed.

(** ** The inflection dictionary *)

Section DictKeys.
Context {K V : Type} (eqb : K -> K -> bool).
Hypothesis eqb_eq : forall a b, eqb a b = true <-> a = b.

Lemma dict_get_set_same (k : K) (v : V) (d : list (K * V)) :
  Py.dict_get eqb k (Py.dict_set eqb k v d) = Some v.
Proof.
  induction d as [|[k' v'] d IH]; simpl.
  - replace (eqb k k) with true by (symmetry; apply eqb_eq; reflexivity).
    reflexivity.
  - destruct (eqb k' k) eqn:E; simpl; rewrite E; [reflexivity | exact IH].
Qed.

Lemma dict_get_set_other (k k' : K) (v : V) (d : list (K * V)) :
  k <> k' ->
  Py.dict_get eqb k' (Py.dict_set eqb k v d) = Py.dict_get eqb k' d.
Proof.
  intros Hne.
  assert (Hf : eqb k k' = false).
  { destruct (eqb k k') eqn:E; [|reflexivity].
    apply eqb_eq in E. congruence. }
  induction d as [|[k0 v0] d IH]; simpl.
  - rewrite Hf. reflexivity.
  - destruct (eqb k0 k) eqn:E; simpl.
    + apply eqb_eq in E. subst k0. rewrite Hf. reflexivity.
    + rewrite IH. reflexivity.
Qed.

Lemma dict_get_In (k : K) (v : V) (d : list (K * V)) :
  Py.dict_get eqb k d = Some v -> In (k, v) d.
Proof.
  induction d as [|[k' v'] d IH]; simpl; [discriminate|].
  destruct (eqb k' k) eqn:E.
  - intros H. inversion H; subst. apply eqb_eq in E. subst. left; reflexivity.
  - intros H. right. apply IH. exact H.
Qed.

Lemma dict_set_In (k k' : K) (v v' : V) (d : list (K * V)) :
  In (k', v') (Py.dict_set eqb k v d) ->
  (k' = k /\ v' = v) \/ In (k', v') d.
Proof.
  induction d as [|[k0 v0] d IH]; simpl.
  - intros [H|[]]. inversion H; subst. left. auto.
  - destruct (eqb k0 k) eqn:E; simpl.
    + intros [H|H].
      * inversion H; subst. apply eqb_eq in E. subst. left. auto.
      * right. right. exact H.
    + intros [H|H].
      * right. left. exact H.
      * destruct (IH H) as [Hl|Hr]; [left; exact Hl | right; right; exact Hr].
Qed.

End DictKeys.

(** What the loop has stored after the lines [done]: every value is the
    form set of one of these lines under its lemma, and the lemma of every
    one of these lines is a key. *)
Lemma loadWordFormDict_loop_inv (entries : list string) :
  forall done d0 d,
    (forall k v, In (k, v) d0 ->
       exists entry forms,
         In entry done /\ parse_entry entry = Ok (k, forms)
         /\ v = Py.set (k :: forms)) ->
    (forall entry w forms,
       In entry done -> parse_entry entry = Ok (w, forms) ->
       exists fs, Py.dict_get String.eqb w d0 = Some fs) ->
    loadWordFormDict_loop entries d0 = Ok d ->
    (forall k v, In (k, v) d ->
       exists entry forms,
         In entry (done ++ entries) /\ parse_entry entry = Ok (k, forms)
         /\ v = Py.set (k :: forms))
    /\ (forall entry w forms,
          In entry (done ++ entries) -> parse_entry entry = Ok (w, forms) ->
          exists fs, Py.dict_get String.eqb w d = Some fs).
Proof.
  induction entries as [|entry rest IH]; intros done d0 d Hval Hkey H.
  - simpl in H. inversion H; subst. rewrite app_nil_r. split; assumption.
  - simpl in H. bind_inv H.
    unfold loadWordFormDict_step in Ha.
    destruct (parse_entry entry) as [[w forms]|x] eqn:Ep;
      simpl in Ha; [|discriminate].
    inversion Ha; subst a; clear Ha.
    replace (done ++ entry :: rest) with ((done ++ [entry]) ++ rest)
      by (rewrite <- app_assoc; reflexivity).
    refine (IH (done ++ [entry]) _ d _ _ H).
    + intros k v Hin.
      apply (dict_set_In String.eqb String.eqb_eq) in Hin.
      destruct Hin as [[-> ->] | Hin].
      * exists entry, forms. split; [|split; [exact Ep | reflexivity]].
        apply in_or_app. right. left. reflexivity.
      * destruct (Hval k v Hin) as [entry' [forms' [Hd [Hp Hv]]]].
        exists entry', forms'. split; [|split; assumption].
        apply in_or_app. left. exact Hd.
    + intros entry' w' forms' Hin Hp.
      destruct (string_dec w w') as [<-|Hne].
      * exists (Py.set (w :: forms)).
        apply (dict_get_set_same String.eqb String.eqb_eq).
      * rewrite (dict_get_set_other String.eqb String.eqb_eq) by exact Hne.
        apply in_app_or in Hin. destruct Hin as [Hin|[<-|[]]].
        -- exact (Hkey entry' w' forms' Hin Hp).
        -- rewrite Hp in Ep. inversion Ep. congruence.
Qed.

(** * Further properties of the program *)

(** ** Errors of generateCands *)

Lemma index_in_range (n : nat) (idx : Z) :
  in_range n idx -> exists p, Py.index n idx = Ok p.
Proof.
  unfold in_range, Py.index. intros H.
  destruct ((0 <=? idx) && (idx <? Z.of_nat n))%Z eqn:E1;
    [eexists; reflexivity|].
  destruct ((idx <? 0) && (- Z.of_nat n <=? idx))%Z eqn:E2;
    [eexists; reflexivity|].
  exfalso.
  apply andb_false_iff in E1. apply andb_false_iff in E2.
  destruct E1 as [E1|E1], E2 as [E2|E2]; lia.
Qed.

Lemma index_out_of_range (n : nat) (idx : Z) :
  ~ in_range n idx -> Py.index n idx = Raise IndexError.
Proof.
  unfold in_range, Py.index. intros H.
  destruct ((0 <=? idx) && (idx <? Z.of_nat n))%Z eqn:E1.
  - exfalso. apply andb_prop in E1. lia.
  - destruct ((idx <? 0) && (- Z.of_nat n <=? idx))%Z eqn:E2.
    + exfalso. apply andb_prop in E2. lia.
    + reflexivity.
Qed.

(** X1: [generateCands] raises nothing but [IndexError], and does so exactly
    when there is a candidate to try and [tok_id] is not an index of the
    sentence (negative indices down to [-len(sent)] are accepted). *)
Theorem generateCands_raises_iff
  (tok_id : Z) (cands sent : list string) (weight : Q) :
  ((cands = [] \/ in_range (List.length sent) tok_id) ->
   exists d, generateCands tok_id cands sent weight = Ok d)
  /\ (cands <> [] -> ~ in_range (List.length sent) tok_id ->
      generateCands tok_id cands sent weight = Raise IndexError).
Proof.
  split.
  - intros [-> | Hr].
    + exists []. reflexivity.
    + destruct (index_in_range _ _ Hr) as [p Hp].
      apply (generateCands_loop_total tok_id sent weight p cands Hp).
  - intros Hne Hr. destruct cands as [|cand rest]; [congruence|].
    unfold generateCands. cbn [generateCands_loop].
    unfold generateCands_step, Py.setitem.
    rewrite (index_out_of_range _ _ Hr). reflexivity.
Qed.

Lemma generateCands_raises_iff_witness :
  (in_range (List.length ["a"; "cat"]) (-2)
   /\ exists d, generateCands (-2) ["the"] ["a"; "cat"] 1 = Ok d)
  /\ (["the"] <> ([] : list string)
      /\ ~ in_range (List.length ["a"; "cat"]) 2
      /\ generateCands 2 ["the"] ["a"; "cat"] 1 = Raise IndexError).
Proof.
  assert (H1 : in_range (List.length ["a"; "cat"]) (-2))
    by (unfold in_range; simpl; lia).
  assert (H2 : ["the"] <> ([] : list string)) by discriminate.
  assert (H3 : ~ in_range (List.length ["a"; "cat"]) 2)
    by (unfold in_range; simpl; lia).
  split.
  - split; [exact H1|].
    exact (proj1 (generateCands_raises_iff (-2) ["the"] ["a"; "cat"] 1)
             (or_intror H1)).
  - split; [exact H2|]. split; [exact H3|].
    exact (proj2 (generateCands_raises_iff 2 ["the"] ["a"; "cat"] 1) H2 H3).
Defined.

(** ** What the candidate dictionary holds *)

Lemma dict_set_has_new (k : edit) (v : list string) (d : cand_dict_t) :
  has_edit (Py.dict_set edit_eqb k v d) (edit_tok_id k) (edit_cand k) v.
Proof.
  induction d as [|[k' v'] d IH]; simpl.
  - exists k. split; [left; reflexivity | split; reflexivity].
  - destruct (edit_eqb k' k) eqn:E.
    + apply edit_eqb_fields in E. destruct E as [Ht [Hc _]].
      exists k'. split; [left; reflexivity | split; assumption].
    + destruct IH as [e [Hin [Ht Hc]]].
      exists e. split; [right; exact Hin | split; assumption].
Qed.

Lemma dict_set_has_old (k : edit) (v : list string) (d : cand_dict_t)
  (t : Z) (c : string) (h : list string) :
  has_edit d t c h ->
  (edit_tok_id k = t -> edit_cand k = c -> v = h) ->
  has_edit (Py.dict_set edit_eqb k v d) t c h.
Proof.
  intros [e [Hin [Ht Hc]]] Hsame.
  induction d as [|[k' v'] d IH]; simpl in *; [contradiction|].
  destruct (edit_eqb k' k) eqn:E.
  - destruct Hin as [Hhd|Htl].
    + inversion Hhd; subst k' v'.
      apply edit_eqb_fields in E. destruct E as [Et [Ec _]].
      exists e. split; [|split; assumption].
      left. f_equal. apply Hsame; congruence.
    + exists e. split; [right; exact Htl | split; assumption].
  - destruct Hin as [Hhd|Htl].
    + exists e. split; [left; exact Hhd | split; assumption].
    + destruct (IH Htl) as [e' [Hin' [Ht' Hc']]].
      exists e'. split; [right; exact Hin' | split; assumption].
Qed.

(** One step of [generateCands] in terms of [hyp_of]. *)
Lemma generateCands_step_eq (tok_id : Z) (sent : list string) (weight : Q)
  (d0 d : cand_dict_t) (cand : string) :
  generateCands_step tok_id sent weight d0 cand = Ok d ->
  d = (if Py.nonempty (hyp_of sent tok_id cand)
       then Py.dict_set edit_eqb ((tok_id, cand), weight)
              (hyp_of sent tok_id cand) d0
       else d0).
Proof.
  unfold generateCands_step, hyp_of. intros H.
  destruct (Py.setitem sent tok_id cand) as [ns|e]; simpl in H;
    [|discriminate].
  destruct (Py.nonempty (filter Py.truthy ns)); inversion H; reflexivity.
Qed.

Lemma generateCands_loop_keeps (tok_id : Z) (sent : list string) (weight : Q)
  (t : Z) (c : string) (cands : list string) :
  forall d0 d,
    has_edit d0 t c (hyp_of sent t c) ->
    generateCands_loop tok_id cands sent weight d0 = Ok d ->
    has_edit d t c (hyp_of sent t c).
Proof.
  induction cands as [|cand rest IH]; intros d0 d Hhas H; simpl in H.
  - inversion H; subst. exact Hhas.
  - bind_inv H. apply (IH a d); [|exact H].
    apply generateCands_step_eq in Ha. subst a.
    destruct (Py.nonempty (hyp_of sent tok_id cand)); [|exact Hhas].
    apply dict_set_has_old; [exact Hhas|].
    simpl. intros <- <-. reflexivity.
Qed.

Lemma generateCands_loop_adds (tok_id : Z) (sent : list string) (weight : Q)
  (cand : string) (cands : list string) :
  In cand cands ->
  hyp_of sent tok_id cand <> [] ->
  forall d0 d,
    generateCands_loop tok_id cands sent weight d0 = Ok d ->
    has_edit d tok_id cand (hyp_of sent tok_id cand).
Proof.
  intros Hin Hne.
  induction cands as [|c rest IH]; intros d0 d H; [contradiction|].
  simpl in H. bind_inv H.
  destruct Hin as [->|Hin].
  - apply (generateCands_loop_keeps tok_id sent weight tok_id cand rest a d);
      [|exact H].
    apply generateCands_step_eq in Ha. subst a.
    apply nonempty_iff in Hne. rewrite Hne.
    apply (dict_set_has_new ((tok_id, cand), weight)).
  - apply (IH Hin a d H).
Qed.

Lemma hyp_of_edited (sent : list string) (tok_id : Z) (cand : string)
  (p : nat) :
  Forall (fun t => t <> "") sent ->
  Py.index (List.length sent) tok_id = Ok p ->
  hyp_of sent tok_id cand = edited sent p cand.
Proof.
  intros Hs Hp. unfold hyp_of.
  destruct (Py.setitem sent tok_id cand) as [ns|e] eqn:E.
  - destruct (setitem_filter sent tok_id cand ns Hs E) as [p' [Hp' Hf]].
    rewrite Hp in Hp'. inversion Hp'; subst p'. exact Hf.
  - unfold Py.setitem in E. rewrite Hp in E. discriminate.
Qed.

Lemma edited_nonempty_iff (sent : list string) (p : nat) (cand : string) :
  p < List.length sent ->
  edited sent p cand <> [] <-> (cand <> "" \/ 2 <= List.length sent).
Proof.
  intros Hp.
  destruct (string_dec cand "") as [Hc|Hc].
  - pose proof (edited_delete_length sent p cand Hp Hc) as Hl.
    split.
    + intros Hne. right.
      destruct (edited sent p cand); [congruence | simpl in Hl; lia].
    + intros [H|H]; [congruence|].
      intros He. rewrite He in Hl. simpl in Hl. lia.
  - pose proof (edited_subst_length sent p cand Hp Hc) as Hl.
    split; [intros _; left; exact Hc|].
    intros _ He. rewrite He in Hl. simpl in Hl. lia.
Qed.

(** X2: on a sentence of non-empty tokens, [generateCands] records the
    edited sentence of every candidate it is given, with one exception only:
    the empty candidate on a sentence of a single token, whose result would
    be empty. *)
Theorem generateCands_complete
  (tok_id : Z) (cands sent : list string) (weight : Q) (d : cand_dict_t)
  (cand : string) :
  Forall (fun t => t <> "") sent ->
  generateCands tok_id cands sent weight = Ok d ->
  In cand cands ->
  exists p,
    Py.index (List.length sent) tok_id = Ok p
    /\ (has_edit d tok_id cand (edited sent p cand)
        <-> (cand <> "" \/ 2 <= List.length sent)).
Proof.
  intros Hs Hd Hin.
  assert (Hp : exists p, Py.index (List.length sent) tok_id = Ok p).
  { destruct cands as [|c rest]; [contradiction|].
    unfold generateCands in Hd. simpl in Hd. bind_inv Hd.
    unfold generateCands_step, Py.setitem in Ha.
    destruct (Py.index (List.length sent) tok_id) as [p|e];
      [exists p; reflexivity | discriminate]. }
  destruct Hp as [p Hp]. exists p. split; [exact Hp|].
  pose proof (index_bound _ _ _ Hp) as Hlt.
  rewrite <- (edited_nonempty_iff sent p cand Hlt).
  rewrite <- (hyp_of_edited sent tok_id cand p Hs Hp).
  split.
  - intros [e [He _]] Hempty.
    apply generateCands_sound in Hd. rewrite Forall_forall in Hd.
    destruct (Hd _ He) as [Hne _]. simpl in Hne. congruence.
  - intros Hne.
    apply (generateCands_loop_adds tok_id sent weight cand cands Hin Hne [] d).
    exact Hd.
Qed.

Lemma generateCands_complete_witness :
  Forall (fun t => t <> "") ["cat"]
  /\ generateCands 0 [""; "dog"] ["cat"] 1
     = Ok [(((0%Z, "dog"), 1%Q), ["dog"])]
  /\ In "" [""; "dog"]
  /\ exists p,
       Py.index 1 0 = Ok p
       /\ (has_edit [(((0%Z, "dog"), 1%Q), ["dog"])] 0 "" (edited ["cat"] p "")
           <-> ("" <> "" \/ 2 <= 1)).
Proof.
  assert (H1 : Forall (fun t : string => t <> "") ["cat"])
    by (repeat constructor; discriminate).
  assert (H2 : generateCands 0 [""; "dog"] ["cat"] 1
               = Ok [(((0%Z, "dog"), 1%Q), ["dog"])]) by reflexivity.
  assert (H3 : In "" [""; "dog"]) by (left; reflexivity).
  split; [exact H1|]. split; [exact H2|]. split; [exact H3|].
  exact (generateCands_complete 0 [""; "dog"] ["cat"] 1 _ "" H1 H2 H3).
Defined.

(** ** Where the candidates of a sweep come from *)

Lemma tokens_from_In (sent : list string)
  (lemma : list string -> nat -> string) (rest : list string) (tok : Token) :
  forall pos,
    In tok (tokens_from sent pos rest lemma) ->
    exists k,
      nth_error rest k = Some (text tok)
      /\ i tok = pos + k
      /\ lemma_ tok = lemma sent (i tok).
Proof.
  induction rest as [|w rest IH]; intros pos Hin; simpl in Hin.
  - contradiction.
  - destruct Hin as [<-|Hin].
    + exists 0. simpl. split; [reflexivity|]. split; [lia | reflexivity].
    + destruct (IH (S pos) Hin) as [k [Hk [Hi Hl]]].
      exists (S k). simpl. split; [exact Hk|]. split; [lia | exact Hl].
Qed.

Lemma processWithSpacy_In (sent : list string) (res : Resources)
  (tok : Token) :
  In tok (processWithSpacy sent res) ->
  nth_error sent (i tok) = Some (text tok)
  /\ lemma_ tok = doc_lemma res sent (i tok).
Proof.
  intros Hin. apply tokens_from_In in Hin.
  destruct Hin as [k [Hk [Hi Hl]]]. simpl in Hi. subst k. auto.
Qed.

Lemma processWithSpacy_nth (sent : list string) (res : Resources)
  (p : nat) (w : string) :
  nth_error sent p = Some w ->
  In {| text := w; i := p; lemma_ := doc_lemma res sent p |}
     (processWithSpacy sent res).
Proof.
  unfold processWithSpacy.
  assert (H : forall rest pos k,
             nth_error rest k = Some w ->
             In {| text := w; i := pos + k;
                   lemma_ := doc_lemma res sent (pos + k) |}
                (tokens_from sent pos rest (doc_lemma res))).
  { induction rest as [|x rest IH]; intros pos k Hk.
    - destruct k; discriminate.
    - destruct k as [|k]; simpl in *.
      + inversion Hk; subst. rewrite Nat.add_0_r. left; reflexivity.
      + right. replace (pos + S k) with (S pos + k) by lia.
        apply IH. exact Hk. }
  intros Hp. apply (H sent 0 p Hp).
Qed.

Section SweepSources.
Variables (sent : list string) (res : Resources) (args : Args).
Variable toks : list Token.

Lemma stems_key (k k' : edit) (v : list string) :
  stems sent res args toks (k, v) ->
  edit_eqb k' k = true ->
  stems sent res args toks (k', v).
Proof.
  intros [tok [Hin [Ht [Hc [Hw Hv]]]]] E.
  apply edit_eqb_fields in E. destruct E as [Et [Ec Ew]].
  exists tok. split; [exact Hin|]. unfold from_token in *. simpl in *.
  rewrite Et, Ec. repeat split; try assumption.
  rewrite Ew. exact Hw.
Qed.

Lemma add_cands_stems (tok : Token) (cands : list string)
  (cand_dict d : cand_dict_t) :
  In tok toks ->
  incl cands (proposed res tok) ->
  Forall (stems sent res args toks) cand_dict ->
  add_cands (Z.of_nat (i tok)) cands sent (threshold args) cand_dict = Ok d ->
  Forall (stems sent res args toks) d.
Proof.
  intros Hin Hincl Hcd H. unfold add_cands in H. bind_inv H.
  inversion H; subst d; clear H.
  apply dict_update_Forall; [exact Hcd | | exact stems_key].
  apply (generateCands_Forall (stems sent res args toks)
           (Z.of_nat (i tok)) sent (threshold args) cands a);
    [|exact Ha].
  intros cand new_sent k' Hc Hset _ Hk.
  apply edit_eqb_fields in Hk. destruct Hk as [Et [Ec Ew]].
  exists tok. split; [exact Hin|]. unfold from_token. simpl in *.
  unfold edit_tok_id, edit_cand, edit_weight in *. simpl in *.
  rewrite Et, Ec. split; [reflexivity|]. split; [apply Hincl; exact Hc|].
  split; [exact Ew|]. unfold hyp_of. rewrite Hset. reflexivity.
Qed.

Lemma collect_token_stems (tok : Token) (cand_dict d : cand_dict_t) :
  In tok toks ->
  Forall (stems sent res args toks) cand_dict ->
  collect_token sent res args cand_dict tok = Ok d ->
  Forall (stems sent res args toks) d.
Proof.
  intros Hin Hcd H. unfold collect_token in H. cbv zeta in H.
  bind_inv H. bind_inv H. bind_inv H.
  assert (H0 : Forall (stems sent res args toks) a).
  { destruct (Py.isalpha (text tok) && negb (gb_spell res (text tok))) eqn:E.
    - destruct (Py.nonempty (gb_suggest res (text tok))).
      + eapply add_cands_stems; [exact Hin | | exact Hcd | exact Ha].
        unfold proposed. rewrite E. apply incl_appl. apply incl_refl.
      + inversion Ha; subst; exact Hcd.
    - inversion Ha; subst; exact Hcd. }
  assert (H1 : Forall (stems sent res args toks) a0).
  { destruct (Py.dict_get String.eqb (lemma_ tok) (gb_infl res)) eqn:E.
    - eapply add_cands_stems; [exact Hin | | exact H0 | exact Ha0].
      unfold proposed. rewrite E.
      apply incl_appr. apply incl_appl. apply incl_refl.
    - inversion Ha0; subst; exact H0. }
  assert (H2 : Forall (stems sent res args toks) a1).
  { destruct (Py.contains (text tok) (det res)) eqn:E.
    - eapply add_cands_stems; [exact Hin | | exact H1 | exact Ha1].
      unfold proposed. rewrite E.
      apply incl_appr. apply incl_appr. apply incl_appl. apply incl_refl.
    - inversion Ha1; subst; exact H1. }
  destruct (Py.contains (text tok) (prep res)) eqn:E.
  - eapply add_cands_stems; [exact Hin | | exact H2 | exact H].
    unfold proposed. rewrite E.
    apply incl_appr. apply incl_appr. apply incl_appr. apply incl_refl.
  - inversion H; subst; exact H2.
Qed.

Lemma collect_stems (rest : list Token) :
  incl rest toks ->
  forall cand_dict d,
    Forall (stems sent res args toks) cand_dict ->
    collect sent res args rest cand_dict = Ok d ->
    Forall (stems sent res args toks) d.
Proof.
  induction rest as [|tok rest IH]; intros Hincl cand_dict d Hcd H;
    simpl in H.
  - inversion H; subst. exact Hcd.
  - bind_inv H. apply (IH (fun x Hx => Hincl x (or_intror Hx)) a d);
      [|exact H].
    apply (collect_token_stems tok cand_dict a); auto.
    apply Hincl. left. reflexivity.
Qed.

End SweepSources.

Lemma generateCands_consistent (tok_id : Z) (cands sent : list string)
  (weight : Q) (d : cand_dict_t) :
  generateCands tok_id cands sent weight = Ok d ->
  Forall (consistent sent) d.
Proof.
  apply generateCands_Forall.
  intros cand new_sent k' _ Hset _ Hk.
  apply edit_eqb_fields in Hk. destruct Hk as [Et [Ec _]].
  unfold consistent, hyp_of. simpl in *.
  unfold edit_tok_id, edit_cand in *. simpl in *.
  rewrite Et, Ec, Hset. reflexivity.
Qed.

Section SweepHolds.
Variable sent : list string.

Lemma dict_update_keeps (d2 : cand_dict_t) (t : Z) (c : string) :
  Forall (consistent sent) d2 ->
  forall d,
    has_edit d t c (hyp_of sent t c) ->
    has_edit (Py.dict_update edit_eqb d d2) t c (hyp_of sent t c).
Proof.
  unfold Py.dict_update.
  induction 1 as [|[k v] d2 Hk Hd2 IH]; intros d Hhas; simpl.
  - exact Hhas.
  - apply IH. apply dict_set_has_old; [exact Hhas|].
    unfold consistent in Hk. simpl in Hk. intros <- <-. exact Hk.
Qed.

Lemma dict_update_adds (d2 : cand_dict_t) (t : Z) (c : string) :
  Forall (consistent sent) d2 ->
  has_edit d2 t c (hyp_of sent t c) ->
  forall d, has_edit (Py.dict_update edit_eqb d d2) t c (hyp_of sent t c).
Proof.
  induction 1 as [|[k v] d2 Hk Hd2 IH]; intros [e [Hin [Ht Hc]]] d.
  - contradiction.
  - destruct Hin as [Hhd|Htl].
    + inversion Hhd; subst k v. subst t c.
      change (Py.dict_update edit_eqb d
                ((e, hyp_of sent (edit_tok_id e) (edit_cand e)) :: d2))
        with (Py.dict_update edit_eqb
                (Py.dict_set edit_eqb e
                   (hyp_of sent (edit_tok_id e) (edit_cand e)) d) d2).
      apply dict_update_keeps; [exact Hd2|].
      apply dict_set_has_new.
    + change (Py.dict_update edit_eqb d ((k, v) :: d2))
        with (Py.dict_update edit_eqb (Py.dict_set edit_eqb k v d) d2).
      apply IH. exists e. auto.
Qed.

Lemma add_cands_keeps (tok_id : Z) (cands : list string) (weight : Q)
  (cand_dict d : cand_dict_t) (t : Z) (c : string) :
  has_edit cand_dict t c (hyp_of sent t c) ->
  add_cands tok_id cands sent weight cand_dict = Ok d ->
  has_edit d t c (hyp_of sent t c).
Proof.
  intros Hhas H. unfold add_cands in H. bind_inv H.
  inversion H; subst d.
  apply dict_update_keeps; [|exact Hhas].
  eapply generateCands_consistent; exact Ha.
Qed.

Lemma add_cands_adds (tok_id : Z) (cands : list string) (weight : Q)
  (cand_dict d : cand_dict_t) (c : string) :
  In c cands ->
  hyp_of sent tok_id c <> [] ->
  add_cands tok_id cands sent weight cand_dict = Ok d ->
  has_edit d tok_id c (hyp_of sent tok_id c).
Proof.
  intros Hin Hne H. unfold add_cands in H. bind_inv H.
  inversion H; subst d.
  apply dict_update_adds.
  - eapply generateCands_consistent; exact Ha.
  - apply (generateCands_loop_adds tok_id sent weight c cands Hin Hne [] a).
    exact Ha.
Qed.

Lemma collect_token_holds (res : Resources) (args : Args) (tok : Token)
  (cand_dict d : cand_dict_t) :
  collect_token sent res args cand_dict tok = Ok d ->
  (forall t c,
      has_edit cand_dict t c (hyp_of sent t c) ->
      has_edit d t c (hyp_of sent t c))
  /\ (forall c,
        In c (proposed res tok) ->
        hyp_of sent (Z.of_nat (i tok)) c <> [] ->
        has_edit d (Z.of_nat (i tok)) c (hyp_of sent (Z.of_nat (i tok)) c)).
Proof.
  intros H. unfold collect_token in H. cbv zeta in H.
  bind_inv H. bind_inv H. bind_inv H.
  unfold proposed.
  destruct (Py.isalpha (text tok) && negb (gb_spell res (text tok))) eqn:E1.
  2: { inversion Ha; subst a; clear Ha. revert Ha0 Ha1 H. revert a0 a1.
       intros a0 a1 Ha0 Ha1 H.
       assert (K1 : forall t c, has_edit cand_dict t c (hyp_of sent t c) ->
                                has_edit a0 t c (hyp_of sent t c)).
       { intros t c Hh.
         destruct (Py.dict_get String.eqb (lemma_ tok) (gb_infl res));
           [eapply add_cands_keeps; eauto | inversion Ha0; subst; exact Hh]. }
       assert (K2 : forall t c, has_edit a0 t c (hyp_of sent t c) ->
                                has_edit a1 t c (hyp_of sent t c)).
       { intros t c Hh.
         destruct (Py.contains (text tok) (det res));
           [eapply add_cands_keeps; eauto | inversion Ha1; subst; exact Hh]. }
       assert (K3 : forall t c, has_edit a1 t c (hyp_of sent t c) ->
                                has_edit d t c (hyp_of sent t c)).
       { intros t c Hh.
         destruct (Py.contains (text tok) (prep res));
           [eapply add_cands_keeps; eauto | inversion H; subst; exact Hh]. }
       split; [intros t c Hh; auto|].
       intros c Hin Hne. simpl in Hin.
       apply in_app_or in Hin. destruct Hin as [Hin|Hin].
       { apply K3, K2.
         destruct (Py.dict_get String.eqb (lemma_ tok) (gb_infl res));
           [eapply add_cands_adds; eauto | contradiction]. }
       apply in_app_or in Hin. destruct Hin as [Hin|Hin].
       { apply K3.
         destruct (Py.contains (text tok) (det res));
           [eapply add_cands_adds; eauto | contradiction]. }
       destruct (Py.contains (text tok) (prep res));
         [eapply add_cands_adds; eauto | contradiction]. }
  assert (K0 : forall t c, has_edit cand_dict t c (hyp_of sent t c) ->
                           has_edit a t c (hyp_of sent t c)).
  { intros t c Hh.
    destruct (Py.nonempty (gb_suggest res (text tok)));
      [eapply add_cands_keeps; eauto | inversion Ha; subst; exact Hh]. }
  assert (K1 : forall t c, has_edit a t c (hyp_of sent t c) ->
                           has_edit a0 t c (hyp_of sent t c)).
  { intros t c Hh.
    destruct (Py.dict_get String.eqb (lemma_ tok) (gb_infl res));
      [eapply add_cands_keeps; eauto | inversion Ha0; subst; exact Hh]. }
  assert (K2 : forall t c, has_edit a0 t c (hyp_of sent t c) ->
                           has_edit a1 t c (hyp_of sent t c)).
  { intros t c Hh.
    destruct (Py.contains (text tok) (det res));
      [eapply add_cands_keeps; eauto | inversion Ha1; subst; exact Hh]. }
  assert (K3 : forall t c, has_edit a1 t c (hyp_of sent t c) ->
                           has_edit d t c (hyp_of sent t c)).
  { intros t c Hh.
    destruct (Py.contains (text tok) (prep res));
      [eapply add_cands_keeps; eauto | inversion H; subst; exact Hh]. }
  split; [intros t c Hh; auto|].
  intros c Hin Hne.
  apply in_app_or in Hin. destruct Hin as [Hin|Hin].
  { apply K3, K2, K1.
    destruct (gb_suggest res (text tok)) as [|s0 ss] eqn:Es;
      [contradiction|].
    simpl in Ha. eapply add_cands_adds; eauto. }
  apply in_app_or in Hin. destruct Hin as [Hin|Hin].
  { apply K3, K2.
    destruct (Py.dict_get String.eqb (lemma_ tok) (gb_infl res));
      [eapply add_cands_adds; eauto | contradiction]. }
  apply in_app_or in Hin. destruct Hin as [Hin|Hin].
  { apply K3.
    destruct (Py.contains (text tok) (det res));
      [eapply add_cands_adds; eauto | contradiction]. }
  destruct (Py.contains (text tok) (prep res));
    [eapply add_cands_adds; eauto | contradiction].
Qed.

Lemma collect_holds (res : Resources) (args : Args) (toks : list Token) :
  forall cand_dict d,
    collect sent res args toks cand_dict = Ok d ->
    (forall t c,
        has_edit cand_dict t c (hyp_of sent t c) ->
        has_edit d t c (hyp_of sent t c))
    /\ (forall tok c,
          In tok toks ->
          In c (proposed res tok) ->
          hyp_of sent (Z.of_nat (i tok)) c <> [] ->
          has_edit d (Z.of_nat (i tok)) c
                   (hyp_of sent (Z.of_nat (i tok)) c)).
Proof.
  induction toks as [|tok rest IH]; intros cand_dict d H; simpl in H.
  - inversion H; subst. split; [auto | intros tok c []].
  - bind_inv H.
    destruct (collect_token_holds res args tok cand_dict a Ha) as [K A].
    destruct (IH a d H) as [K' A'].
    split; [intros t c Hh; auto|].
    intros tok' c [<-|Hin] Hc Hne; [apply K'; apply A; assumption|].
    apply A'; assumption.
Qed.

End SweepHolds.

(** ** What a sweep returns *)

Lemma candidates_item (sent : list string) (res : Resources) (args : Args)
  (d : cand_dict_t) (e : edit) (h : list string) :
  candidates sent res args = Ok d ->
  In (e, h) d ->
  exists tok,
    In tok (processWithSpacy sent res)
    /\ from_token sent res args tok (e, h).
Proof.
  intros Hd Hin. unfold candidates in Hd.
  pose proof (collect_stems sent res args (processWithSpacy sent res)
                (processWithSpacy sent res) (incl_refl _) [] d
                (Forall_nil _) Hd) as Hall.
  rewrite Forall_forall in Hall. exact (Hall (e, h) Hin).
Qed.

Lemma candidates_item_edited (sent : list string) (res : Resources)
  (args : Args) (d : cand_dict_t) (e : edit) (h : list string) :
  Forall (fun t => t <> "") sent ->
  candidates sent res args = Ok d ->
  In (e, h) d ->
  exists p,
    p < List.length sent
    /\ (edit_weight e == threshold args)%Q
    /\ h = edited sent p (edit_cand e).
Proof.
  intros Hs Hd Hin.
  destruct (candidates_item sent res args d e h Hd Hin)
    as [tok [Htok [Ht [Hc [Hw Hv]]]]]. simpl in *.
  destruct (processWithSpacy_In sent res tok Htok) as [Hnth _].
  assert (Hlt : i tok < List.length sent)
    by (apply nth_error_Some; rewrite Hnth; discriminate).
  exists (i tok). split; [exact Hlt|]. split; [exact Hw|].
  rewrite Hv. apply hyp_of_edited; [exact Hs|].
  apply index_of_nat. exact Hlt.
Qed.

Lemma processSent_empty (res : Resources) (args : Args) :
  processSent [] res args = Raise ZeroDivisionError.
Proof.
  reflexivity.
Qed.

(** With [False] the sweep hands back the sentence it was given. *)
Lemma processSent_false (sent s : list string) (res : Resources)
  (args : Args) :
  processSent sent res args = Ok (s, false) -> s = sent.
Proof.
  unfold processSent. intros H.
  bind_inv H. bind_inv H. bind_inv H.
  destruct a1 as [bp bs].
  destruct (Py.nonempty bs); inversion H; reflexivity.
Qed.

Lemma edited_length_bounds (sent : list string) (p : nat) (cand : string) :
  p < List.length sent ->
  List.length (edited sent p cand) <= List.length sent
  /\ List.length sent <= List.length (edited sent p cand) + 1.
Proof.
  intros Hp. destruct (string_dec cand "") as [Hc|Hc].
  - rewrite (edited_delete_length sent p cand Hp Hc). lia.
  - rewrite (edited_subst_length sent p cand Hp Hc). lia.
Qed.

Lemma processSent_edit (sent s : list string) (res : Resources)
  (args : Args) :
  Forall (fun t => t <> "") sent ->
  processSent sent res args = Ok (s, true) ->
  exists p e,
    p < List.length sent
    /\ s = edited sent p (edit_cand e)
    /\ (edit_weight e == threshold args)%Q
    /\ eligible res sent (e, s) = true.
Proof.
  intros Hs H.
  assert (Hne : sent <> []).
  { intros ->. rewrite processSent_empty in H. discriminate. }
  destruct (processSent_spec sent res args Hne)
    as [d [Hd [[_ Hp] | [n [e [h [Hfb [_ [_ Hp]]]]]]]]];
    rewrite Hp in H; inversion H; subst h.
  destruct Hfb as [Hnth [Hel _]]. apply nth_error_In in Hnth.
  destruct (candidates_item_edited sent res args d e s Hs Hd Hnth)
    as [p [Hlt [Hw Hh]]].
  exists p, e. auto.
Qed.

(** X5: [processSent] raises exactly on the empty sentence, and then
    [ZeroDivisionError]; on every other sentence it returns. *)
Theorem processSent_raises_iff
  (sent : list string) (res : Resources) (args : Args) (e : exn) :
  processSent sent res args = Raise e
  <-> (sent = [] /\ e = ZeroDivisionError).
Proof.
  split.
  - intros H. destruct sent as [|t rest].
    + rewrite processSent_empty in H. inversion H. auto.
    + destruct (processSent_keeps (t :: rest) res args) as [s [b [Hp _]]];
        [discriminate|].
      rewrite Hp in H. discriminate.
  - intros [-> ->]. apply processSent_empty.
Qed.

(** X6: one sweep makes one edit at most.  On a sentence of non-empty
    tokens the returned sentence is the input itself when the flag is
    [False], and the input with one token replaced or removed when it is
    [True]; its length is that of the input or one less. *)
Theorem processSent_single_edit
  (sent s : list string) (b : bool) (res : Resources) (args : Args) :
  Forall (fun t => t <> "") sent ->
  processSent sent res args = Ok (s, b) ->
  (b = false -> s = sent)
  /\ (b = true ->
      exists p cand, p < List.length sent /\ s = edited sent p cand)
  /\ List.length s <= List.length sent
  /\ List.length sent <= List.length s + 1.
Proof.
  intros Hs H. destruct b.
  - destruct (processSent_edit sent s res args Hs H)
      as [p [e [Hlt [Hh _]]]].
    split; [discriminate|].
    split; [intros _; exists p, (edit_cand e); auto|].
    rewrite Hh. apply edited_length_bounds. exact Hlt.
  - apply processSent_false in H. subst s.
    split; [reflexivity|]. split; [discriminate|]. lia.
Qed.

Lemma processSent_single_edit_witness :
  Forall (fun t => t <> "") ["a"; "apple"]
  /\ processSent ["a"; "apple"] Demo.res (Demo.args (3 # 4))
     = Ok (["an"; "apple"], true)
  /\ exists p cand,
       p < List.length ["a"; "apple"]
       /\ ["an"; "apple"] = edited ["a"; "apple"] p cand.
Proof.
  assert (H1 : Forall (fun t : string => t <> "") ["a"; "apple"])
    by (repeat constructor; discriminate).
  assert (H2 : processSent ["a"; "apple"] Demo.res (Demo.args (3 # 4))
               = Ok (["an"; "apple"], true)) by (vm_compute; reflexivity).
  split; [exact H1|]. split; [exact H2|].
  exact (proj1 (proj2 (processSent_single_edit ["a"; "apple"]
                         ["an"; "apple"] true Demo.res (Demo.args (3 # 4))
                         H1 H2)) eq_refl).
Defined.

(** ** The correction loop as a whole *)




Lemma correct_last_sweep (res : Resources) (args : Args) (fuel : nat) :
  forall sent s,
    correct fuel sent res args = Some (Ok s) ->
    processSent s res args = Ok (s, false).
Proof.
  induction fuel as [|fuel IH]; intros sent s H; simpl in H.
  - discriminate.
  - destruct (processSent sent res args) as [[s' b]|e] eqn:E;
      [|discriminate].
    destruct b.
    + apply (IH s' s H).
    + inversion H; subst s'.
      pose proof (processSent_false sent s res args E). subst s. exact E.
Qed.

(** X8: the output of the correction loop is stable: a further sweep on it
    changes nothing, and running the loop on it again returns it after one
    sweep. *)
Theorem correct_fixed_point
  (fuel : nat) (sent s : list string) (res : Resources) (args : Args) :
  correct fuel sent res args = Some (Ok s) ->
  processSent s res args = Ok (s, false)
  /\ forall n, correct (S n) s res args = Some (Ok s).
Proof.
  intros H.
  pose proof (correct_last_sweep res args fuel sent s H) as Hp.
  split; [exact Hp|].
  intros n. simpl. rewrite Hp. reflexivity.
Qed.

Lemma correct_fixed_point_witness :
  correct 5 ["she"; "bought"; "a"; "apple"] Demo.res (Demo.args (3 # 4))
  = Some (Ok ["she"; "bought"; "an"; "apple"])
  /\ processSent ["she"; "bought"; "an"; "apple"] Demo.res
       (Demo.args (3 # 4))
     = Ok (["she"; "bought"; "an"; "apple"], false).
Proof.
  assert (H : correct 5 ["she"; "bought"; "a"; "apple"] Demo.res
                (Demo.args (3 # 4))
              = Some (Ok ["she"; "bought"; "an"; "apple"]))
    by (vm_compute; reflexivity).
  split; [exact H|].
  exact (proj1 (correct_fixed_point 5 _ _ Demo.res (Demo.args (3 # 4)) H)).
Defined.

Lemma processSent_raises_iff_witness :
  processSent [] Demo.res (Demo.args (3 # 4)) = Raise ZeroDivisionError.
Proof.
  exact (proj2 (processSent_raises_iff [] Demo.res (Demo.args (3 # 4))
                  ZeroDivisionError) (conj eq_refl eq_refl)).
Defined.

(** ** The threshold *)

(** X9: with a threshold of at most 1 and a baseline that is not positive,
    as log-probabilities are, a sweep accepts a hypothesis only if it scores
    strictly higher than the sentence: the score rises with every accepted
    edit. *)
Theorem processSent_accepts_improvement
  (sent s : list string) (res : Resources) (args : Args) :
  Forall (fun t => t <> "") sent ->
  (threshold args <= 1)%Q ->
  (baseline res sent <= 0)%Q ->
  processSent sent res args = Ok (s, true) ->
  (baseline res sent < hyp_score res s)%Q.
Proof.
  intros Hs Hth Hb H.
  destruct (processSent_edit sent s res args Hs H)
    as [p [e [_ [_ [Hw Hel]]]]].
  apply eligible_iff in Hel. simpl in Hel.
  set (b := baseline res sent) in *. set (x := hyp_score res s) in *.
  set (w := edit_weight e) in *. set (th := threshold args) in *.
  assert (Hwb : (w * b == th * b)%Q) by (rewrite Hw; reflexivity).
  nra.
Qed.

Lemma processSent_accepts_improvement_witness :
  Forall (fun t => t <> "") ["a"; "apple"]
  /\ (threshold (Demo.args (3 # 4)) <= 1)%Q
  /\ (baseline Demo.res ["a"; "apple"] <= 0)%Q
  /\ processSent ["a"; "apple"] Demo.res (Demo.args (3 # 4))
     = Ok (["an"; "apple"], true)
  /\ (baseline Demo.res ["a"; "apple"]
      < hyp_score Demo.res ["an"; "apple"])%Q.
Proof.
  assert (H1 : Forall (fun t : string => t <> "") ["a"; "apple"])
    by (repeat constructor; discriminate).
  assert (H2 : (threshold (Demo.args (3 # 4)) <= 1)%Q) by discriminate.
  assert (H3 : (baseline Demo.res ["a"; "apple"] <= 0)%Q)
    by (apply Qle_bool_iff; reflexivity).
  assert (H4 : processSent ["a"; "apple"] Demo.res (Demo.args (3 # 4))
               = Ok (["an"; "apple"], true)) by (vm_compute; reflexivity).
  split; [exact H1|]. split; [exact H2|]. split; [exact H3|].
  split; [exact H4|].
  exact (processSent_accepts_improvement ["a"; "apple"] ["an"; "apple"]
           Demo.res (Demo.args (3 # 4)) H1 H2 H3 H4).
Defined.

Lemma edited_same (sent : list string) (p : nat) (w : string) :
  nth_error sent p = Some w -> w <> "" -> edited sent p w = sent.
Proof.
  intros Hn Hw. unfold edited.
  destruct w as [|c w']; [congruence|]. simpl Py.flush.
  apply (firstn_skipn_middle p sent). exact Hn.
Qed.

Lemma contains_In (x : string) (l : list string) :
  Py.contains x l = true -> In x l.
Proof.
  unfold Py.contains. intros H. apply existsb_exists in H.
  destruct H as [y [Hy E]]. apply String.eqb_eq in E. subst. exact Hy.
Qed.

Lemma hyp_score_as_baseline (res : Resources) (sent : list string) :
  (lm_score res (doc_text res sent) == lm_score res (Py.join " " sent))%Q ->
  (hyp_score res sent == baseline res sent)%Q.
Proof.
  intros H. unfold hyp_score, baseline. rewrite H. reflexivity.
Qed.

(** X10: with a threshold above 1 and a negative baseline a sweep cannot
    signal convergence on a sentence that has a token which a source
    proposes as its own replacement (a determiner or a preposition of the
    lists, for one): the unchanged sentence is itself an eligible
    hypothesis, so some hypothesis is returned with [True].  The document
    text is taken to score like the tokens joined by spaces. *)
Theorem processSent_threshold_above_one
  (sent : list string) (res : Resources) (args : Args) (p : nat)
  (w : string) :
  Forall (fun t => t <> "") sent ->
  nth_error sent p = Some w ->
  In w (proposed res {| text := w; i := p;
                        lemma_ := doc_lemma res sent p |}) ->
  (1 < threshold args)%Q ->
  (baseline res sent < 0)%Q ->
  (lm_score res (doc_text res sent) == lm_score res (Py.join " " sent))%Q ->
  exists s, processSent sent res args = Ok (s, true).
Proof.
  intros Hs Hn Hprop Hth Hb Hlm.
  assert (Hne : sent <> []) by (intros ->; destruct p; discriminate).
  assert (Hw : w <> "").
  { rewrite Forall_forall in Hs. apply Hs.
    eapply nth_error_In; exact Hn. }
  assert (Hlt : p < List.length sent)
    by (apply nth_error_Some; rewrite Hn; discriminate).
  destruct (processSent_spec sent res args Hne)
    as [d [Hd [[Hnone _] | [n [e [h [_ [_ [_ Hp]]]]]]]]];
    [|exists h; exact Hp].
  exfalso.
  assert (Hhyp : hyp_of sent (Z.of_nat p) w = sent).
  { rewrite (hyp_of_edited sent (Z.of_nat p) w p Hs (index_of_nat _ _ Hlt)).
    apply edited_same; assumption. }
  pose proof Hd as Hd'. unfold candidates in Hd'.
  destruct (collect_holds sent res args _ _ _ Hd') as [_ A].
  destruct (A {| text := w; i := p; lemma_ := doc_lemma res sent p |} w)
    as [e [Hin _]];
    [apply processWithSpacy_nth; exact Hn | exact Hprop
     | simpl; rewrite Hhyp; exact Hne |].
  simpl in Hin. rewrite Hhyp in Hin.
  destruct (candidates_item sent res args d e sent Hd Hin)
    as [tok [_ [_ [_ [Hwt _]]]]]. simpl in Hwt.
  pose proof (Hnone (e, sent) Hin) as Hel.
  assert (Ht : eligible res sent (e, sent) = true).
  { apply eligible_iff. simpl.
    pose proof (hyp_score_as_baseline res sent Hlm) as Hsc.
    set (b := baseline res sent) in *.
    set (x := hyp_score res sent) in *.
    set (wt := edit_weight e) in *. set (th := threshold args) in *.
    assert (Hwb : (wt * b == th * b)%Q) by (rewrite Hwt; reflexivity).
    nra. }
  congruence.
Qed.

Lemma processSent_threshold_above_one_witness :
  Forall (fun t => t <> "") ["the"; "cat"]
  /\ nth_error ["the"; "cat"] 0 = Some "the"
  /\ In "the" (proposed Demo.res
                 {| text := "the"; i := 0;
                    lemma_ := doc_lemma Demo.res ["the"; "cat"] 0 |})
  /\ (1 < threshold (Demo.args 2))%Q
  /\ (baseline Demo.res ["the"; "cat"] < 0)%Q
  /\ (lm_score Demo.res (doc_text Demo.res ["the"; "cat"])
      == lm_score Demo.res (Py.join " " ["the"; "cat"]))%Q
  /\ exists s, processSent ["the"; "cat"] Demo.res (Demo.args 2)
               = Ok (s, true).
Proof.
  assert (H1 : Forall (fun t : string => t <> "") ["the"; "cat"])
    by (repeat constructor; discriminate).
  assert (H2 : nth_error ["the"; "cat"] 0 = Some "the") by reflexivity.
  assert (H3 : In "the" (proposed Demo.res
                 {| text := "the"; i := 0;
                    lemma_ := doc_lemma Demo.res ["the"; "cat"] 0 |}))
    by (vm_compute; auto).
  assert (H4 : (1 < threshold (Demo.args 2))%Q) by reflexivity.
  assert (H5 : (baseline Demo.res ["the"; "cat"] < 0)%Q) by reflexivity.
  assert (H6 : (lm_score Demo.res (doc_text Demo.res ["the"; "cat"])
                == lm_score Demo.res (Py.join " " ["the"; "cat"]))%Q)
    by reflexivity.
  split; [exact H1|]. split; [exact H2|]. split; [exact H3|].
  split; [exact H4|]. split; [exact H5|]. split; [exact H6|].
  exact (processSent_threshold_above_one ["the"; "cat"] Demo.res
           (Demo.args 2) 0 "the" H1 H2 H3 H4 H5 H6).
Defined.

(** ** More on the inflection database *)

Lemma lstrip_blank (s : string) :
  Py.sforall Py.is_space s = true -> Py.lstrip s = "".
Proof.
  induction s as [|c s IH]; simpl; [reflexivity|].
  intros H. apply andb_prop in H. destruct H as [Hc Hs].
  rewrite Hc. apply IH. exact Hs.
Qed.

(** X12: an empty inflection database, or one of whitespace only, does not
    give an empty dictionary: [loadWordFormDict] raises [IndexError]. *)
Theorem loadWordFormDict_blank (content : string) :
  Py.sforall Py.is_space content = true ->
  loadWordFormDict content = Raise IndexError.
Proof.
  intros H. unfold loadWordFormDict, entries_of, Py.strip.
  rewrite (lstrip_blank content H). reflexivity.
Qed.

Lemma loadWordFormDict_blank_witness :
  Py.sforall Py.is_space (" " ++ nl) = true
  /\ loadWordFormDict (" " ++ nl) = Raise IndexError.
Proof.
  assert (H : Py.sforall Py.is_space (" " ++ nl) = true) by reflexivity.
  split; [exact H|]. exact (loadWordFormDict_blank (" " ++ nl) H).
Defined.

Lemma loadWordFormDict_loop_app (a b : list string) :
  forall d0 d,
    loadWordFormDict_loop (a ++ b) d0 = Ok d ->
    exists d1,
      loadWordFormDict_loop a d0 = Ok d1
      /\ loadWordFormDict_loop b d1 = Ok d.
Proof.
  induction a as [|entry a IH]; intros d0 d H; simpl in *.
  - exists d0. auto.
  - bind_inv H. rewrite Ha. simpl. apply IH. exact H.
Qed.

Lemma loadWordFormDict_loop_other (w : string) (entries : list string) :
  (forall entry forms, In entry entries ->
                       parse_entry entry <> Ok (w, forms)) ->
  forall d0 d,
    loadWordFormDict_loop entries d0 = Ok d ->
    Py.dict_get String.eqb w d = Py.dict_get String.eqb w d0.
Proof.
  induction entries as [|entry rest IH]; intros Hno d0 d H; simpl in H.
  - inversion H; reflexivity.
  - bind_inv H. unfold loadWordFormDict_step in Ha.
    destruct (parse_entry entry) as [[w' forms]|x] eqn:Ep;
      simpl in Ha; [|discriminate].
    inversion Ha; subst a; clear Ha.
    rewrite (IH (fun e f Hin => Hno e f (or_intror Hin)) _ d H).
    apply (dict_get_set_other String.eqb String.eqb_eq).
    intros ->. exact (Hno entry forms (or_introl eq_refl) Ep).
Qed.

(** X13: when several lines of the database have the same lemma, the last
    one wins: after a successful load the set stored under a lemma is the
    lemma together with the forms of the last line of that lemma, and the
    forms of the earlier lines are gone. *)
Theorem loadWordFormDict_last_line_wins
  (content : string) (d : form_dict_t) (before after : list string)
  (entry w : string) (forms : list string) :
  loadWordFormDict content = Ok d ->
  entries_of content = before ++ entry :: after ->
  parse_entry entry = Ok (w, forms) ->
  (forall entry' forms',
      In entry' after -> parse_entry entry' <> Ok (w, forms')) ->
  Py.dict_get String.eqb w d = Some (Py.set (w :: forms)).
Proof.
  intros Hload Hsplit Hp Hlast.
  unfold loadWordFormDict in Hload. rewrite Hsplit in Hload.
  apply loadWordFormDict_loop_app in Hload.
  destruct Hload as [d1 [_ Hrest]].
  simpl in Hrest. bind_inv Hrest.
  rewrite (loadWordFormDict_step_Ok d1 entry w forms Hp) in Ha.
  inversion Ha; subst a; clear Ha.
  rewrite (loadWordFormDict_loop_other w after Hlast _ d Hrest).
  apply (dict_get_set_same String.eqb String.eqb_eq).
Qed.

Lemma loadWordFormDict_last_line_wins_witness :
  loadWordFormDict ("run V: ran runs" ++ nl ++ "run N: runs")
  = Ok [("run", ["run"; "runs"])]
  /\ entries_of ("run V: ran runs" ++ nl ++ "run N: runs")
     = ["run V: ran runs"] ++ "run N: runs" :: []
  /\ parse_entry "run N: runs" = Ok ("run", ["runs"])
  /\ Py.dict_get String.eqb "run" [("run", ["run"; "runs"])]
     = Some (Py.set ["run"; "runs"]).
Proof.
  assert (H1 : loadWordFormDict ("run V: ran runs" ++ nl ++ "run N: runs")
               = Ok [("run", ["run"; "runs"])]) by (vm_compute; reflexivity).
  assert (H2 : entries_of ("run V: ran runs" ++ nl ++ "run N: runs")
               = ["run V: ran runs"] ++ "run N: runs" :: [])
    by (vm_compute; reflexivity).
  assert (H3 : parse_entry "run N: runs" = Ok ("run", ["runs"]))
    by (vm_compute; reflexivity).
  split; [exact H1|]. split; [exact H2|]. split; [exact H3|].
  apply (loadWordFormDict_last_line_wins _ _ _ _ _ _ _ H1 H2 H3).
  intros entry' forms' [].
Defined.

Lemma flush_Forall (P : string -> Prop) (cur : string) :
  P cur -> Forall P (Py.flush cur).
Proof.
  intros H. destruct cur; simpl; constructor; [exact H | constructor].
Qed.

Lemma split_ws_no_space (s : string) :
  forall cur,
    Py.sexists Py.is_space cur = false ->
    Forall (fun t => Py.sexists Py.is_space t = false) (Py.split_ws cur s).
Proof.
  induction s as [|c s IH]; intros cur Hcur; simpl.
  - apply flush_Forall. exact Hcur.
  - destruct (Py.is_space c) eqn:E.
    + apply Forall_app. split; [apply flush_Forall; exact Hcur|].
      apply IH. reflexivity.
    + apply IH. rewrite sexists_app, Hcur. simpl. rewrite E. reflexivity.
Qed.

Lemma split_ws_chars (p : ascii -> bool) (s : string) :
  forall cur,
    Py.sexists p cur = false ->
    Py.sexists p s = false ->
    Forall (fun t => Py.sexists p t = false) (Py.split_ws cur s).
Proof.
  induction s as [|c s IH]; intros cur Hcur Hs; simpl in *.
  - apply flush_Forall. exact Hcur.
  - apply orb_false_iff in Hs. destruct Hs as [Hc Hs].
    destruct (Py.is_space c).
    + apply Forall_app. split; [apply flush_Forall; exact Hcur|].
      apply IH; [reflexivity | exact Hs].
    + apply IH; [|exact Hs].
      rewrite sexists_app, Hcur. simpl. rewrite Hc. reflexivity.
Qed.

Lemma sfilter_clean (p : ascii -> bool) (s : string) :
  Py.sexists p (Py.sfilter (fun c => negb (p c)) s) = false.
Proof.
  induction s as [|c s IH]; simpl; [reflexivity|].
  destruct (p c) eqn:E; simpl; [exact IH|].
  rewrite E, IH. reflexivity.
Qed.

Lemma sub_braces_chars (p : ascii -> bool) (s : string) :
  forall inside,
    Py.sexists p s = false ->
    Py.sexists p (sub_braces_from inside s) = false.
Proof.
  induction s as [|c s IH]; intros inside H; simpl in *; [reflexivity|].
  apply orb_false_iff in H. destruct H as [Hc Hs].
  destruct inside.
  - destruct (Ascii.eqb c "}"); apply IH; exact Hs.
  - destruct (Ascii.eqb c "{" && closes s).
    + apply IH. exact Hs.
    + simpl. rewrite Hc. apply IH. exact Hs.
Qed.

Lemma getitem_In {A : Type} (l : list A) (idx : Z) (a : A) :
  Py.getitem l idx = Ok a -> In a l.
Proof.
  unfold Py.getitem. intros H. bind_inv H.
  destruct (nth_error l a0) eqn:E; inversion H; subst.
  eapply nth_error_In. exact E.
Qed.

Lemma parse_entry_inv (entry w : string) (forms : list string) :
  parse_entry entry = Ok (w, forms) ->
  exists key x,
    In w (Py.split key)
    /\ forms = Py.split (sub_braces (sub_markup x)).
Proof.
  unfold parse_entry. intros H.
  bind_inv H. bind_inv H. bind_inv H. inversion H; subst.
  exists a, a0. split; [eapply getitem_In; exact Ha1 | reflexivity].
Qed.

(** X14: every word form stored by [loadWordFormDict] is a proper word:
    each set has no duplicates and contains its lemma, no member is empty
    or contains whitespace, and no member other than the lemma contains one
    of the markup characters [012~<,_!?.|]. *)
Theorem loadWordFormDict_forms_clean
  (content : string) (d : form_dict_t) (k : string) (fs : list string) :
  loadWordFormDict content = Ok d ->
  In (k, fs) d ->
  NoDup fs
  /\ In k fs
  /\ forall f,
       In f fs ->
       f <> ""
       /\ Py.sexists Py.is_space f = false
       /\ (f = k \/ Py.sexists markup_char f = false).
Proof.
  intros Hload Hin. unfold loadWordFormDict in Hload.
  destruct (loadWordFormDict_loop_inv (entries_of content) [] [] d)
    as [Hval _]; [intros k' v [] | intros e' w' f' [] | exact Hload |].
  destruct (Hval k fs Hin) as [entry [forms [_ [Hp Hv]]]].
  subst fs. unfold Py.set.
  split; [apply NoDup_nodup|].
  split; [apply nodup_In; left; reflexivity|].
  intros f Hf. apply nodup_In in Hf.
  destruct (parse_entry_inv entry k forms Hp) as [key [x [Hk Hforms]]].
  destruct Hf as [<-|Hf].
  - pose proof (split_ws_tokens key "") as Hne.
    pose proof (split_ws_no_space key "" eq_refl) as Hsp.
    rewrite Forall_forall in Hne, Hsp.
    split; [apply Hne; exact Hk|].
    split; [apply Hsp; exact Hk | left; reflexivity].
  - subst forms.
    pose proof (split_ws_tokens (sub_braces (sub_markup x)) "") as Hne.
    pose proof (split_ws_no_space (sub_braces (sub_markup x)) "" eq_refl)
      as Hsp.
    pose proof (split_ws_chars markup_char (sub_braces (sub_markup x)) ""
                  eq_refl
                  (sub_braces_chars markup_char (sub_markup x) false
                     (sfilter_clean markup_char x))) as Hmk.
    rewrite Forall_forall in Hne, Hsp, Hmk.
    split; [apply Hne; exact Hf|].
    split; [apply Hsp; exact Hf | right; apply Hmk; exact Hf].
Qed.

Lemma loadWordFormDict_forms_clean_witness :
  loadWordFormDict Demo.infl
  = Ok [("run", ["run"; "ran"; "running"; "runs"]);
        ("apple", ["apple"; "apples"]);
        ("be", ["be"; "was"; "were"; "been"; "is"])]
  /\ NoDup ["be"; "was"; "were"; "been"; "is"].
Proof.
  assert (H : loadWordFormDict Demo.infl
              = Ok [("run", ["run"; "ran"; "running"; "runs"]);
                    ("apple", ["apple"; "apples"]);
                    ("be", ["be"; "was"; "were"; "been"; "is"])])
    by (vm_compute; reflexivity).
  split; [exact H|].
  exact (proj1 (loadWordFormDict_forms_clean Demo.infl _ "be" _ H
                  (or_intror (or_intror (or_introl eq_refl))))).
Defined.

(** ** Bracketed annotations *)

Lemma closes_false (s : string) :
  closes s = false ->
  Py.sexists (fun x => Ascii.eqb x LF) s = false ->
  Py.sexists (fun x => Ascii.eqb x "}") s = false.
Proof.
  induction s as [|c s IH]; simpl; [reflexivity|].
  intros Hc Hlf. apply orb_false_iff in Hlf. destruct Hlf as [Hl Hs].
  destruct (Ascii.eqb c "}"); [discriminate|].
  rewrite Hl in Hc. simpl. apply IH; assumption.
Qed.

Lemma sub_braces_pair_free (s : string) :
  Py.sexists (fun x => Ascii.eqb x LF) s = false ->
  forall inside, pair_free (sub_braces_from inside s) = true.
Proof.
  induction s as [|c s IH]; intros Hlf inside; simpl in *; [reflexivity|].
  apply orb_false_iff in Hlf. destruct Hlf as [Hl Hs].
  destruct inside.
  - destruct (Ascii.eqb c "}"); apply IH; exact Hs.
  - destruct (Ascii.eqb c "{") eqn:E; simpl.
    + destruct (closes s) eqn:Ec.
      * apply IH. exact Hs.
      * simpl. rewrite E.
        rewrite (sub_braces_chars _ s false (closes_false s Ec Hs)).
        simpl. apply IH. exact Hs.
    + rewrite E. simpl. apply IH. exact Hs.
Qed.

Lemma pair_free_no_pair (r : string) :
  pair_free r = true -> ~ brace_pair r.
Proof.
  intros H [a [b [c ->]]].
  induction a as [|x a IH]; simpl in H.
  - rewrite sexists_app in H. simpl in H.
    rewrite orb_true_r in H. discriminate.
  - apply andb_prop in H. destruct H as [_ H]. exact (IH H).
Qed.

Lemma sfilter_chars (p q : ascii -> bool) (s : string) :
  Py.sexists p s = false -> Py.sexists p (Py.sfilter q s) = false.
Proof.
  induction s as [|c s IH]; simpl; [reflexivity|].
  intros H. apply orb_false_iff in H. destruct H as [Hc Hs].
  destruct (q c); simpl; [rewrite Hc|]; apply IH; exact Hs.
Qed.

Lemma split_by_chars (p : ascii -> bool) (sep : string) (s : string) :
  forall skip cur,
    Py.sexists p cur = false ->
    Py.sexists p s = false ->
    Forall (fun t => Py.sexists p t = false) (Py.split_by sep skip cur s).
Proof.
  induction s as [|c s IH]; intros skip cur Hcur Hs; cbn [Py.split_by].
  - constructor; [exact Hcur | constructor].
  - simpl in Hs. apply orb_false_iff in Hs. destruct Hs as [Hc Hs].
    destruct skip; [|apply IH; assumption].
    destruct (prefix sep (String c s)).
    + constructor; [exact Hcur|]. apply IH; [reflexivity | exact Hs].
    + apply IH; [|exact Hs].
      rewrite sexists_app, Hcur. simpl. rewrite Hc. reflexivity.
Qed.

Lemma prefix_nl (c : ascii) (s : string) :
  prefix nl (String c s) = false -> Ascii.eqb c LF = false.
Proof.
  unfold nl. cbn [prefix].
  destruct (ascii_dec LF c) as [<-|Hne].
  - destruct s; discriminate.
  - intros _. apply Ascii.eqb_neq. congruence.
Qed.

(** The lines of the database hold no line feed. *)
Lemma split_nl_lines (s : string) :
  forall cur,
    Py.sexists (fun x => Ascii.eqb x LF) cur = false ->
    Forall (fun t => Py.sexists (fun x => Ascii.eqb x LF) t = false)
           (Py.split_by nl 0 cur s).
Proof.
  induction s as [|c s IH]; intros cur Hcur; cbn [Py.split_by].
  - constructor; [exact Hcur | constructor].
  - destruct (prefix nl (String c s)) eqn:E.
    + constructor; [exact Hcur|]. apply IH. reflexivity.
    + apply IH. rewrite sexists_app, Hcur. simpl.
      rewrite (prefix_nl c s E). reflexivity.
Qed.

(** X15: the substitution for [\{.*?\}] leaves no bracketed annotation
    behind in a string without line feed, and so none in the forms text of
    any line of the database: after it no opening brace is followed by a
    closing brace. *)
Theorem sub_braces_leaves_no_pair :
  (forall s,
      Py.sexists (fun x => Ascii.eqb x LF) s = false ->
      ~ brace_pair (sub_braces s))
  /\ (forall content entry part,
        In entry (entries_of content) ->
        In part (Py.split_sep ": " entry) ->
        ~ brace_pair (sub_braces (sub_markup part))).
Proof.
  assert (H : forall s,
             Py.sexists (fun x => Ascii.eqb x LF) s = false ->
             ~ brace_pair (sub_braces s)).
  { intros s Hs. apply pair_free_no_pair.
    apply sub_braces_pair_free. exact Hs. }
  split; [exact H|].
  intros content entry part He Hpart. apply H.
  apply sfilter_chars.
  pose proof (split_nl_lines (Py.strip content) "" eq_refl) as Hlines.
  rewrite Forall_forall in Hlines.
  pose proof (split_by_chars (fun x => Ascii.eqb x LF) ": " entry 0 ""
                eq_refl (Hlines entry He)) as Hparts.
  rewrite Forall_forall in Hparts. apply Hparts. exact Hpart.
Qed.

Lemma sub_braces_leaves_no_pair_witness :
  Py.sexists (fun x => Ascii.eqb x LF) "was {a{b} been {c" = false
  /\ sub_braces "was {a{b} been {c" = "was  been {c"
  /\ ~ brace_pair (sub_braces "was {a{b} been {c").
Proof.
  assert (H : Py.sexists (fun x => Ascii.eqb x LF) "was {a{b} been {c"
              = false) by reflexivity.
  split; [exact H|]. split; [reflexivity|].
  exact (proj1 sub_braces_leaves_no_pair "was {a{b} been {c" H).
Defined.

(** ** Lines are independent *)

Lemma main_loop_Forall2 (fuel : nat) (res : Resources) (args : Args)
  (sents lines : list string) :
  Forall2 (fun sent line => main_line fuel res args sent = Some (Ok line))
          sents lines ->
  forall out0,
    main_loop fuel res args sents out0 = Some (Ok (out0 ++ lines)).
Proof.
  induction 1 as [|sent line sents lines Hl Hrest IH]; intros out0; simpl.
  - rewrite app_nil_r. reflexivity.
  - rewrite Hl, IH, <- app_assoc. reflexivity.
Qed.

Lemma main_Forall2 (fuel : nat) (res : Resources) (args : Args)
  (sents out : list string) :
  main fuel res args sents = Some (Ok out)
  <-> Forall2 (fun sent line => main_line fuel res args sent = Some (Ok line))
              sents out.
Proof.
  unfold main. split.
  - intros H.
    destruct (main_loop_spec fuel res args sents [])
      as [[Hn _] | [lines [Hm Hf]]]; rewrite H in *; [discriminate|].
    inversion Hm; subst. exact Hf.
  - intros Hf. apply (main_loop_Forall2 fuel res args sents out Hf []).
Qed.

(** X18: the lines of the input are corrected independently of each other:
    the output for two inputs put one after the other is the output for the
    first followed by the output for the second, and a run on the whole
    splits in this way. *)
Theorem main_app
  (fuel : nat) (res : Resources) (args : Args) (a b : list string) :
  (forall oa ob,
      main fuel res args a = Some (Ok oa) ->
      main fuel res args b = Some (Ok ob) ->
      main fuel res args (a ++ b) = Some (Ok (oa ++ ob)))
  /\ (forall out,
        main fuel res args (a ++ b) = Some (Ok out) ->
        exists oa ob,
          out = oa ++ ob
          /\ main fuel res args a = Some (Ok oa)
          /\ main fuel res args b = Some (Ok ob)).
Proof.
  split.
  - intros oa ob Ha Hb. apply main_Forall2.
    apply Forall2_app; apply main_Forall2; assumption.
  - intros out H. apply main_Forall2 in H.
    apply Forall2_app_inv_l in H.
    destruct H as [oa [ob [Ha [Hb ->]]]].
    exists oa, ob. split; [reflexivity|].
    split; apply main_Forall2; assumption.
Qed.

Lemma main_app_witness :
  main 5 Demo.res (Demo.args (3 # 4)) [("a apple" ++ nl)%string]
  = Some (Ok [("An apple" ++ nl)%string])
  /\ main 5 Demo.res (Demo.args (3 # 4)) [nl] = Some (Ok [nl])
  /\ main 5 Demo.res (Demo.args (3 # 4)) ([("a apple" ++ nl)%string] ++ [nl])
     = Some (Ok ([("An apple" ++ nl)%string] ++ [nl])).
Proof.
  assert (H1 : main 5 Demo.res (Demo.args (3 # 4)) [("a apple" ++ nl)%string]
               = Some (Ok [("An apple" ++ nl)%string]))
    by (vm_compute; reflexivity).
  assert (H2 : main 5 Demo.res (Demo.args (3 # 4)) [nl] = Some (Ok [nl]))
    by (vm_compute; reflexivity).
  split; [exact H1|]. split; [exact H2|].
  exact (proj1 (main_app 5 Demo.res (Demo.args (3 # 4)) _ _) _ _ H1 H2).
Defined.

(** ** Each edit once *)

Section DistinctKeys.
Context {K V : Type} (eqb : K -> K -> bool).

Lemma dict_set_keys_other (k0 k : K) (v : V) (d : list (K * V)) :
  eqb k0 k = false ->
  Forall (fun kv => eqb k0 (fst kv) = false) d ->
  Forall (fun kv => eqb k0 (fst kv) = false) (Py.dict_set eqb k v d).
Proof.
  intros Hk Hd.
  induction Hd as [|[k' v'] d Hx Hd IH]; simpl.
  - constructor; [exact Hk | constructor].
  - destruct (eqb k' k); constructor; auto.
Qed.

Lemma dict_set_keys_distinct (k : K) (v : V) (d : list (K * V)) :
  keys_distinct eqb d -> keys_distinct eqb (Py.dict_set eqb k v d).
Proof.
  induction d as [|[k' v'] d IH]; simpl.
  - intros _. split; [constructor | exact I].
  - intros [Hhd Htl]. destruct (eqb k' k) eqn:E; simpl.
    + split; assumption.
    + split; [apply dict_set_keys_other; assumption | apply IH; exact Htl].
Qed.

Lemma dict_update_keys_distinct (d2 : list (K * V)) :
  forall d,
    keys_distinct eqb d -> keys_distinct eqb (Py.dict_update eqb d d2).
Proof.
  unfold Py.dict_update.
  induction d2 as [|[k v] d2 IH]; intros d Hd; simpl.
  - exact Hd.
  - apply IH. apply dict_set_keys_distinct. exact Hd.
Qed.

Lemma keys_distinct_nth (d : list (K * V)) :
  keys_distinct eqb d ->
  forall m n k1 v1 k2 v2,
    m < n ->
    nth_error d m = Some (k1, v1) ->
    nth_error d n = Some (k2, v2) ->
    eqb k1 k2 = false.
Proof.
  induction d as [|[k v] d IH]; intros Hd m n k1 v1 k2 v2 Hlt Hm Hn.
  - destruct m; discriminate.
  - destruct Hd as [Hhd Htl].
    destruct n as [|n]; [lia|]. simpl in Hn.
    destruct m as [|m]; simpl in Hm.
    + inversion Hm; subst. rewrite Forall_forall in Hhd.
      apply (Hhd (k2, v2)). eapply nth_error_In. exact Hn.
    + apply (IH Htl m n k1 v1 k2 v2); [lia | assumption | assumption].
Qed.

End DistinctKeys.

Lemma collect_keys_distinct (sent : list string) (res : Resources)
  (args : Args) (toks : list Token) :
  forall cand_dict d,
    keys_distinct edit_eqb cand_dict ->
    collect sent res args toks cand_dict = Ok d ->
    keys_distinct edit_eqb d.
Proof.
  assert (Hadd : forall tok_id cands cd d',
             keys_distinct edit_eqb cd ->
             add_cands tok_id cands sent (threshold args) cd = Ok d' ->
             keys_distinct edit_eqb d').
  { intros tok_id cands cd d' Hcd H. unfold add_cands in H. bind_inv H.
    inversion H; subst. apply dict_update_keys_distinct. exact Hcd. }
  induction toks as [|tok rest IH]; intros cand_dict d Hcd H; simpl in H.
  - inversion H; subst. exact Hcd.
  - bind_inv H. apply (IH a d); [|exact H]. clear H IH.
    unfold collect_token in Ha. cbv zeta in Ha.
    bind_inv Ha. bind_inv Ha. bind_inv Ha.
    assert (H0 : keys_distinct edit_eqb a0).
    { destruct (Py.isalpha (text tok) && negb (gb_spell res (text tok)));
        [destruct (Py.nonempty (gb_suggest res (text tok)))|];
        try (inversion Ha0; subst; exact Hcd).
      eapply Hadd; eauto. }
    assert (H1 : keys_distinct edit_eqb a1).
    { destruct (Py.dict_get String.eqb (lemma_ tok) (gb_infl res));
        [eapply Hadd; eauto | inversion Ha1; subst; exact H0]. }
    assert (H2 : keys_distinct edit_eqb a2).
    { destruct (Py.contains (text tok) (det res));
        [eapply Hadd; eauto | inversion Ha2; subst; exact H1]. }
    destruct (Py.contains (text tok) (prep res));
      [eapply Hadd; eauto | inversion Ha; subst; exact H2].
Qed.

(** X19: an edit occurs once in the candidate dictionary of a sweep, however
    many sources propose it: two different entries never name the same token
    and the same candidate, so no hypothesis is scored twice for one edit. *)
Theorem candidates_each_edit_once
  (sent : list string) (res : Resources) (args : Args) (d : cand_dict_t)
  (m n : nat) (e1 e2 : edit) (h1 h2 : list string) :
  candidates sent res args = Ok d ->
  nth_error d m = Some (e1, h1) ->
  nth_error d n = Some (e2, h2) ->
  m <> n ->
  edit_tok_id e1 <> edit_tok_id e2 \/ edit_cand e1 <> edit_cand e2.
Proof.
  intros Hd Hm Hn Hmn.
  assert (Hk : keys_distinct edit_eqb d).
  { unfold candidates in Hd.
    apply (collect_keys_distinct sent res args _ [] d I Hd). }
  destruct (candidates_item sent res args d e1 h1 Hd
              (nth_error_In _ _ Hm)) as [t1 [_ [_ [_ [Hw1 _]]]]].
  destruct (candidates_item sent res args d e2 h2 Hd
              (nth_error_In _ _ Hn)) as [t2 [_ [_ [_ [Hw2 _]]]]].
  simpl in Hw1, Hw2.
  assert (Hw : Qeq_bool (edit_weight e1) (edit_weight e2) = true).
  { apply Qeq_bool_iff. rewrite Hw1, Hw2. reflexivity. }
  assert (Hf : edit_eqb e1 e2 = false).
  { destruct (Nat.lt_ge_cases m n) as [Hlt|Hge].
    - apply (keys_distinct_nth edit_eqb d Hk m n e1 h1 e2 h2 Hlt Hm Hn).
    - assert (Hlt : n < m) by lia.
      pose proof (keys_distinct_nth edit_eqb d Hk n m e2 h2 e1 h1 Hlt Hn Hm)
        as Hf.
      unfold edit_eqb in *. rewrite Z.eqb_sym, String.eqb_sym, Qeq_bool_comm.
      exact Hf. }
  unfold edit_eqb in Hf. rewrite Hw, andb_true_r in Hf.
  apply andb_false_iff in Hf. destruct Hf as [Hf|Hf].
  - left. apply Z.eqb_neq. exact Hf.
  - right. apply String.eqb_neq. exact Hf.
Qed.

Lemma candidates_each_edit_once_witness :
  candidates ["for"] Demo.res_pos (Demo.args 1)
  = Ok [(((0%Z, "about"), 1%Q), ["about"]);
        (((0%Z, "at"), 1%Q), ["at"]);
        (((0%Z, "by"), 1%Q), ["by"]);
        (((0%Z, "for"), 1%Q), ["for"]);
        (((0%Z, "from"), 1%Q), ["from"]);
        (((0%Z, "in"), 1%Q), ["in"]);
        (((0%Z, "of"), 1%Q), ["of"]);
        (((0%Z, "on"), 1%Q), ["on"]);
        (((0%Z, "to"), 1%Q), ["to"]);
        (((0%Z, "with"), 1%Q), ["with"])]
  /\ 0 <> 1
  /\ (edit_tok_id ((0%Z, "about"), 1%Q) <> edit_tok_id ((0%Z, "at"), 1%Q)
      \/ edit_cand ((0%Z, "about"), 1%Q) <> edit_cand ((0%Z, "at"), 1%Q)).
Proof.
  assert (H : candidates ["for"] Demo.res_pos (Demo.args 1)
              = Ok [(((0%Z, "about"), 1%Q), ["about"]);
                    (((0%Z, "at"), 1%Q), ["at"]);
                    (((0%Z, "by"), 1%Q), ["by"]);
                    (((0%Z, "for"), 1%Q), ["for"]);
                    (((0%Z, "from"), 1%Q), ["from"]);
                    (((0%Z, "in"), 1%Q), ["in"]);
                    (((0%Z, "of"), 1%Q), ["of"]);
                    (((0%Z, "on"), 1%Q), ["on"]);
                    (((0%Z, "to"), 1%Q), ["to"]);
                    (((0%Z, "with"), 1%Q), ["with"])])
    by (vm_compute; reflexivity).
  assert (Hne : 0 <> 1) by discriminate.
  split; [exact H|]. split; [exact Hne|].
  exact (candidates_each_edit_once ["for"] Demo.res_pos (Demo.args 1) _
           0 1 _ _ _ _ H eq_refl eq_refl Hne).
Defined.

(** ** Determiners and prepositions *)

Lemma candidates_has_edit (sent : list string) (res : Resources)
  (args : Args) (d : cand_dict_t) (p : nat) (w cand : string) :
  Forall (fun t => t <> "") sent ->
  candidates sent res args = Ok d ->
  nth_error sent p = Some w ->
  In cand (proposed res {| text := w; i := p;
                           lemma_ := doc_lemma res sent p |}) ->
  cand <> "" \/ 2 <= List.length sent ->
  has_edit d (Z.of_nat p) cand (edited sent p cand).
Proof.
  intros Hs Hd Hn Hc Hok.
  assert (Hlt : p < List.length sent)
    by (apply nth_error_Some; rewrite Hn; discriminate).
  pose proof (index_of_nat _ _ Hlt) as Hp.
  apply (edited_nonempty_iff sent p cand Hlt) in Hok.
  rewrite <- (hyp_of_edited sent (Z.of_nat p) cand p Hs Hp) in *.
  unfold candidates in Hd.
  destruct (collect_holds sent res args _ _ _ Hd) as [_ A].
  apply (A {| text := w; i := p; lemma_ := doc_lemma res sent p |} cand);
    [apply processWithSpacy_nth; exact Hn | exact Hc | exact Hok].
Qed.

Lemma In_contains (x : string) (l : list string) :
  In x l -> Py.contains x l = true.
Proof.
  intros H. unfold Py.contains. apply existsb_exists.
  exists x. split; [exact H | apply String.eqb_refl].
Qed.

Lemma proposed_det (res : Resources) (tok : Token) (c : string) :
  In (text tok) (det res) -> In c (det res) -> In c (proposed res tok).
Proof.
  intros Hw Hc. unfold proposed. rewrite (In_contains _ _ Hw).
  apply in_or_app. right. apply in_or_app. right.
  apply in_or_app. left. exact Hc.
Qed.

Lemma proposed_prep (res : Resources) (tok : Token) (c : string) :
  In (text tok) (prep res) -> In c (prep res) -> In c (proposed res tok).
Proof.
  intros Hw Hc. unfold proposed. rewrite (In_contains _ _ Hw).
  apply in_or_app. right. apply in_or_app. right.
  apply in_or_app. right. exact Hc.
Qed.

(** X20: with the resources that [loadResources] builds, a sweep offers for
    every determiner of the sentence each of [the], [a] and [an] in its
    place and, unless it is the only token, its removal; and likewise for
    every preposition each preposition of the list and its removal. *)
Theorem loadResources_closed_class_edits
  (lm : string -> Q) (nlp_text : list string -> string)
  (nlp_lemma : list string -> nat -> string) (spell : string -> bool)
  (suggest : string -> list string) (infl : string) (res : Resources)
  (args : Args) (sent : list string) (d : cand_dict_t) (p : nat)
  (w c : string) :
  loadResources lm nlp_text nlp_lemma spell suggest infl = Ok res ->
  Forall (fun t => t <> "") sent ->
  candidates sent res args = Ok d ->
  nth_error sent p = Some w ->
  c <> "" \/ 2 <= List.length sent ->
  (In w ["the"; "a"; "an"] -> In c [""; "the"; "a"; "an"] ->
   has_edit d (Z.of_nat p) c (edited sent p c))
  /\ (In w ["about"; "at"; "by"; "for"; "from"; "in"; "of"; "on"; "to";
            "with"] ->
      In c [""; "about"; "at"; "by"; "for"; "from"; "in"; "of"; "on"; "to";
            "with"] ->
      has_edit d (Z.of_nat p) c (edited sent p c)).
Proof.
  intros Hload Hs Hd Hn Hok.
  unfold loadResources in Hload. bind_inv Hload.
  inversion Hload; subst res; clear Hload.
  split; intros Hw Hc;
    apply (candidates_has_edit sent _ args d p w c Hs Hd Hn); auto.
  - apply proposed_det; simpl; [right; exact Hw | exact Hc].
  - apply proposed_prep; simpl; [right; exact Hw | exact Hc].
Qed.

Lemma loadResources_closed_class_edits_witness :
  loadResources Demo.lm (Py.join " ") (fun sent pos => nth pos sent "")
    (fun _ => true) (fun _ => []) Demo.infl
  = Ok {| lm_score := Demo.lm;
          doc_text := Py.join " ";
          doc_lemma := fun sent pos => nth pos sent "";
          gb_spell := fun _ => true;
          gb_suggest := fun _ => [];
          gb_infl := [("run", ["run"; "ran"; "running"; "runs"]);
                      ("apple", ["apple"; "apples"]);
                      ("be", ["be"; "was"; "were"; "been"; "is"])];
          det := [""; "the"; "a"; "an"];
          prep := [""; "about"; "at"; "by"; "for"; "from"; "in"; "of"; "on";
                   "to"; "with"] |}
  /\ Forall (fun t => t <> "") ["a"; "cat"]
  /\ nth_error ["a"; "cat"] 0 = Some "a"
  /\ exists d,
       candidates ["a"; "cat"]
         {| lm_score := Demo.lm;
            doc_text := Py.join " ";
            doc_lemma := fun sent pos => nth pos sent "";
            gb_spell := fun _ => true;
            gb_suggest := fun _ => [];
            gb_infl := [("run", ["run"; "ran"; "running"; "runs"]);
                        ("apple", ["apple"; "apples"]);
                        ("be", ["be"; "was"; "were"; "been"; "is"])];
            det := [""; "the"; "a"; "an"];
            prep := [""; "about"; "at"; "by"; "for"; "from"; "in"; "of";
                     "on"; "to"; "with"] |} (Demo.args (3 # 4)) = Ok d
       /\ has_edit d 0 "" (edited ["a"; "cat"] 0 "").
Proof.
  assert (H1 : loadResources Demo.lm (Py.join " ")
                 (fun sent pos => nth pos sent "")
                 (fun _ => true) (fun _ => []) Demo.infl
               = Ok {| lm_score := Demo.lm;
                       doc_text := Py.join " ";
                       doc_lemma := fun sent pos => nth pos sent "";
                       gb_spell := fun _ => true;
                       gb_suggest := fun _ => [];
                       gb_infl := [("run", ["run"; "ran"; "running"; "runs"]);
                                   ("apple", ["apple"; "apples"]);
                                   ("be", ["be"; "was"; "were"; "been";
                                           "is"])];
                       det := [""; "the"; "a"; "an"];
                       prep := [""; "about"; "at"; "by"; "for"; "from"; "in";
                                "of"; "on"; "to"; "with"] |})
    by (vm_compute; reflexivity).
  assert (H2 : Forall (fun t : string => t <> "") ["a"; "cat"])
    by (repeat constructor; discriminate).
  assert (H3 : nth_error ["a"; "cat"] 0 = Some "a") by reflexivity.
  split; [exact H1|]. split; [exact H2|]. split; [exact H3|].
  destruct (candidates_total ["a"; "cat"]
              {| lm_score := Demo.lm;
                 doc_text := Py.join " ";
                 doc_lemma := fun sent pos => nth pos sent "";
                 gb_spell := fun _ => true;
                 gb_suggest := fun _ => [];
                 gb_infl := [("run", ["run"; "ran"; "running"; "runs"]);
                             ("apple", ["apple"; "apples"]);
                             ("be", ["be"; "was"; "were"; "been"; "is"])];
                 det := [""; "the"; "a"; "an"];
                 prep := [""; "about"; "at"; "by"; "for"; "from"; "in"; "of";
                          "on"; "to"; "with"] |} (Demo.args (3 # 4)))
    as [d Hd].
  exists d. split; [exact Hd|].
  apply (proj1 (loadResources_closed_class_edits _ _ _ _ _ _ _
                  (Demo.args (3 # 4)) ["a"; "cat"] d 0 "a" ""
                  H1 H2 Hd H3 (or_intror (le_n 2)))).
  - right. left. reflexivity.
  - left. reflexivity.
Defined.


(** * The program on the interpreter's floats and strings *)

Section Interpreter.
Variable py : Interp.

(** ** The candidates of a sweep *)

Lemma collect_token_in_Forall (P : edit * list string -> Prop)
  (sent : list string) (res : Resources) (args : Args) (tok : Token)
  (cand_dict d : cand_dict_t) :
  (forall k k' v, P (k, v) -> edit_eqb k' k = true -> P (k', v)) ->
  (forall tok_id cands d',
      generateCands tok_id cands sent (threshold args) = Ok d' ->
      Forall P d') ->
  Forall P cand_dict ->
  collect_token_in py sent res args cand_dict tok = Ok d ->
  Forall P d.
Proof.
  intros Hkey Hgen Hcd H. unfold collect_token_in in H.
  bind_inv H. bind_inv H. bind_inv H.
  assert (H0 : Forall P a).
  { destruct (str_isalpha py (text tok) && negb (gb_spell res (text tok))).
    - destruct (Py.nonempty (gb_suggest res (text tok))).
      + eapply add_cands_Forall; eauto.
      + inversion Ha; subst; exact Hcd.
    - inversion Ha; subst; exact Hcd. }
  assert (H1 : Forall P a0).
  { destruct (Py.dict_get String.eqb (lemma_ tok) (gb_infl res)).
    - eapply add_cands_Forall; eauto.
    - inversion Ha0; subst; exact H0. }
  assert (H2 : Forall P a1).
  { destruct (Py.contains (text tok) (det res)).
    - eapply add_cands_Forall; eauto.
    - inversion Ha1; subst; exact H1. }
  destruct (Py.contains (text tok) (prep res)).
  - eapply add_cands_Forall; eauto.
  - inversion H; subst; exact H2.
Qed.

Lemma collect_in_Forall (P : edit * list string -> Prop)
  (sent : list string) (res : Resources) (args : Args) (toks : list Token) :
  (forall k k' v, P (k, v) -> edit_eqb k' k = true -> P (k', v)) ->
  (forall tok_id cands d',
      generateCands tok_id cands sent (threshold args) = Ok d' ->
      Forall P d') ->
  forall cand_dict d,
    Forall P cand_dict ->
    collect_in py sent res args toks cand_dict = Ok d ->
    Forall P d.
Proof.
  intros Hkey Hgen.
  induction toks as [|tok rest IH]; intros cand_dict d Hcd H; simpl in H.
  - inversion H; subst. exact Hcd.
  - bind_inv H. apply (IH a d); [|exact H].
    eapply collect_token_in_Forall; eauto.
Qed.

Lemma candidates_in_sound (sent : list string) (res : Resources) (args : Args)
  (d : cand_dict_t) :
  candidates_in py sent res args = Ok d -> Forall sound_hyp d.
Proof.
  unfold candidates_in. intros H.
  eapply collect_in_Forall; [| |constructor|exact H].
  - intros k k' v Hs _. exact Hs.
  - intros tok_id cands d'. apply generateCands_sound.
Qed.

Lemma collect_token_in_total (sent : list string) (res : Resources)
  (args : Args) (tok : Token) (cand_dict : cand_dict_t) :
  i tok < List.length sent ->
  exists d, collect_token_in py sent res args cand_dict tok = Ok d.
Proof.
  intros H. unfold collect_token_in. cbv zeta.
  assert (Hadd : forall cands cd,
             exists d, add_cands (Z.of_nat (i tok)) cands sent
                         (threshold args) cd = Ok d).
  { intros cands cd. apply add_cands_total. exact H. }
  assert (H0 : exists a,
    (if str_isalpha py (text tok) && negb (gb_spell res (text tok))
     then
       if Py.nonempty (gb_suggest res (text tok))
       then add_cands (Z.of_nat (i tok)) (gb_suggest res (text tok)) sent
              (threshold args) cand_dict
       else Ok cand_dict
     else Ok cand_dict) = Ok a).
  { destruct (str_isalpha py (text tok) && negb (gb_spell res (text tok)));
      [|eexists; reflexivity].
    destruct (Py.nonempty (gb_suggest res (text tok)));
      [apply Hadd|eexists; reflexivity]. }
  destruct H0 as [a0 ->]. simpl.
  assert (H1 : exists a,
    (match Py.dict_get String.eqb (lemma_ tok) (gb_infl res) with
     | Some cands =>
         add_cands (Z.of_nat (i tok)) cands sent (threshold args) a0
     | None => Ok a0
     end) = Ok a).
  { destruct (Py.dict_get String.eqb (lemma_ tok) (gb_infl res));
      [apply Hadd|eexists; reflexivity]. }
  destruct H1 as [a1 ->]. simpl.
  assert (H2 : exists a,
    (if Py.contains (text tok) (det res)
     then add_cands (Z.of_nat (i tok)) (det res) sent (threshold args) a1
     else Ok a1) = Ok a).
  { destruct (Py.contains (text tok) (det res));
      [apply Hadd|eexists; reflexivity]. }
  destruct H2 as [a2 ->]. simpl.
  destruct (Py.contains (text tok) (prep res));
    [apply Hadd|eexists; reflexivity].
Qed.

Lemma collect_in_total (sent : list string) (res : Resources) (args : Args)
  (toks : list Token) :
  Forall (fun tok => i tok < List.length sent) toks ->
  forall cand_dict, exists d, collect_in py sent res args toks cand_dict = Ok d.
Proof.
  induction 1 as [|tok rest Htok Hrest IH]; intros cand_dict; simpl.
  - exists cand_dict. reflexivity.
  - destruct (collect_token_in_total sent res args tok cand_dict Htok)
      as [d' ->].
    simpl. apply IH.
Qed.

(** Collecting the candidates of a sweep never raises. *)
Lemma candidates_in_total (sent : list string) (res : Resources) (args : Args) :
  exists d, candidates_in py sent res args = Ok d.
Proof.
  unfold candidates_in, processWithSpacy.
  apply collect_in_total. apply tokens_from_bound. simpl. lia.
Qed.

(** ** The selection loop *)

Lemma avg_prob_in_hyp (res : Resources) (h : list string) :
  h <> [] ->
  avg_prob_in py res (Py.join " " h) (List.length h) = Ok (cand_prob py res h).
Proof.
  intros Hh. destruct h as [|t h']; [congruence|]. reflexivity.
Qed.

Lemma avg_prob_in_baseline (res : Resources) (sent : list string) :
  sent <> [] ->
  avg_prob_in py res (doc_text res sent)
    (List.length (processWithSpacy sent res))
  = Ok (orig_prob py res sent).
Proof.
  intros Hs. rewrite processWithSpacy_length.
  destruct sent as [|t s']; [congruence|]. reflexivity.
Qed.

Lemma select_step_in_eq (res : Resources) (sent : list string) (best : best_t)
  (e : edit) (h : list string) :
  h <> [] ->
  select_step_in py res (orig_prob py res sent) best (e, h)
  = Ok (if eligible_in py res sent (e, h)
           && Py.gt_inf (cand_prob py res h) (fst best)
        then (Some (cand_prob py res h), h)
        else best).
Proof.
  intros Hh. unfold select_step_in. destruct best as [bp bs].
  rewrite avg_prob_in_hyp by exact Hh. unfold eligible_in. simpl.
  destruct (Py.gt (cand_prob py res h)
              (fl_mul py (edit_weight e) (orig_prob py res sent))
            && Py.gt_inf (cand_prob py res h) bp); reflexivity.
Qed.

Section SelectionIn.
Variables (res : Resources) (sent : list string).

Lemma sel_inv_in_step (pre : cand_dict_t) (best : best_t)
  (e : edit) (h : list string) :
  sel_inv_in py res sent pre best ->
  sel_inv_in py res sent (pre ++ [(e, h)])
    (if eligible_in py res sent (e, h)
        && Py.gt_inf (cand_prob py res h) (fst best)
     then (Some (cand_prob py res h), h)
     else best).
Proof.
  intros [[Hbp [Hbs Hnone]] | [n [e0 [Hbp [Hnth [Hel Hmax]]]]]].
  - rewrite Hbp. simpl Py.gt_inf. rewrite andb_true_r.
    destruct (eligible_in py res sent (e, h)) eqn:E.
    + right. exists (List.length pre), e. simpl.
      split; [reflexivity|]. split; [|split; [exact E|]].
      * rewrite nth_error_app2 by lia. rewrite Nat.sub_diag. reflexivity.
      * intros m item' Hm Hel'.
        destruct (Nat.lt_ge_cases m (List.length pre)) as [Hlt|Hge].
        -- rewrite nth_error_app1 in Hm by exact Hlt.
           apply nth_error_In in Hm. rewrite (Hnone _ Hm) in Hel'.
           discriminate.
        -- rewrite nth_error_app2 in Hm by exact Hge.
           destruct (m - List.length pre) as [|k] eqn:Ek.
           ++ simpl in Hm. inversion Hm; subst item'. simpl.
              split; [apply Qle_refl | intros; lia].
           ++ simpl in Hm. destruct k; discriminate.
    + left. split; [exact Hbp|]. split; [exact Hbs|].
      intros item Hin. apply in_app_or in Hin.
      destruct Hin as [Hin|[Hin|[]]]; [auto | subst; exact E].
  - rewrite Hbp. simpl Py.gt_inf.
    assert (Hn : n < List.length pre).
    { apply nth_error_Some. rewrite Hnth. discriminate. }
    destruct (eligible_in py res sent (e, h) && Py.gt (cand_prob py res h)
                (cand_prob py res (snd best))) eqn:E.
    + apply andb_prop in E. destruct E as [E Hgt]. apply gt_iff in Hgt.
      right. exists (List.length pre), e. simpl.
      split; [reflexivity|]. split; [|split; [exact E|]].
      * rewrite nth_error_app2 by lia. rewrite Nat.sub_diag. reflexivity.
      * intros m item' Hm Hel'.
        destruct (Nat.lt_ge_cases m (List.length pre)) as [Hlt|Hge].
        -- rewrite nth_error_app1 in Hm by exact Hlt.
           destruct (Hmax m item' Hm Hel') as [Hle _]. simpl in Hle.
           split; [apply Qlt_le_weak|intros _];
             eapply Qle_lt_trans; eauto.
        -- rewrite nth_error_app2 in Hm by exact Hge.
           destruct (m - List.length pre) as [|k] eqn:Ek.
           ++ simpl in Hm. inversion Hm; subst item'. simpl.
              split; [apply Qle_refl | intros; lia].
           ++ simpl in Hm. destruct k; discriminate.
    + right. exists n, e0. split; [exact Hbp|].
      split; [|split; [exact Hel|]].
      * rewrite nth_error_app1 by exact Hn. exact Hnth.
      * intros m item' Hm Hel'.
        destruct (Nat.lt_ge_cases m (List.length pre)) as [Hlt|Hge].
        -- rewrite nth_error_app1 in Hm by exact Hlt.
           exact (Hmax m item' Hm Hel').
        -- rewrite nth_error_app2 in Hm by exact Hge.
           destruct (m - List.length pre) as [|k] eqn:Ek.
           ++ simpl in Hm. inversion Hm; subst item'. simpl.
              simpl in Hel'. rewrite Hel' in E. simpl in E.
              apply gt_false_iff in E.
              split; [exact E | intros; lia].
           ++ simpl in Hm. destruct k; discriminate.
Qed.

Lemma select_in_spec (items : cand_dict_t) :
  Forall sound_hyp items ->
  forall pre best,
    sel_inv_in py res sent pre best ->
    exists best',
      select_in py res (orig_prob py res sent) items best = Ok best'
      /\ sel_inv_in py res sent (pre ++ items) best'.
Proof.
  induction 1 as [|[e h] items [Hne _] Hitems IH]; intros pre best Hinv.
  - exists best. rewrite app_nil_r. split; [reflexivity | exact Hinv].
  - simpl in Hne. simpl select_in. rewrite select_step_in_eq by exact Hne.
    simpl bind.
    destruct (IH (pre ++ [(e, h)]) _ (sel_inv_in_step pre best e h Hinv))
      as [best' [Hsel Hinv']].
    exists best'. split; [exact Hsel|].
    rewrite <- app_assoc in Hinv'. exact Hinv'.
Qed.

End SelectionIn.

(** ** One sweep *)

(** The outcome of a sweep on a non-empty sentence: the candidates are
    collected without error, and either none is eligible and the sentence
    comes back with [False], or the first best item comes back with [True]. *)
Lemma processSent_in_spec (sent : list string) (res : Resources) (args : Args) :
  sent <> [] ->
  exists d,
    candidates_in py sent res args = Ok d
    /\ (((forall item, In item d -> eligible_in py res sent item = false)
         /\ processSent_in py sent res args = Ok (sent, false))
        \/ (exists n e h,
              first_best_in py res sent d n (e, h)
              /\ h <> [] /\ Forall (fun t => t <> "") h
              /\ processSent_in py sent res args = Ok (h, true))).
Proof.
  intros Hs.
  destruct (candidates_in_total sent res args) as [d Hd].
  exists d. split; [exact Hd|].
  pose proof (candidates_in_sound sent res args d Hd) as Hsound.
  assert (Hinit : sel_inv_in py res sent [] (None, [])).
  { left. simpl. repeat split; auto. intros item []. }
  destruct (select_in_spec res sent d Hsound [] (None, []) Hinit)
    as [[bp bs] [Hsel Hinv]].
  simpl app in Hinv.
  unfold processSent_in. rewrite avg_prob_in_baseline by exact Hs. simpl bind.
  unfold candidates_in in Hd. rewrite Hd. simpl bind. rewrite Hsel. simpl bind.
  destruct Hinv as [[_ [Hbs Hnone]] | [n [e [_ Hfb]]]]; simpl in *.
  - left. subst bs. simpl. split; [exact Hnone | reflexivity].
  - right. exists n, e, bs.
    assert (Hin : In (e, bs) d).
    { destruct Hfb as [Hnth _]. eapply nth_error_In; exact Hnth. }
    rewrite Forall_forall in Hsound.
    destruct (Hsound _ Hin) as [Hne Htok]. simpl in Hne, Htok.
    split; [exact Hfb|]. split; [exact Hne|]. split; [exact Htok|].
    destruct bs; [congruence | reflexivity].
Qed.

(** ** The correction loop *)



(** ** Where the candidates of a sweep come from *)

Section SweepSourcesIn.
Variables (sent : list string) (res : Resources) (args : Args).
Variable toks : list Token.

Lemma stems_in_key (k k' : edit) (v : list string) :
  stems_in py sent res args toks (k, v) ->
  edit_eqb k' k = true ->
  stems_in py sent res args toks (k', v).
Proof.
  intros [tok [Hin [Ht [Hc [Hw Hv]]]]] E.
  apply edit_eqb_fields in E. destruct E as [Et [Ec Ew]].
  exists tok. split; [exact Hin|]. unfold from_token_in in *. simpl in *.
  rewrite Et, Ec. repeat split; try assumption.
  rewrite Ew. exact Hw.
Qed.

Lemma add_cands_stems_in (tok : Token) (cands : list string)
  (cand_dict d : cand_dict_t) :
  In tok toks ->
  incl cands (proposed_in py res tok) ->
  Forall (stems_in py sent res args toks) cand_dict ->
  add_cands (Z.of_nat (i tok)) cands sent (threshold args) cand_dict = Ok d ->
  Forall (stems_in py sent res args toks) d.
Proof.
  intros Hin Hincl Hcd H. unfold add_cands in H. bind_inv H.
  inversion H; subst d; clear H.
  apply dict_update_Forall; [exact Hcd | | exact stems_in_key].
  apply (generateCands_Forall (stems_in py sent res args toks)
           (Z.of_nat (i tok)) sent (threshold args) cands a);
    [|exact Ha].
  intros cand new_sent k' Hc Hset _ Hk.
  apply edit_eqb_fields in Hk. destruct Hk as [Et [Ec Ew]].
  exists tok. split; [exact Hin|]. unfold from_token_in. simpl in *.
  unfold edit_tok_id, edit_cand, edit_weight in *. simpl in *.
  rewrite Et, Ec. split; [reflexivity|]. split; [apply Hincl; exact Hc|].
  split; [exact Ew|]. unfold hyp_of. rewrite Hset. reflexivity.
Qed.

Lemma collect_token_in_stems (tok : Token) (cand_dict d : cand_dict_t) :
  In tok toks ->
  Forall (stems_in py sent res args toks) cand_dict ->
  collect_token_in py sent res args cand_dict tok = Ok d ->
  Forall (stems_in py sent res args toks) d.
Proof.
  intros Hin Hcd H. unfold collect_token_in in H. cbv zeta in H.
  bind_inv H. bind_inv H. bind_inv H.
  assert (H0 : Forall (stems_in py sent res args toks) a).
  { destruct (str_isalpha py (text tok) && negb (gb_spell res (text tok)))
      eqn:E.
    - destruct (Py.nonempty (gb_suggest res (text tok))).
      + eapply add_cands_stems_in; [exact Hin | | exact Hcd | exact Ha].
        unfold proposed_in. rewrite E. apply incl_appl. apply incl_refl.
      + inversion Ha; subst; exact Hcd.
    - inversion Ha; subst; exact Hcd. }
  assert (H1 : Forall (stems_in py sent res args toks) a0).
  { destruct (Py.dict_get String.eqb (lemma_ tok) (gb_infl res)) eqn:E.
    - eapply add_cands_stems_in; [exact Hin | | exact H0 | exact Ha0].
      unfold proposed_in. rewrite E.
      apply incl_appr. apply incl_appl. apply incl_refl.
    - inversion Ha0; subst; exact H0. }
  assert (H2 : Forall (stems_in py sent res args toks) a1).
  { destruct (Py.contains (text tok) (det res)) eqn:E.
    - eapply add_cands_stems_in; [exact Hin | | exact H1 | exact Ha1].
      unfold proposed_in. rewrite E.
      apply incl_appr. apply incl_appr. apply incl_appl. apply incl_refl.
    - inversion Ha1; subst; exact H1. }
  destruct (Py.contains (text tok) (prep res)) eqn:E.
  - eapply add_cands_stems_in; [exact Hin | | exact H2 | exact H].
    unfold proposed_in. rewrite E.
    apply incl_appr. apply incl_appr. apply incl_appr. apply incl_refl.
  - inversion H; subst; exact H2.
Qed.

Lemma collect_in_stems (rest : list Token) :
  incl rest toks ->
  forall cand_dict d,
    Forall (stems_in py sent res args toks) cand_dict ->
    collect_in py sent res args rest cand_dict = Ok d ->
    Forall (stems_in py sent res args toks) d.
Proof.
  induction rest as [|tok rest IH]; intros Hincl cand_dict d Hcd H;
    simpl in H.
  - inversion H; subst. exact Hcd.
  - bind_inv H. apply (IH (fun x Hx => Hincl x (or_intror Hx)) a d);
      [|exact H].
    apply (collect_token_in_stems tok cand_dict a); auto.
    apply Hincl. left. reflexivity.
Qed.

End SweepSourcesIn.

Section SweepHoldsIn.
Variable sent : list string.

Lemma collect_token_in_holds (res : Resources) (args : Args) (tok : Token)
  (cand_dict d : cand_dict_t) :
  collect_token_in py sent res args cand_dict tok = Ok d ->
  (forall t c,
      has_edit cand_dict t c (hyp_of sent t c) ->
      has_edit d t c (hyp_of sent t c))
  /\ (forall c,
        In c (proposed_in py res tok) ->
        hyp_of sent (Z.of_nat (i tok)) c <> [] ->
        has_edit d (Z.of_nat (i tok)) c (hyp_of sent (Z.of_nat (i tok)) c)).
Proof.
  intros H. unfold collect_token_in in H. cbv zeta in H.
  bind_inv H. bind_inv H. bind_inv H.
  unfold proposed_in.
  destruct (str_isalpha py (text tok) && negb (gb_spell res (text tok))) eqn:E1.
  2: { inversion Ha; subst a; clear Ha. revert Ha0 Ha1 H. revert a0 a1.
       intros a0 a1 Ha0 Ha1 H.
       assert (K1 : forall t c, has_edit cand_dict t c (hyp_of sent t c) ->
                                has_edit a0 t c (hyp_of sent t c)).
       { intros t c Hh.
         destruct (Py.dict_get String.eqb (lemma_ tok) (gb_infl res));
           [eapply add_cands_keeps; eauto | inversion Ha0; subst; exact Hh]. }
       assert (K2 : forall t c, has_edit a0 t c (hyp_of sent t c) ->
                                has_edit a1 t c (hyp_of sent t c)).
       { intros t c Hh.
         destruct (Py.contains (text tok) (det res));
           [eapply add_cands_keeps; eauto | inversion Ha1; subst; exact Hh]. }
       assert (K3 : forall t c, has_edit a1 t c (hyp_of sent t c) ->
                                has_edit d t c (hyp_of sent t c)).
       { intros t c Hh.
         destruct (Py.contains (text tok) (prep res));
           [eapply add_cands_keeps; eauto | inversion H; subst; exact Hh]. }
       split; [intros t c Hh; auto|].
       intros c Hin Hne. simpl in Hin.
       apply in_app_or in Hin. destruct Hin as [Hin|Hin].
       { apply K3, K2.
         destruct (Py.dict_get String.eqb (lemma_ tok) (gb_infl res));
           [eapply add_cands_adds; eauto | contradiction]. }
       apply in_app_or in Hin. destruct Hin as [Hin|Hin].
       { apply K3.
         destruct (Py.contains (text tok) (det res));
           [eapply add_cands_adds; eauto | contradiction]. }
       destruct (Py.contains (text tok) (prep res));
         [eapply add_cands_adds; eauto | contradiction]. }
  assert (K0 : forall t c, has_edit cand_dict t c (hyp_of sent t c) ->
                           has_edit a t c (hyp_of sent t c)).
  { intros t c Hh.
    destruct (Py.nonempty (gb_suggest res (text tok)));
      [eapply add_cands_keeps; eauto | inversion Ha; subst; exact Hh]. }
  assert (K1 : forall t c, has_edit a t c (hyp_of sent t c) ->
                           has_edit a0 t c (hyp_of sent t c)).
  { intros t c Hh.
    destruct (Py.dict_get String.eqb (lemma_ tok) (gb_infl res));
      [eapply add_cands_keeps; eauto | inversion Ha0; subst; exact Hh]. }
  assert (K2 : forall t c, has_edit a0 t c (hyp_of sent t c) ->
                           has_edit a1 t c (hyp_of sent t c)).
  { intros t c Hh.
    destruct (Py.contains (text tok) (det res));
      [eapply add_cands_keeps; eauto | inversion Ha1; subst; exact Hh]. }
  assert (K3 : forall t c, has_edit a1 t c (hyp_of sent t c) ->
                           has_edit d t c (hyp_of sent t c)).
  { intros t c Hh.
    destruct (Py.contains (text tok) (prep res));
      [eapply add_cands_keeps; eauto | inversion H; subst; exact Hh]. }
  split; [intros t c Hh; auto|].
  intros c Hin Hne.
  apply in_app_or in Hin. destruct Hin as [Hin|Hin].
  { apply K3, K2, K1.
    destruct (gb_suggest res (text tok)) as [|s0 ss] eqn:Es;
      [contradiction|].
    simpl in Ha. eapply add_cands_adds; eauto. }
  apply in_app_or in Hin. destruct Hin as [Hin|Hin].
  { apply K3, K2.
    destruct (Py.dict_get String.eqb (lemma_ tok) (gb_infl res));
      [eapply add_cands_adds; eauto | contradiction]. }
  apply in_app_or in Hin. destruct Hin as [Hin|Hin].
  { apply K3.
    destruct (Py.contains (text tok) (det res));
      [eapply add_cands_adds; eauto | contradiction]. }
  destruct (Py.contains (text tok) (prep res));
    [eapply add_cands_adds; eauto | contradiction].
Qed.

Lemma collect_in_holds (res : Resources) (args : Args) (toks : list Token) :
  forall cand_dict d,
    collect_in py sent res args toks cand_dict = Ok d ->
    (forall t c,
        has_edit cand_dict t c (hyp_of sent t c) ->
        has_edit d t c (hyp_of sent t c))
    /\ (forall tok c,
          In tok toks ->
          In c (proposed_in py res tok) ->
          hyp_of sent (Z.of_nat (i tok)) c <> [] ->
          has_edit d (Z.of_nat (i tok)) c
                   (hyp_of sent (Z.of_nat (i tok)) c)).
Proof.
  induction toks as [|tok rest IH]; intros cand_dict d H; simpl in H.
  - inversion H; subst. split; [auto | intros tok c []].
  - bind_inv H.
    destruct (collect_token_in_holds res args tok cand_dict a Ha) as [K A].
    destruct (IH a d H) as [K' A'].
    split; [intros t c Hh; auto|].
    intros tok' c [<-|Hin] Hc Hne; [apply K'; apply A; assumption|].
    apply A'; assumption.
Qed.

End SweepHoldsIn.

Lemma candidates_in_item (sent : list string) (res : Resources) (args : Args)
  (d : cand_dict_t) (e : edit) (h : list string) :
  candidates_in py sent res args = Ok d ->
  In (e, h) d ->
  exists tok,
    In tok (processWithSpacy sent res)
    /\ from_token_in py sent res args tok (e, h).
Proof.
  intros Hd Hin. unfold candidates_in in Hd.
  pose proof (collect_in_stems sent res args (processWithSpacy sent res)
                (processWithSpacy sent res) (incl_refl _) [] d
                (Forall_nil _) Hd) as Hall.
  rewrite Forall_forall in Hall. exact (Hall (e, h) Hin).
Qed.


(** ** The orchestrator *)





Section MainIn.
Hypothesis Htokens : tokens_nonempty py.





End MainIn.


(** ** Lines of the inflection database *)

(** The text of a string up to its first separator. *)
Lemma first_field_exists (s : string) : exists txt, first_field s txt.
Proof.
  induction s as [|c s IH].
  - exists "". left. split; [|reflexivity].
    intros [[|x l] [r H]]; discriminate.
  - destruct (prefix ": " (String c s)) eqn:E.
    + apply prefix_sep in E. destruct E as [r E].
      exists "". right. exists r. split; [exact E|].
      intros [[|x l] [r' H]]; discriminate.
    + destruct IH as [txt [[Hno ->] | [more [-> Hno]]]].
      * exists (String c s). left. split; [|reflexivity].
        intros H. apply Hno. eapply has_separator_tail; eauto.
      * exists (String c txt). right. exists more.
        split; [reflexivity|].
        intros H. apply Hno. apply (has_separator_tail c txt H).
        destruct (prefix ": " (String c txt)) eqn:P; [|reflexivity].
        exfalso. apply prefix_sep in P. destruct P as [r P].
        assert (Ht : prefix ": " (String c (txt ++ ": " ++ more)) = true).
        { apply prefix_sep. exists (r ++ ": " ++ more)%string.
          change (String c (txt ++ ": " ++ more))
            with (String c txt ++ ": " ++ more)%string.
          rewrite P. rewrite append_assoc. reflexivity. }
        congruence.
Qed.

Lemma first_field_split (rest txt : string) :
  first_field rest txt ->
  exists ys, Py.split_by ": " 0 "" rest = txt :: ys.
Proof.
  intros [[Hno ->] | [more [-> Hno]]].
  - exists []. rewrite split_by_no_separator by exact Hno. reflexivity.
  - eexists. rewrite split_by_first by exact Hno. reflexivity.
Qed.

(** A line is either without separator or a key, the separator and the
    rest. *)
Lemma entry_shape (entry : string) :
  ~ has_separator entry
  \/ exists key rest,
       entry = (key ++ ": " ++ rest)%string /\ ~ has_separator key.
Proof.
  destruct (first_field_exists entry) as [txt [[Hno _] | [more [E Hno]]]].
  - left. exact Hno.
  - right. exists txt, more. split; assumption.
Qed.

Lemma parse_entry_in_key (key rest : string) :
  ~ has_separator key ->
  forall txt,
    first_field rest txt ->
    parse_entry_in py (key ++ ": " ++ rest)
    = (word <- Py.getitem (str_split py key) 0 ;;
       Ok (word, str_split py (sub_braces (sub_markup txt)))).
Proof.
  intros Hno txt Htxt.
  destruct (first_field_split rest txt Htxt) as [ys Hys].
  unfold parse_entry_in, Py.split_sep.
  rewrite split_by_first by exact Hno. rewrite Hys. cbn [append].
  rewrite getitem_0. cbn [bind]. rewrite getitem_1. cbn [bind].
  reflexivity.
Qed.

Lemma parse_entry_in_no_separator (entry : string) :
  ~ has_separator entry -> parse_entry_in py entry = Raise IndexError.
Proof.
  intros Hno. unfold parse_entry_in, Py.split_sep.
  rewrite split_by_no_separator by exact Hno. reflexivity.
Qed.

(** The program reads from a line what [line_of] says of it. *)
Lemma parse_entry_in_line (entry w : string) (forms : list string) :
  parse_entry_in py entry = Ok (w, forms) <-> line_of py entry w forms.
Proof.
  split.
  - intros H. destruct (entry_shape entry) as [Hno | [key [rest [-> Hno]]]].
    + rewrite parse_entry_in_no_separator in H by exact Hno. discriminate.
    + destruct (first_field_exists rest) as [txt Htxt].
      rewrite (parse_entry_in_key key rest Hno txt Htxt) in H.
      destruct (str_split py key) as [|w' ws] eqn:Ek; [discriminate|].
      rewrite getitem_0 in H. cbn [bind] in H. inversion H; subst.
      exists key, rest, txt, ws. auto.
  - intros [key [rest [txt [ws [-> [Hno [Hk [Htxt ->]]]]]]]].
    rewrite (parse_entry_in_key key rest Hno txt Htxt), Hk.
    reflexivity.
Qed.

Lemma parse_entry_in_raises (entry : string) (e : exn) :
  parse_entry_in py entry = Raise e -> e = IndexError.
Proof.
  unfold parse_entry_in.
  destruct (Py.getitem (Py.split_sep ": " entry) 0) as [e0|x] eqn:E0;
    cbn [bind]; [|intros H; inversion H; subst; eapply getitem_raises; eauto].
  destruct (Py.getitem (Py.split_sep ": " entry) 1) as [forms|x] eqn:E1;
    cbn [bind]; [|intros H; inversion H; subst; eapply getitem_raises; eauto].
  destruct (Py.getitem (str_split py e0) 0) as [word|x] eqn:E2;
    cbn [bind]; [|intros H; inversion H; subst; eapply getitem_raises; eauto].
  discriminate.
Qed.

Lemma parse_entry_in_well_formed (entry : string) :
  well_formed_in py entry
  <-> exists w forms, parse_entry_in py entry = Ok (w, forms).
Proof.
  unfold well_formed_in.
  split; intros [w [forms H]]; exists w, forms;
    apply parse_entry_in_line; exact H.
Qed.

(** A line whose key holds no word is not well formed. *)
Lemma blank_key_malformed (key rest : string) :
  ~ has_separator key ->
  str_split py key = [] ->
  ~ well_formed_in py (key ++ ": " ++ rest).
Proof.
  intros Hno Hk Hwf. apply parse_entry_in_well_formed in Hwf.
  destruct Hwf as [w [forms H]].
  destruct (first_field_exists rest) as [txt Htxt].
  rewrite (parse_entry_in_key key rest Hno txt Htxt), Hk in H.
  discriminate.
Qed.

Lemma no_separator_malformed (entry : string) :
  ~ has_separator entry -> ~ well_formed_in py entry.
Proof.
  intros Hno Hwf. apply parse_entry_in_well_formed in Hwf.
  destruct Hwf as [w [forms H]].
  rewrite parse_entry_in_no_separator in H by exact Hno. discriminate.
Qed.

(** ** The load *)

Lemma loadWordFormDict_loop_in_Ok (entries : list string) :
  Forall (well_formed_in py) entries ->
  forall d0, exists d, loadWordFormDict_loop_in py entries d0 = Ok d.
Proof.
  induction 1 as [|entry rest Hwf _ IH]; intros d0; simpl.
  - exists d0. reflexivity.
  - apply parse_entry_in_well_formed in Hwf. destruct Hwf as [w [forms Hp]].
    unfold loadWordFormDict_step_in. rewrite Hp. simpl. apply IH.
Qed.

Lemma loadWordFormDict_loop_in_wf (entries : list string) :
  forall d0 d,
    loadWordFormDict_loop_in py entries d0 = Ok d ->
    Forall (well_formed_in py) entries.
Proof.
  induction entries as [|entry rest IH]; intros d0 d H; simpl in H.
  - constructor.
  - bind_inv H. unfold loadWordFormDict_step_in in Ha.
    destruct (parse_entry_in py entry) as [[w forms]|x] eqn:Ep;
      simpl in Ha; [|discriminate].
    constructor; [|eapply IH; exact H].
    apply parse_entry_in_well_formed. eauto.
Qed.

Lemma loadWordFormDict_loop_in_raises (entries : list string) :
  forall entry,
    In entry entries ->
    ~ well_formed_in py entry ->
    forall d0, loadWordFormDict_loop_in py entries d0 = Raise IndexError.
Proof.
  induction entries as [|entry0 rest IH]; intros entry Hin Hno d0.
  - destruct Hin.
  - simpl. unfold loadWordFormDict_step_in.
    destruct (parse_entry_in py entry0) as [[w forms]|e] eqn:E; simpl.
    + destruct Hin as [<-|Hin].
      * exfalso. apply Hno. apply parse_entry_in_well_formed. eauto.
      * eapply IH; eauto.
    + apply parse_entry_in_raises in E. subst. reflexivity.
Qed.

Lemma loadWordFormDict_loop_in_app (a b : list string) :
  forall d0 d,
    loadWordFormDict_loop_in py (a ++ b) d0 = Ok d ->
    exists d1,
      loadWordFormDict_loop_in py a d0 = Ok d1
      /\ loadWordFormDict_loop_in py b d1 = Ok d.
Proof.
  induction a as [|entry a IH]; intros d0 d H; simpl in *.
  - exists d0. auto.
  - bind_inv H. rewrite Ha. simpl. apply IH. exact H.
Qed.

Lemma loadWordFormDict_loop_in_other (w : string) (entries : list string) :
  (forall entry forms, In entry entries -> ~ line_of py entry w forms) ->
  forall d0 d,
    loadWordFormDict_loop_in py entries d0 = Ok d ->
    Py.dict_get String.eqb w d = Py.dict_get String.eqb w d0.
Proof.
  induction entries as [|entry rest IH]; intros Hno d0 d H; simpl in H.
  - inversion H; reflexivity.
  - bind_inv H. unfold loadWordFormDict_step_in in Ha.
    destruct (parse_entry_in py entry) as [[w' forms]|x] eqn:Ep;
      simpl in Ha; [|discriminate].
    inversion Ha; subst a; clear Ha.
    rewrite (IH (fun e f Hin => Hno e f (or_intror Hin)) _ d H).
    apply (dict_get_set_other String.eqb String.eqb_eq).
    intros ->. apply (Hno entry forms (or_introl eq_refl)).
    apply parse_entry_in_line. exact Ep.
Qed.

(** The set stored under a lemma is that of the last line of the lemma. *)
Lemma loadWordFormDict_loop_in_last (entries : list string)
  (entry w : string) (forms : list string) :
  last_line_of py entries entry w forms ->
  forall d0 d,
    loadWordFormDict_loop_in py entries d0 = Ok d ->
    Py.dict_get String.eqb w d = Some (Py.set (w :: forms)).
Proof.
  intros [before [after [-> [Hline Hlast]]]] d0 d Hload.
  apply loadWordFormDict_loop_in_app in Hload.
  destruct Hload as [d1 [_ Hrest]].
  simpl in Hrest. bind_inv Hrest.
  unfold loadWordFormDict_step_in in Ha.
  apply parse_entry_in_line in Hline. rewrite Hline in Ha. simpl in Ha.
  inversion Ha; subst a; clear Ha.
  rewrite (loadWordFormDict_loop_in_other w after Hlast _ d Hrest).
  apply (dict_get_set_same String.eqb String.eqb_eq).
Qed.

(** Among lines that are all well formed, a lemma has a last line or none. *)
Lemma last_line_of_cases (w : string) (entries : list string) :
  Forall (well_formed_in py) entries ->
  (forall entry forms, In entry entries -> ~ line_of py entry w forms)
  \/ exists entry forms, last_line_of py entries entry w forms.
Proof.
  induction 1 as [|entry0 rest Hwf _ IH].
  - left. intros entry forms [].
  - destruct IH as [Hnone | [entry [forms [before [after [-> [Hl Hlast]]]]]]].
    + destruct Hwf as [w0 [forms0 Hl0]].
      destruct (string_dec w0 w) as [->|Hne].
      * right. exists entry0, forms0, [], rest. auto.
      * left. intros entry forms [<-|Hin] Hl; [|exact (Hnone _ _ Hin Hl)].
        apply parse_entry_in_line in Hl, Hl0. congruence.
    + right. exists entry, forms, (entry0 :: before), after. auto.
Qed.

(** The lines of the database hold no line feed. *)
Lemma entries_of_in_lines (content entry : string) :
  In entry (entries_of_in py content) ->
  Py.sexists (fun x => Ascii.eqb x LF) entry = false.
Proof.
  intros Hin.
  pose proof (split_nl_lines (str_strip py content) "" eq_refl) as Hlines.
  rewrite Forall_forall in Hlines. apply Hlines. exact Hin.
Qed.

(** The text that is split into the forms of a line holds no markup
    character and, the line being without line feed, no bracketed
    annotation. *)
Lemma line_of_clean (entry w : string) (forms : list string) :
  Py.sexists (fun x => Ascii.eqb x LF) entry = false ->
  line_of py entry w forms ->
  exists txt,
    forms = str_split py (sub_braces (sub_markup txt))
    /\ Py.sexists markup_char (sub_braces (sub_markup txt)) = false
    /\ ~ brace_pair (sub_braces (sub_markup txt)).
Proof.
  intros Hlf [key [rest [txt [ws [-> [_ [_ [Htxt ->]]]]]]]].
  exists txt. split; [reflexivity|].
  split; [apply sub_braces_chars; apply sfilter_clean|].
  apply pair_free_no_pair. apply sub_braces_pair_free.
  apply sfilter_chars.
  rewrite !sexists_app in Hlf.
  apply orb_false_iff in Hlf. destruct Hlf as [_ Hlf].
  apply orb_false_iff in Hlf. destruct Hlf as [_ Hlf].
  destruct Htxt as [[_ ->] | [more [-> _]]]; [exact Hlf|].
  rewrite sexists_app in Hlf.
  apply orb_false_iff in Hlf. destruct Hlf as [Hlf _]. exact Hlf.
Qed.

End Interpreter.

(** ** The exact, ASCII interpreter *)

(** On this interpreter the program is the first embedding. *)
Lemma collect_in_ideal (sent : list string) (res : Resources) (args : Args)
  (toks : list Token) :
  forall d,
    collect_in ideal sent res args toks d = collect sent res args toks d.
Proof.
  induction toks as [|tok rest IH]; intros d; [reflexivity|].
  cbn [collect_in collect].
  change (collect_token_in ideal sent res args d tok)
    with (collect_token sent res args d tok).
  destruct (collect_token sent res args d tok) as [d'|e];
    [apply IH | reflexivity].
Qed.

Lemma select_in_ideal (res : Resources) (orig : Q) (items : cand_dict_t) :
  forall best,
    select_in ideal res orig items best = select res orig items best.
Proof.
  induction items as [|item rest IH]; intros best; [reflexivity|].
  cbn [select_in select].
  change (select_step_in ideal res orig best item)
    with (select_step res orig best item).
  destruct (select_step res orig best item) as [best'|e];
    [apply IH | reflexivity].
Qed.

Lemma processSent_in_ideal (sent : list string) (res : Resources)
  (args : Args) :
  processSent_in ideal sent res args = processSent sent res args.
Proof.
  unfold processSent_in, processSent.
  change (avg_prob_in ideal) with avg_prob.
  destruct (avg_prob res (doc_text res sent)
              (List.length (processWithSpacy sent res))) as [o|e];
    [|reflexivity].
  cbn [bind]. rewrite collect_in_ideal.
  destruct (collect sent res args (processWithSpacy sent res) [])
    as [d|e]; [|reflexivity].
  cbn [bind]. rewrite select_in_ideal. reflexivity.
Qed.

Lemma correct_in_ideal (fuel : nat) (sent : list string) (res : Resources)
  (args : Args) :
  correct_in ideal fuel sent res args = correct fuel sent res args.
Proof.
  revert sent. induction fuel as [|fuel IH]; intros sent; [reflexivity|].
  simpl. rewrite processSent_in_ideal.
  destruct (processSent sent res args) as [[s []]|e];
    [apply IH | reflexivity | reflexivity].
Qed.

Lemma loadWordFormDict_in_ideal (content : string) :
  loadWordFormDict_in ideal content = loadWordFormDict content.
Proof.
  unfold loadWordFormDict_in, loadWordFormDict.
  change (entries_of_in ideal content) with (entries_of content).
  generalize (@nil (string * list string)).
  induction (entries_of content) as [|entry rest IH]; intros d;
    [reflexivity|].
  cbn [loadWordFormDict_loop_in loadWordFormDict_loop].
  change (loadWordFormDict_step_in ideal d entry)
    with (loadWordFormDict_step d entry).
  destruct (loadWordFormDict_step d entry) as [d'|e];
    [apply IH | reflexivity].
Qed.

Lemma ideal_tokens_nonempty : tokens_nonempty ideal.
Proof.
  intros s. apply split_ws_tokens.
Qed.

Lemma space_not_upper (c : ascii) :
  Py.is_space c = true -> Py.is_upper_char c = false.
Proof.
  destruct c as [[] [] [] [] [] [] [] []]; vm_compute; congruence.
Qed.

Lemma blank_not_upper (s : string) :
  Py.sforall Py.is_space s = true -> Py.sexists Py.is_upper_char s = false.
Proof.
  induction s as [|c s IH]; simpl; [reflexivity|].
  intros H. apply andb_prop in H. destruct H as [Hc Hs].
  rewrite (space_not_upper c Hc), (IH Hs). reflexivity.
Qed.

Lemma chars_from_flush (s cur : string) :
  Utf8.chars_from 0 cur s = Py.flush cur ++ Utf8.chars_from 0 "" s.
Proof.
  destruct s; simpl; [rewrite app_nil_r|]; reflexivity.
Qed.

Lemma space_width (c : ascii) : Py.is_space c = true -> Utf8.width c = 1.
Proof.
  destruct c as [[] [] [] [] [] [] [] []]; vm_compute; congruence.
Qed.

(** A character that begins with a byte that is no whitespace is none. *)
Lemma ideal_not_space_run (s : string) :
  forall k c t,
    Py.is_space c = false ->
    forallb (chr_isspace ideal) (Utf8.chars_from k (String c t) s) = false.
Proof.
  induction s as [|x s IH]; intros k c t Hc.
  - simpl. destruct t; simpl; [rewrite Hc|]; reflexivity.
  - destruct k as [|k]; cbn [Utf8.chars_from].
    + cbn [Py.flush app forallb].
      replace (chr_isspace ideal (String c t)) with false; [reflexivity|].
      destruct t; simpl; [rewrite Hc|]; reflexivity.
    + change (String c t ++ String x "")%string
        with (String c (t ++ String x "")).
      apply IH. exact Hc.
Qed.

(** On the ASCII interpreter a line is blank when all its bytes are
    whitespace. *)
Lemma ideal_blank (s : string) :
  str_blank ideal s = Py.sforall Py.is_space s.
Proof.
  unfold str_blank, Utf8.chars.
  induction s as [|c s IH]; [reflexivity|].
  cbn [Utf8.chars_from Py.flush app Py.sforall].
  destruct (Py.is_space c) eqn:E.
  - rewrite (space_width c E). cbn [Nat.sub].
    rewrite chars_from_flush. cbn [Py.flush app forallb].
    replace (chr_isspace ideal (String c "")) with true
      by (simpl; rewrite E; reflexivity).
    exact IH.
  - simpl. apply ideal_not_space_run. exact E.
Qed.

Lemma ideal_blank_laws : blank_laws ideal.
Proof.
  assert (H2 : forall s, Py.sforall Py.is_space s = true ->
                         Py.isupper s = false).
  { intros s H. unfold Py.isupper. rewrite (blank_not_upper s H).
    reflexivity. }
  split; [|split].
  - intros s. rewrite ideal_blank. simpl. unfold Py.split, Py.strip.
    rewrite split_ws_nil, rstrip_spaces, lstrip_spaces. tauto.
  - intros s. rewrite ideal_blank. exact (H2 s).
  - intros s Hup. rewrite ideal_blank. simpl in *. rewrite lower_spaces.
    destruct (Py.sforall Py.is_space s) eqn:E; [|reflexivity].
    rewrite (H2 s E) in Hup. discriminate.
Qed.

(** ** Characters of a UTF-8 string *)


















(** ** Whitespace and case of Latin-1 *)













(** ** Stripping and splitting *)










(** ** The interpreter for Latin-1 text meets what is asked *)



(** ** The acceptance rule *)

(** C2: in one sweep the eligible hypotheses are exactly those whose score
    exceeds the weight times the baseline, score, product and baseline being
    the floats that the program computes, however the interpreter rounds
    them; [processSent] returns the eligible hypothesis of greatest score,
    the first one in iteration order among equals, and returns the sentence
    itself with [False] exactly when no hypothesis is eligible. *)
Theorem processSent_selects_first_best
  (py : Interp) (sent : list string) (res : Resources) (args : Args) :
  sent <> [] ->
  exists d,
    candidates_in py sent res args = Ok d
    /\ (forall item,
          eligible_in py res sent item = true
          <-> (fl_mul py (edit_weight (fst item)) (orig_prob py res sent)
               < cand_prob py res (snd item))%Q)
    /\ match processSent_in py sent res args with
       | Ok (s, true) => exists n e, first_best_in py res sent d n (e, s)
       | Ok (s, false) =>
           s = sent
           /\ forall item, In item d -> eligible_in py res sent item = false
       | Raise _ => False
       end.
Proof.
  intros Hs.
  destruct (processSent_in_spec py sent res args Hs)
    as [d [Hd [[Hnone Hp] | [n [e [h [Hfb [_ [_ Hp]]]]]]]]];
    exists d; (split; [exact Hd|]);
    (split; [intros item; apply gt_iff|]); rewrite Hp.
  - split; [reflexivity | exact Hnone].
  - exists n, e. exact Hfb.
Qed.

(** C5: when no hypothesis of the sweep is eligible, [processSent] returns
    the input sentence itself with [False]; when some hypothesis is
    eligible, it returns a selected eligible hypothesis with [True]. *)
Theorem processSent_result
  (py : Interp) (sent : list string) (res : Resources) (args : Args) :
  sent <> [] ->
  exists d,
    candidates_in py sent res args = Ok d
    /\ ((forall item, In item d -> eligible_in py res sent item = false) ->
        processSent_in py sent res args = Ok (sent, false))
    /\ ((exists item, In item d /\ eligible_in py res sent item = true) ->
        exists e h,
          In (e, h) d /\ eligible_in py res sent (e, h) = true
          /\ processSent_in py sent res args = Ok (h, true)).
Proof.
  intros Hs.
  destruct (processSent_in_spec py sent res args Hs)
    as [d [Hd [[Hnone Hp] | [n [e [h [Hfb [_ [_ Hp]]]]]]]]];
    exists d; (split; [exact Hd|]); split.
  - intros _. exact Hp.
  - intros [item [Hin Hel]]. rewrite (Hnone item Hin) in Hel. discriminate.
  - intros Hnone. destruct Hfb as [Hnth [Hel _]].
    apply nth_error_In in Hnth. rewrite (Hnone _ Hnth) in Hel. discriminate.
  - intros _. destruct Hfb as [Hnth [Hel _]].
    exists e, h. split; [eapply nth_error_In; exact Hnth|].
    split; [exact Hel | exact Hp].
Qed.

Lemma processSent_selects_first_best_witness :
  ["a"; "apple"] <> []
  /\ exists d,
       candidates_in ideal ["a"; "apple"] Demo.res (Demo.args (3 # 4)) = Ok d
       /\ (forall item,
             eligible_in ideal Demo.res ["a"; "apple"] item = true
             <-> (fl_mul ideal (edit_weight (fst item))
                    (orig_prob ideal Demo.res ["a"; "apple"])
                  < cand_prob ideal Demo.res (snd item))%Q)
       /\ match processSent_in ideal ["a"; "apple"] Demo.res
                  (Demo.args (3 # 4)) with
          | Ok (s, true) =>
              exists n e,
                first_best_in ideal Demo.res ["a"; "apple"] d n (e, s)
          | Ok (s, false) =>
              s = ["a"; "apple"]
              /\ forall item,
                   In item d ->
                   eligible_in ideal Demo.res ["a"; "apple"] item = false
          | Raise _ => False
          end.
Proof.
  assert (H : ["a"; "apple"] <> ([] : list string)) by discriminate.
  split; [exact H|].
  exact (processSent_selects_first_best ideal ["a"; "apple"] Demo.res
           (Demo.args (3 # 4)) H).
Defined.

Lemma processSent_result_witness :
  ["an"; "apple"] <> []
  /\ exists d,
       candidates_in ideal ["an"; "apple"] Demo.res (Demo.args (3 # 4))
       = Ok d
       /\ ((forall item,
              In item d ->
              eligible_in ideal Demo.res ["an"; "apple"] item = false) ->
           processSent_in ideal ["an"; "apple"] Demo.res (Demo.args (3 # 4))
           = Ok (["an"; "apple"], false))
       /\ ((exists item,
              In item d
              /\ eligible_in ideal Demo.res ["an"; "apple"] item = true) ->
           exists e h,
             In (e, h) d
             /\ eligible_in ideal Demo.res ["an"; "apple"] (e, h) = true
             /\ processSent_in ideal ["an"; "apple"] Demo.res
                  (Demo.args (3 # 4))
                = Ok (h, true)).
Proof.
  assert (H : ["an"; "apple"] <> ([] : list string)) by discriminate.
  split; [exact H|].
  exact (processSent_result ideal ["an"; "apple"] Demo.res
           (Demo.args (3 # 4)) H).
Defined.

(** ** Lines in, lines out *)




(** ** Case *)




(** ** Malformed lines of the inflection database *)

(** C3, as the program has it: a line without the separator, or with no
    word before its first separator, makes the load raise [IndexError], and
    no dictionary is returned; a dictionary is returned exactly when every
    line is well formed, and it then holds, under each lemma, the lemma and
    the forms of the last line of that lemma, and nothing under a word that
    is the lemma of no line. *)
Theorem loadWordFormDict_aborts_on_malformed
  (py : Interp) (content : string) :
  ((exists d, loadWordFormDict_in py content = Ok d)
   <-> Forall (well_formed_in py) (entries_of_in py content))
  /\ (forall entry,
        In entry (entries_of_in py content) ->
        ~ well_formed_in py entry ->
        loadWordFormDict_in py content = Raise IndexError)
  /\ (forall entry, ~ has_separator entry -> ~ well_formed_in py entry)
  /\ (forall key rest,
        ~ has_separator key ->
        str_split py key = [] ->
        ~ well_formed_in py (key ++ ": " ++ rest))
  /\ (forall d,
        loadWordFormDict_in py content = Ok d ->
        forall w,
          (Py.dict_get String.eqb w d = None
           /\ forall entry forms,
                In entry (entries_of_in py content) ->
                ~ line_of py entry w forms)
          \/ (exists entry forms,
                last_line_of py (entries_of_in py content) entry w forms
                /\ Py.dict_get String.eqb w d
                   = Some (Py.set (w :: forms)))).
Proof.
  unfold loadWordFormDict_in.
  split; [split|].
  - intros [d H]. eapply loadWordFormDict_loop_in_wf; exact H.
  - intros H. apply loadWordFormDict_loop_in_Ok. exact H.
  - split; [intros entry Hin Hno;
            eapply loadWordFormDict_loop_in_raises; eauto|].
    split; [apply no_separator_malformed|].
    split; [apply blank_key_malformed|].
    intros d Hload w.
    pose proof (loadWordFormDict_loop_in_wf py _ _ _ Hload) as Hwf.
    destruct (last_line_of_cases py w _ Hwf)
      as [Hnone | [entry [forms Hlast]]].
    + left. split; [|exact Hnone].
      rewrite (loadWordFormDict_loop_in_other py w _ Hnone _ d Hload).
      reflexivity.
    + right. exists entry, forms. split; [exact Hlast|].
      eapply loadWordFormDict_loop_in_last; eauto.
Qed.

(** C3 fails as stated: of the three lines of this database the second has
    no separator; the load does not skip it but raises [IndexError], and
    returns no dictionary, the other two lines being well formed.  A line
    whose key is blank does the same. *)
Lemma loadWordFormDict_does_not_skip :
  entries_of_in ideal Demo.infl_bad
  = ["run V: ran running | runs"; "apple";
     "be V: was, were been {being} is"]
  /\ well_formed_in ideal "run V: ran running | runs"
  /\ well_formed_in ideal "be V: was, were been {being} is"
  /\ ~ has_separator "apple"
  /\ loadWordFormDict_in ideal Demo.infl_bad = Raise IndexError
  /\ (forall d, loadWordFormDict_in ideal Demo.infl_bad <> Ok d)
  /\ loadWordFormDict_in ideal ("run V: ran" ++ nl ++ ": oops stray")
     = Raise IndexError.
Proof.
  split; [vm_compute; reflexivity|].
  split; [apply parse_entry_in_well_formed; eexists; eexists;
          vm_compute; reflexivity|].
  split; [apply parse_entry_in_well_formed; eexists; eexists;
          vm_compute; reflexivity|].
  split; [apply no_separator_by_split; vm_compute; reflexivity|].
  assert (H : loadWordFormDict_in ideal Demo.infl_bad = Raise IndexError)
    by (vm_compute; reflexivity).
  split; [exact H|].
  split; [intros d; rewrite H; discriminate|].
  vm_compute; reflexivity.
Qed.

Lemma loadWordFormDict_aborts_on_malformed_witness :
  In "apple" (entries_of_in ideal Demo.infl_bad)
  /\ ~ well_formed_in ideal "apple"
  /\ loadWordFormDict_in ideal Demo.infl_bad = Raise IndexError.
Proof.
  assert (H1 : In "apple" (entries_of_in ideal Demo.infl_bad))
    by (vm_compute; auto).
  assert (H2 : ~ well_formed_in ideal "apple").
  { apply no_separator_malformed.
    apply no_separator_by_split. vm_compute. reflexivity. }
  split; [exact H1|]. split; [exact H2|].
  exact (proj1 (proj2 (loadWordFormDict_aborts_on_malformed ideal
                         Demo.infl_bad)) "apple" H1 H2).
Defined.

(** ** The lemma among its forms *)

(** C8: for a line of the database with the lemma [w], the first word before
    the first separator, a successful load stores under [w] a set that
    contains [w]: it is [w] together with the forms of the last line of that
    lemma, these being the words of the text after the separator from which
    the markup characters and the bracketed annotations have been taken
    out; for the line itself, when it is the last of its lemma. *)
Theorem loadWordFormDict_keeps_lemma
  (py : Interp) (content : string) (d : form_dict_t)
  (entry w : string) (forms : list string) :
  loadWordFormDict_in py content = Ok d ->
  In entry (entries_of_in py content) ->
  line_of py entry w forms ->
  exists fs entry' forms',
    Py.dict_get String.eqb w d = Some fs
    /\ In w fs
    /\ last_line_of py (entries_of_in py content) entry' w forms'
    /\ (forall f, In f fs <-> f = w \/ In f forms')
    /\ NoDup fs
    /\ (exists txt,
          forms' = str_split py (sub_braces (sub_markup txt))
          /\ Py.sexists markup_char (sub_braces (sub_markup txt)) = false
          /\ ~ brace_pair (sub_braces (sub_markup txt)))
    /\ (last_line_of py (entries_of_in py content) entry w forms ->
        forall f, In f fs <-> f = w \/ In f forms).
Proof.
  intros Hload Hin Hline. unfold loadWordFormDict_in in Hload.
  pose proof (loadWordFormDict_loop_in_wf py _ _ _ Hload) as Hwf.
  destruct (last_line_of_cases py w _ Hwf)
    as [Hnone | [entry' [forms' Hlast]]];
    [exfalso; exact (Hnone entry forms Hin Hline)|].
  pose proof (loadWordFormDict_loop_in_last py _ _ _ _ Hlast _ _ Hload)
    as Hget.
  assert (Hmem : forall l f, In f (Py.set (w :: l)) <-> f = w \/ In f l).
  { intros l f. unfold Py.set. rewrite nodup_In. simpl.
    split; intros [H|H]; auto. }
  exists (Py.set (w :: forms')), entry', forms'.
  split; [exact Hget|].
  split; [apply Hmem; left; reflexivity|].
  split; [exact Hlast|].
  split; [apply Hmem|].
  split; [apply NoDup_nodup|].
  split.
  - destruct Hlast as [before [after [E [Hl _]]]].
    apply (line_of_clean py entry' w forms'); [|exact Hl].
    apply (entries_of_in_lines py content). rewrite E.
    apply in_or_app. right. left. reflexivity.
  - intros Hlast' f.
    pose proof (loadWordFormDict_loop_in_last py _ _ _ _ Hlast' _ _ Hload)
      as Hget'.
    assert (E : Py.set (w :: forms') = Py.set (w :: forms)) by congruence.
    rewrite E. apply Hmem.
Qed.

Lemma loadWordFormDict_keeps_lemma_witness :
  loadWordFormDict_in ideal Demo.infl
  = Ok [("run", ["run"; "ran"; "running"; "runs"]);
        ("apple", ["apple"; "apples"]);
        ("be", ["be"; "was"; "were"; "been"; "is"])]
  /\ In "be V: was, were been {being} is" (entries_of_in ideal Demo.infl)
  /\ line_of ideal "be V: was, were been {being} is" "be"
       ["was"; "were"; "been"; "is"]
  /\ exists fs,
       Py.dict_get String.eqb "be"
         [("run", ["run"; "ran"; "running"; "runs"]);
          ("apple", ["apple"; "apples"]);
          ("be", ["be"; "was"; "were"; "been"; "is"])] = Some fs
       /\ In "be" fs.
Proof.
  assert (H1 : loadWordFormDict_in ideal Demo.infl
               = Ok [("run", ["run"; "ran"; "running"; "runs"]);
                     ("apple", ["apple"; "apples"]);
                     ("be", ["be"; "was"; "were"; "been"; "is"])])
    by (vm_compute; reflexivity).
  assert (H2 : In "be V: was, were been {being} is"
                 (entries_of_in ideal Demo.infl))
    by (vm_compute; auto).
  assert (H3 : line_of ideal "be V: was, were been {being} is" "be"
                 ["was"; "were"; "been"; "is"])
    by (apply parse_entry_in_line; vm_compute; reflexivity).
  split; [exact H1|]. split; [exact H2|]. split; [exact H3|].
  destruct (loadWordFormDict_keeps_lemma ideal Demo.infl _ _ _ _ H1 H2 H3)
    as [fs [_ [_ [Hget [Hw _]]]]].
  exists fs. split; [exact Hget | exact Hw].
Defined.

(** ** Where the candidates of a sweep come from *)


(** X3: every item of the candidate dictionary of a sweep stems from a
    token of the sentence: its edit names the position of that token, a
    candidate that one of the four sources proposes for it, and the weight
    given on the command line; on a sentence of non-empty tokens its
    sentence is the input edited at that position and nowhere else. *)
Theorem candidates_stem_from_tokens
  (py : Interp) (sent : list string) (res : Resources) (args : Args)
  (d : cand_dict_t)
  (e : edit) (h : list string) :
  candidates_in py sent res args = Ok d ->
  In (e, h) d ->
  exists p w,
    nth_error sent p = Some w
    /\ edit_tok_id e = Z.of_nat p
    /\ In (edit_cand e)
          (proposed_in py res {| text := w; i := p;
                           lemma_ := doc_lemma res sent p |})
    /\ (edit_weight e == threshold args)%Q
    /\ (Forall (fun t => t <> "") sent -> h = edited sent p (edit_cand e)).
Proof.
  intros Hd Hin. unfold candidates_in in Hd.
  pose proof (collect_in_stems py sent res args (processWithSpacy sent res)
                (processWithSpacy sent res) (incl_refl _) [] d
                (Forall_nil _) Hd) as Hall.
  unfold stems_in in Hall.
  rewrite Forall_forall in Hall.
  destruct (Hall (e, h) Hin) as [tok [Htok [Ht [Hc [Hw Hv]]]]].
  simpl in *.
  destruct (processWithSpacy_In sent res tok Htok) as [Hnth Hlem].
  exists (i tok), (text tok).
  split; [exact Hnth|]. split; [exact Ht|].
  split; [rewrite <- Hlem; destruct tok; exact Hc|].
  split; [exact Hw|].
  intros Hs. rewrite Hv. apply hyp_of_edited; [exact Hs|].
  apply index_of_nat. apply nth_error_Some. rewrite Hnth. discriminate.
Qed.

Lemma candidates_stem_from_tokens_witness :
  candidates_in ideal ["a"; "apple"] Demo.res (Demo.args (3 # 4))
  = Ok [(((0%Z, ""), (3 # 4)%Q), ["apple"]);
        (((0%Z, "the"), (3 # 4)%Q), ["the"; "apple"]);
        (((0%Z, "a"), (3 # 4)%Q), ["a"; "apple"]);
        (((0%Z, "an"), (3 # 4)%Q), ["an"; "apple"]);
        (((1%Z, "apple"), (3 # 4)%Q), ["a"; "apple"]);
        (((1%Z, "apples"), (3 # 4)%Q), ["a"; "apples"])]
  /\ exists p w,
       nth_error ["a"; "apple"] p = Some w
       /\ edit_tok_id ((1%Z, "apples"), (3 # 4)%Q) = Z.of_nat p.
Proof.
  assert (H : candidates_in ideal ["a"; "apple"] Demo.res (Demo.args (3 # 4))
              = Ok [(((0%Z, ""), (3 # 4)%Q), ["apple"]);
                    (((0%Z, "the"), (3 # 4)%Q), ["the"; "apple"]);
                    (((0%Z, "a"), (3 # 4)%Q), ["a"; "apple"]);
                    (((0%Z, "an"), (3 # 4)%Q), ["an"; "apple"]);
                    (((1%Z, "apple"), (3 # 4)%Q), ["a"; "apple"]);
                    (((1%Z, "apples"), (3 # 4)%Q), ["a"; "apples"])])
    by (vm_compute; reflexivity).
  split; [exact H|].
  destruct (candidates_stem_from_tokens ideal ["a"; "apple"] Demo.res
              (Demo.args (3 # 4)) _ ((1%Z, "apples"), (3 # 4)%Q)
              ["a"; "apples"] H
              (or_intror (or_intror (or_intror (or_intror
                 (or_intror (or_introl eq_refl)))))))
    as [p [w [Hn [Ht _]]]].
  exists p, w. split; [exact Hn | exact Ht].
Defined.

(** X4: the candidate dictionary of a sweep misses nothing: on a sentence
    of non-empty tokens it holds, for every token and every candidate that a
    source proposes for it, the sentence edited at that token, except for
    the deletion of the only token of a sentence. *)
Theorem candidates_complete
  (py : Interp) (sent : list string) (res : Resources) (args : Args)
  (d : cand_dict_t)
  (p : nat) (w cand : string) :
  Forall (fun t => t <> "") sent ->
  candidates_in py sent res args = Ok d ->
  nth_error sent p = Some w ->
  In cand (proposed_in py res {| text := w; i := p;
                           lemma_ := doc_lemma res sent p |}) ->
  has_edit d (Z.of_nat p) cand (edited sent p cand)
  <-> (cand <> "" \/ 2 <= List.length sent).
Proof.
  intros Hs Hd Hn Hc.
  assert (Hlt : p < List.length sent)
    by (apply nth_error_Some; rewrite Hn; discriminate).
  pose proof (index_of_nat _ _ Hlt) as Hp.
  rewrite <- (edited_nonempty_iff sent p cand Hlt).
  rewrite <- (hyp_of_edited sent (Z.of_nat p) cand p Hs Hp).
  split.
  - intros [e [He _]] Hempty.
    apply (candidates_in_sound py) in Hd. rewrite Forall_forall in Hd.
    destruct (Hd _ He) as [Hne _]. simpl in Hne. congruence.
  - intros Hne. unfold candidates_in in Hd.
    destruct (collect_in_holds py sent res args _ _ _ Hd) as [_ A].
    apply (A {| text := w; i := p; lemma_ := doc_lemma res sent p |} cand);
      [apply processWithSpacy_nth; exact Hn | exact Hc | exact Hne].
Qed.

Lemma candidates_complete_witness :
  Forall (fun t => t <> "") ["a"; "apple"]
  /\ candidates_in ideal ["a"; "apple"] Demo.res (Demo.args (3 # 4))
     = Ok [(((0%Z, ""), (3 # 4)%Q), ["apple"]);
           (((0%Z, "the"), (3 # 4)%Q), ["the"; "apple"]);
           (((0%Z, "a"), (3 # 4)%Q), ["a"; "apple"]);
           (((0%Z, "an"), (3 # 4)%Q), ["an"; "apple"]);
           (((1%Z, "apple"), (3 # 4)%Q), ["a"; "apple"]);
           (((1%Z, "apples"), (3 # 4)%Q), ["a"; "apples"])]
  /\ nth_error ["a"; "apple"] 0 = Some "a"
  /\ In "an" (proposed_in ideal Demo.res
                {| text := "a"; i := 0;
                   lemma_ := doc_lemma Demo.res ["a"; "apple"] 0 |})
  /\ ("an" <> "" \/ 2 <= List.length ["a"; "apple"]).
Proof.
  assert (H1 : Forall (fun t : string => t <> "") ["a"; "apple"])
    by (repeat constructor; discriminate).
  assert (H2 : candidates_in ideal ["a"; "apple"] Demo.res (Demo.args (3 # 4))
              = Ok [(((0%Z, ""), (3 # 4)%Q), ["apple"]);
                    (((0%Z, "the"), (3 # 4)%Q), ["the"; "apple"]);
                    (((0%Z, "a"), (3 # 4)%Q), ["a"; "apple"]);
                    (((0%Z, "an"), (3 # 4)%Q), ["an"; "apple"]);
                    (((1%Z, "apple"), (3 # 4)%Q), ["a"; "apple"]);
                    (((1%Z, "apples"), (3 # 4)%Q), ["a"; "apples"])])
    by (vm_compute; reflexivity).
  assert (H3 : nth_error ["a"; "apple"] 0 = Some "a") by reflexivity.
  assert (H4 : In "an" (proposed_in ideal Demo.res
                          {| text := "a"; i := 0;
                             lemma_ := doc_lemma Demo.res ["a"; "apple"] 0 |}))
    by (vm_compute; auto).
  split; [exact H1|]. split; [exact H2|]. split; [exact H3|].
  split; [exact H4|].
  apply (proj1 (candidates_complete ideal ["a"; "apple"] Demo.res
                  (Demo.args (3 # 4)) _ 0 "a" "an" H1 H2 H3 H4)).
  exists ((0%Z, "an"), (3 # 4)%Q).
  split; [right; right; right; left; reflexivity | split; reflexivity].
Defined.

(** ** A sweep without candidates *)


(** X11: when no source proposes a candidate for any token, the sweep
    returns the sentence unchanged with [False], and the correction loop
    ends after this one sweep with the sentence it was given. *)
Theorem processSent_no_candidates
  (py : Interp) (sent : list string) (res : Resources) (args : Args) :
  sent <> [] ->
  (forall tok,
      In tok (processWithSpacy sent res) -> proposed_in py res tok = []) ->
  candidates_in py sent res args = Ok []
  /\ processSent_in py sent res args = Ok (sent, false)
  /\ forall n, correct_in py (S n) sent res args = Some (Ok sent).
Proof.
  intros Hne Hnone.
  destruct (processSent_in_spec py sent res args Hne)
    as [d [Hd [[_ Hp] | [n [e [h [[Hnth _] _]]]]]]].
  - assert (Hd0 : d = []).
    { destruct d as [|[e h] d']; [reflexivity|]. exfalso.
      destruct (candidates_in_item py sent res args _ e h Hd
                  (or_introl eq_refl))
        as [tok [Htok [_ [Hc _]]]].
      rewrite (Hnone tok Htok) in Hc. exact Hc. }
    subst d. split; [exact Hd|]. split; [exact Hp|].
    intros n. simpl. rewrite Hp. reflexivity.
  - exfalso. apply nth_error_In in Hnth.
    destruct (candidates_in_item py sent res args d e h Hd Hnth)
      as [tok [Htok [_ [Hc _]]]].
    rewrite (Hnone tok Htok) in Hc. exact Hc.
Qed.

Lemma processSent_no_candidates_witness :
  ["cat"; "sat"] <> []
  /\ (forall tok, In tok (processWithSpacy ["cat"; "sat"] Demo.res) ->
                  proposed_in ideal Demo.res tok = [])
  /\ processSent_in ideal ["cat"; "sat"] Demo.res (Demo.args (3 # 4))
     = Ok (["cat"; "sat"], false).
Proof.
  assert (H1 : ["cat"; "sat"] <> ([] : list string)) by discriminate.
  assert (H2 : forall tok, In tok (processWithSpacy ["cat"; "sat"] Demo.res)
                           -> proposed_in ideal Demo.res tok = []).
  { intros tok [<-|[<-|[]]]; reflexivity. }
  split; [exact H1|]. split; [exact H2|].
  exact (proj1 (proj2 (processSent_no_candidates ideal ["cat"; "sat"] Demo.res
                         (Demo.args (3 # 4)) H1 H2))).
Defined.
